(** * gmail-assistant: the batch classification-and-labelling pipeline

    A shallow embedding of the edge function [process-emails]
    ([fetchEmails], [classifyEmail], [getAllLabels], [getOrCreateLabel],
    [applyLabel], [serve]) and of the dashboard's run loop
    ([processOneBatch], [handleStop], [handleProcessSection]).

    Modelling conventions.
    - A JavaScript string is a [string] holding its UTF-8 bytes.
      [toUpperCase] and [toLowerCase] convert character by character with
      the mappings of the Unicode Character Database; [trim] strips the
      white space and line terminators of ECMAScript.
    - An [await fetch(...)] together with the reading of its response has
      three outcomes: the response is [ok] and its body has been read, the
      response is not [ok], or an exception was thrown on the way (the
      request was rejected, the body could not be read).
    - The edge function is written in a state-and-exception monad over
      the module variable [labelCache] and the state of the outside
      world; every run also reports the calls it issued, in order.
    - The dashboard's [async] handler is a transition system whose states
      are its [await] points; [handleStop] can only run at such a point. *)

From Stdlib Require Import String Ascii List ZArith Lia Bool Arith.
Import ListNotations.
Open Scope string_scope.

Set Implicit Arguments.
Set Warnings "-register-all".

(* ================================================================== *)
(** * Case mappings of the Unicode Character Database *)

(** The default case conversion [String.prototype.toUpperCase] and
    [toLowerCase] apply: for every character outside ASCII that changes,
    the character and its image (the simple mapping of UnicodeData.txt, or
    the unconditional full mapping of SpecialCasing.txt where there is one),
    both in UTF-8; Unicode 14.0. *)
Module Unicode.

Definition to_upper : list (string * string) :=
  [
    ("µ", "Μ"); ("ß", "SS"); ("à", "À"); ("á", "Á"); ("â", "Â"); ("ã", "Ã");
    ("ä", "Ä"); ("å", "Å"); ("æ", "Æ"); ("ç", "Ç"); ("è", "È"); ("é", "É");
    ("ê", "Ê"); ("ë", "Ë"); ("ì", "Ì"); ("í", "Í"); ("î", "Î"); ("ï", "Ï");
    ("ð", "Ð"); ("ñ", "Ñ"); ("ò", "Ò"); ("ó", "Ó"); ("ô", "Ô"); ("õ", "Õ");
    ("ö", "Ö"); ("ø", "Ø"); ("ù", "Ù"); ("ú", "Ú"); ("û", "Û"); ("ü", "Ü");
    ("ý", "Ý"); ("þ", "Þ"); ("ÿ", "Ÿ"); ("ā", "Ā"); ("ă", "Ă"); ("ą", "Ą");
    ("ć", "Ć"); ("ĉ", "Ĉ"); ("ċ", "Ċ"); ("č", "Č"); ("ď", "Ď"); ("đ", "Đ");
    ("ē", "Ē"); ("ĕ", "Ĕ"); ("ė", "Ė"); ("ę", "Ę"); ("ě", "Ě"); ("ĝ", "Ĝ");
    ("ğ", "Ğ"); ("ġ", "Ġ"); ("ģ", "Ģ"); ("ĥ", "Ĥ"); ("ħ", "Ħ"); ("ĩ", "Ĩ");
    ("ī", "Ī"); ("ĭ", "Ĭ"); ("į", "Į"); ("ı", "I"); ("ĳ", "Ĳ"); ("ĵ", "Ĵ");
    ("ķ", "Ķ"); ("ĺ", "Ĺ"); ("ļ", "Ļ"); ("ľ", "Ľ"); ("ŀ", "Ŀ"); ("ł", "Ł");
    ("ń", "Ń"); ("ņ", "Ņ"); ("ň", "Ň"); ("ŉ", "ʼN"); ("ŋ", "Ŋ"); ("ō", "Ō");
    ("ŏ", "Ŏ"); ("ő", "Ő"); ("œ", "Œ"); ("ŕ", "Ŕ"); ("ŗ", "Ŗ"); ("ř", "Ř");
    ("ś", "Ś"); ("ŝ", "Ŝ"); ("ş", "Ş"); ("š", "Š"); ("ţ", "Ţ"); ("ť", "Ť");
    ("ŧ", "Ŧ"); ("ũ", "Ũ"); ("ū", "Ū"); ("ŭ", "Ŭ"); ("ů", "Ů"); ("ű", "Ű");
    ("ų", "Ų"); ("ŵ", "Ŵ"); ("ŷ", "Ŷ"); ("ź", "Ź"); ("ż", "Ż"); ("ž", "Ž");
    ("ſ", "S"); ("ƀ", "Ƀ"); ("ƃ", "Ƃ"); ("ƅ", "Ƅ"); ("ƈ", "Ƈ"); ("ƌ", "Ƌ");
    ("ƒ", "Ƒ"); ("ƕ", "Ƕ"); ("ƙ", "Ƙ"); ("ƚ", "Ƚ"); ("ƞ", "Ƞ"); ("ơ", "Ơ");
    ("ƣ", "Ƣ"); ("ƥ", "Ƥ"); ("ƨ", "Ƨ"); ("ƭ", "Ƭ"); ("ư", "Ư"); ("ƴ", "Ƴ");
    ("ƶ", "Ƶ"); ("ƹ", "Ƹ"); ("ƽ", "Ƽ"); ("ƿ", "Ƿ"); ("ǅ", "Ǆ"); ("ǆ", "Ǆ");
    ("ǈ", "Ǉ"); ("ǉ", "Ǉ"); ("ǋ", "Ǌ"); ("ǌ", "Ǌ"); ("ǎ", "Ǎ"); ("ǐ", "Ǐ");
    ("ǒ", "Ǒ"); ("ǔ", "Ǔ"); ("ǖ", "Ǖ"); ("ǘ", "Ǘ"); ("ǚ", "Ǚ"); ("ǜ", "Ǜ");
    ("ǝ", "Ǝ"); ("ǟ", "Ǟ"); ("ǡ", "Ǡ"); ("ǣ", "Ǣ"); ("ǥ", "Ǥ"); ("ǧ", "Ǧ");
    ("ǩ", "Ǩ"); ("ǫ", "Ǫ"); ("ǭ", "Ǭ"); ("ǯ", "Ǯ"); ("ǰ", "J̌"); ("ǲ", "Ǳ");
    ("ǳ", "Ǳ"); ("ǵ", "Ǵ"); ("ǹ", "Ǹ"); ("ǻ", "Ǻ"); ("ǽ", "Ǽ"); ("ǿ", "Ǿ");
    ("ȁ", "Ȁ"); ("ȃ", "Ȃ"); ("ȅ", "Ȅ"); ("ȇ", "Ȇ"); ("ȉ", "Ȉ"); ("ȋ", "Ȋ");
    ("ȍ", "Ȍ"); ("ȏ", "Ȏ"); ("ȑ", "Ȑ"); ("ȓ", "Ȓ"); ("ȕ", "Ȕ"); ("ȗ", "Ȗ");
    ("ș", "Ș"); ("ț", "Ț"); ("ȝ", "Ȝ"); ("ȟ", "Ȟ"); ("ȣ", "Ȣ"); ("ȥ", "Ȥ");
    ("ȧ", "Ȧ"); ("ȩ", "Ȩ"); ("ȫ", "Ȫ"); ("ȭ", "Ȭ"); ("ȯ", "Ȯ"); ("ȱ", "Ȱ");
    ("ȳ", "Ȳ"); ("ȼ", "Ȼ"); ("ȿ", "Ȿ"); ("ɀ", "Ɀ"); ("ɂ", "Ɂ"); ("ɇ", "Ɇ");
    ("ɉ", "Ɉ"); ("ɋ", "Ɋ"); ("ɍ", "Ɍ"); ("ɏ", "Ɏ"); ("ɐ", "Ɐ"); ("ɑ", "Ɑ");
    ("ɒ", "Ɒ"); ("ɓ", "Ɓ"); ("ɔ", "Ɔ"); ("ɖ", "Ɖ"); ("ɗ", "Ɗ"); ("ə", "Ə");
    ("ɛ", "Ɛ"); ("ɜ", "Ɜ"); ("ɠ", "Ɠ"); ("ɡ", "Ɡ"); ("ɣ", "Ɣ"); ("ɥ", "Ɥ");
    ("ɦ", "Ɦ"); ("ɨ", "Ɨ"); ("ɩ", "Ɩ"); ("ɪ", "Ɪ"); ("ɫ", "Ɫ"); ("ɬ", "Ɬ");
    ("ɯ", "Ɯ"); ("ɱ", "Ɱ"); ("ɲ", "Ɲ"); ("ɵ", "Ɵ"); ("ɽ", "Ɽ"); ("ʀ", "Ʀ");
    ("ʂ", "Ʂ"); ("ʃ", "Ʃ"); ("ʇ", "Ʇ"); ("ʈ", "Ʈ"); ("ʉ", "Ʉ"); ("ʊ", "Ʊ");
    ("ʋ", "Ʋ"); ("ʌ", "Ʌ"); ("ʒ", "Ʒ"); ("ʝ", "Ʝ"); ("ʞ", "Ʞ"); ("ͅ", "Ι");
    ("ͱ", "Ͱ"); ("ͳ", "Ͳ"); ("ͷ", "Ͷ"); ("ͻ", "Ͻ"); ("ͼ", "Ͼ"); ("ͽ", "Ͽ");
    ("ΐ", "Ϊ́"); ("ά", "Ά"); ("έ", "Έ"); ("ή", "Ή"); ("ί", "Ί"); ("ΰ", "Ϋ́");
    ("α", "Α"); ("β", "Β"); ("γ", "Γ"); ("δ", "Δ"); ("ε", "Ε"); ("ζ", "Ζ");
    ("η", "Η"); ("θ", "Θ"); ("ι", "Ι"); ("κ", "Κ"); ("λ", "Λ"); ("μ", "Μ");
    ("ν", "Ν"); ("ξ", "Ξ"); ("ο", "Ο"); ("π", "Π"); ("ρ", "Ρ"); ("ς", "Σ");
    ("σ", "Σ"); ("τ", "Τ"); ("υ", "Υ"); ("φ", "Φ"); ("χ", "Χ"); ("ψ", "Ψ");
    ("ω", "Ω"); ("ϊ", "Ϊ"); ("ϋ", "Ϋ"); ("ό", "Ό"); ("ύ", "Ύ"); ("ώ", "Ώ");
    ("ϐ", "Β"); ("ϑ", "Θ"); ("ϕ", "Φ"); ("ϖ", "Π"); ("ϗ", "Ϗ"); ("ϙ", "Ϙ");
    ("ϛ", "Ϛ"); ("ϝ", "Ϝ"); ("ϟ", "Ϟ"); ("ϡ", "Ϡ"); ("ϣ", "Ϣ"); ("ϥ", "Ϥ");
    ("ϧ", "Ϧ"); ("ϩ", "Ϩ"); ("ϫ", "Ϫ"); ("ϭ", "Ϭ"); ("ϯ", "Ϯ"); ("ϰ", "Κ");
    ("ϱ", "Ρ"); ("ϲ", "Ϲ"); ("ϳ", "Ϳ"); ("ϵ", "Ε"); ("ϸ", "Ϸ"); ("ϻ", "Ϻ");
    ("а", "А"); ("б", "Б"); ("в", "В"); ("г", "Г"); ("д", "Д"); ("е", "Е");
    ("ж", "Ж"); ("з", "З"); ("и", "И"); ("й", "Й"); ("к", "К"); ("л", "Л");
    ("м", "М"); ("н", "Н"); ("о", "О"); ("п", "П"); ("р", "Р"); ("с", "С");
    ("т", "Т"); ("у", "У"); ("ф", "Ф"); ("х", "Х"); ("ц", "Ц"); ("ч", "Ч");
    ("ш", "Ш"); ("щ", "Щ"); ("ъ", "Ъ"); ("ы", "Ы"); ("ь", "Ь"); ("э", "Э");
    ("ю", "Ю"); ("я", "Я"); ("ѐ", "Ѐ"); ("ё", "Ё"); ("ђ", "Ђ"); ("ѓ", "Ѓ");
    ("є", "Є"); ("ѕ", "Ѕ"); ("і", "І"); ("ї", "Ї"); ("ј", "Ј"); ("љ", "Љ");
    ("њ", "Њ"); ("ћ", "Ћ"); ("ќ", "Ќ"); ("ѝ", "Ѝ"); ("ў", "Ў"); ("џ", "Џ");
    ("ѡ", "Ѡ"); ("ѣ", "Ѣ"); ("ѥ", "Ѥ"); ("ѧ", "Ѧ"); ("ѩ", "Ѩ"); ("ѫ", "Ѫ");
    ("ѭ", "Ѭ"); ("ѯ", "Ѯ"); ("ѱ", "Ѱ"); ("ѳ", "Ѳ"); ("ѵ", "Ѵ"); ("ѷ", "Ѷ");
    ("ѹ", "Ѹ"); ("ѻ", "Ѻ"); ("ѽ", "Ѽ"); ("ѿ", "Ѿ"); ("ҁ", "Ҁ"); ("ҋ", "Ҋ");
    ("ҍ", "Ҍ"); ("ҏ", "Ҏ"); ("ґ", "Ґ"); ("ғ", "Ғ"); ("ҕ", "Ҕ"); ("җ", "Җ");
    ("ҙ", "Ҙ"); ("қ", "Қ"); ("ҝ", "Ҝ"); ("ҟ", "Ҟ"); ("ҡ", "Ҡ"); ("ң", "Ң");
    ("ҥ", "Ҥ"); ("ҧ", "Ҧ"); ("ҩ", "Ҩ"); ("ҫ", "Ҫ"); ("ҭ", "Ҭ"); ("ү", "Ү");
    ("ұ", "Ұ"); ("ҳ", "Ҳ"); ("ҵ", "Ҵ"); ("ҷ", "Ҷ"); ("ҹ", "Ҹ"); ("һ", "Һ");
    ("ҽ", "Ҽ"); ("ҿ", "Ҿ"); ("ӂ", "Ӂ"); ("ӄ", "Ӄ"); ("ӆ", "Ӆ"); ("ӈ", "Ӈ");
    ("ӊ", "Ӊ"); ("ӌ", "Ӌ"); ("ӎ", "Ӎ"); ("ӏ", "Ӏ"); ("ӑ", "Ӑ"); ("ӓ", "Ӓ");
    ("ӕ", "Ӕ"); ("ӗ", "Ӗ"); ("ә", "Ә"); ("ӛ", "Ӛ"); ("ӝ", "Ӝ"); ("ӟ", "Ӟ");
    ("ӡ", "Ӡ"); ("ӣ", "Ӣ"); ("ӥ", "Ӥ"); ("ӧ", "Ӧ"); ("ө", "Ө"); ("ӫ", "Ӫ");
    ("ӭ", "Ӭ"); ("ӯ", "Ӯ"); ("ӱ", "Ӱ"); ("ӳ", "Ӳ"); ("ӵ", "Ӵ"); ("ӷ", "Ӷ");
    ("ӹ", "Ӹ"); ("ӻ", "Ӻ"); ("ӽ", "Ӽ"); ("ӿ", "Ӿ"); ("ԁ", "Ԁ"); ("ԃ", "Ԃ");
    ("ԅ", "Ԅ"); ("ԇ", "Ԇ"); ("ԉ", "Ԉ"); ("ԋ", "Ԋ"); ("ԍ", "Ԍ"); ("ԏ", "Ԏ");
    ("ԑ", "Ԑ"); ("ԓ", "Ԓ"); ("ԕ", "Ԕ"); ("ԗ", "Ԗ"); ("ԙ", "Ԙ"); ("ԛ", "Ԛ");
    ("ԝ", "Ԝ"); ("ԟ", "Ԟ"); ("ԡ", "Ԡ"); ("ԣ", "Ԣ"); ("ԥ", "Ԥ"); ("ԧ", "Ԧ");
    ("ԩ", "Ԩ"); ("ԫ", "Ԫ"); ("ԭ", "Ԭ"); ("ԯ", "Ԯ"); ("ա", "Ա"); ("բ", "Բ");
    ("գ", "Գ"); ("դ", "Դ"); ("ե", "Ե"); ("զ", "Զ"); ("է", "Է"); ("ը", "Ը");
    ("թ", "Թ"); ("ժ", "Ժ"); ("ի", "Ի"); ("լ", "Լ"); ("խ", "Խ"); ("ծ", "Ծ");
    ("կ", "Կ"); ("հ", "Հ"); ("ձ", "Ձ"); ("ղ", "Ղ"); ("ճ", "Ճ"); ("մ", "Մ");
    ("յ", "Յ"); ("ն", "Ն"); ("շ", "Շ"); ("ո", "Ո"); ("չ", "Չ"); ("պ", "Պ");
    ("ջ", "Ջ"); ("ռ", "Ռ"); ("ս", "Ս"); ("վ", "Վ"); ("տ", "Տ"); ("ր", "Ր");
    ("ց", "Ց"); ("ւ", "Ւ"); ("փ", "Փ"); ("ք", "Ք"); ("օ", "Օ"); ("ֆ", "Ֆ");
    ("և", "ԵՒ"); ("ა", "Ა"); ("ბ", "Ბ"); ("გ", "Გ"); ("დ", "Დ"); ("ე", "Ე");
    ("ვ", "Ვ"); ("ზ", "Ზ"); ("თ", "Თ"); ("ი", "Ი"); ("კ", "Კ"); ("ლ", "Ლ");
    ("მ", "Მ"); ("ნ", "Ნ"); ("ო", "Ო"); ("პ", "Პ"); ("ჟ", "Ჟ"); ("რ", "Რ");
    ("ს", "Ს"); ("ტ", "Ტ"); ("უ", "Უ"); ("ფ", "Ფ"); ("ქ", "Ქ"); ("ღ", "Ღ");
    ("ყ", "Ყ"); ("შ", "Შ"); ("ჩ", "Ჩ"); ("ც", "Ც"); ("ძ", "Ძ"); ("წ", "Წ");
    ("ჭ", "Ჭ"); ("ხ", "Ხ"); ("ჯ", "Ჯ"); ("ჰ", "Ჰ"); ("ჱ", "Ჱ"); ("ჲ", "Ჲ");
    ("ჳ", "Ჳ"); ("ჴ", "Ჴ"); ("ჵ", "Ჵ"); ("ჶ", "Ჶ"); ("ჷ", "Ჷ"); ("ჸ", "Ჸ");
    ("ჹ", "Ჹ"); ("ჺ", "Ჺ"); ("ჽ", "Ჽ"); ("ჾ", "Ჾ"); ("ჿ", "Ჿ"); ("ᏸ", "Ᏸ");
    ("ᏹ", "Ᏹ"); ("ᏺ", "Ᏺ"); ("ᏻ", "Ᏻ"); ("ᏼ", "Ᏼ"); ("ᏽ", "Ᏽ"); ("ᲀ", "В");
    ("ᲁ", "Д"); ("ᲂ", "О"); ("ᲃ", "С"); ("ᲄ", "Т"); ("ᲅ", "Т"); ("ᲆ", "Ъ");
    ("ᲇ", "Ѣ"); ("ᲈ", "Ꙋ"); ("ᵹ", "Ᵹ"); ("ᵽ", "Ᵽ"); ("ᶎ", "Ᶎ"); ("ḁ", "Ḁ");
    ("ḃ", "Ḃ"); ("ḅ", "Ḅ"); ("ḇ", "Ḇ"); ("ḉ", "Ḉ"); ("ḋ", "Ḋ"); ("ḍ", "Ḍ");
    ("ḏ", "Ḏ"); ("ḑ", "Ḑ"); ("ḓ", "Ḓ"); ("ḕ", "Ḕ"); ("ḗ", "Ḗ"); ("ḙ", "Ḙ");
    ("ḛ", "Ḛ"); ("ḝ", "Ḝ"); ("ḟ", "Ḟ"); ("ḡ", "Ḡ"); ("ḣ", "Ḣ"); ("ḥ", "Ḥ");
    ("ḧ", "Ḧ"); ("ḩ", "Ḩ"); ("ḫ", "Ḫ"); ("ḭ", "Ḭ"); ("ḯ", "Ḯ"); ("ḱ", "Ḱ");
    ("ḳ", "Ḳ"); ("ḵ", "Ḵ"); ("ḷ", "Ḷ"); ("ḹ", "Ḹ"); ("ḻ", "Ḻ"); ("ḽ", "Ḽ");
    ("ḿ", "Ḿ"); ("ṁ", "Ṁ"); ("ṃ", "Ṃ"); ("ṅ", "Ṅ"); ("ṇ", "Ṇ"); ("ṉ", "Ṉ");
    ("ṋ", "Ṋ"); ("ṍ", "Ṍ"); ("ṏ", "Ṏ"); ("ṑ", "Ṑ"); ("ṓ", "Ṓ"); ("ṕ", "Ṕ");
    ("ṗ", "Ṗ"); ("ṙ", "Ṙ"); ("ṛ", "Ṛ"); ("ṝ", "Ṝ"); ("ṟ", "Ṟ"); ("ṡ", "Ṡ");
    ("ṣ", "Ṣ"); ("ṥ", "Ṥ"); ("ṧ", "Ṧ"); ("ṩ", "Ṩ"); ("ṫ", "Ṫ"); ("ṭ", "Ṭ");
    ("ṯ", "Ṯ"); ("ṱ", "Ṱ"); ("ṳ", "Ṳ"); ("ṵ", "Ṵ"); ("ṷ", "Ṷ"); ("ṹ", "Ṹ");
    ("ṻ", "Ṻ"); ("ṽ", "Ṽ"); ("ṿ", "Ṿ"); ("ẁ", "Ẁ"); ("ẃ", "Ẃ"); ("ẅ", "Ẅ");
    ("ẇ", "Ẇ"); ("ẉ", "Ẉ"); ("ẋ", "Ẋ"); ("ẍ", "Ẍ"); ("ẏ", "Ẏ"); ("ẑ", "Ẑ");
    ("ẓ", "Ẓ"); ("ẕ", "Ẕ"); ("ẖ", "H̱"); ("ẗ", "T̈"); ("ẘ", "W̊"); ("ẙ", "Y̊");
    ("ẚ", "Aʾ"); ("ẛ", "Ṡ"); ("ạ", "Ạ"); ("ả", "Ả"); ("ấ", "Ấ"); ("ầ", "Ầ");
    ("ẩ", "Ẩ"); ("ẫ", "Ẫ"); ("ậ", "Ậ"); ("ắ", "Ắ"); ("ằ", "Ằ"); ("ẳ", "Ẳ");
    ("ẵ", "Ẵ"); ("ặ", "Ặ"); ("ẹ", "Ẹ"); ("ẻ", "Ẻ"); ("ẽ", "Ẽ"); ("ế", "Ế");
    ("ề", "Ề"); ("ể", "Ể"); ("ễ", "Ễ"); ("ệ", "Ệ"); ("ỉ", "Ỉ"); ("ị", "Ị");
    ("ọ", "Ọ"); ("ỏ", "Ỏ"); ("ố", "Ố"); ("ồ", "Ồ"); ("ổ", "Ổ"); ("ỗ", "Ỗ");
    ("ộ", "Ộ"); ("ớ", "Ớ"); ("ờ", "Ờ"); ("ở", "Ở"); ("ỡ", "Ỡ"); ("ợ", "Ợ");
    ("ụ", "Ụ"); ("ủ", "Ủ"); ("ứ", "Ứ"); ("ừ", "Ừ"); ("ử", "Ử"); ("ữ", "Ữ");
    ("ự", "Ự"); ("ỳ", "Ỳ"); ("ỵ", "Ỵ"); ("ỷ", "Ỷ"); ("ỹ", "Ỹ"); ("ỻ", "Ỻ");
    ("ỽ", "Ỽ"); ("ỿ", "Ỿ"); ("ἀ", "Ἀ"); ("ἁ", "Ἁ"); ("ἂ", "Ἂ"); ("ἃ", "Ἃ");
    ("ἄ", "Ἄ"); ("ἅ", "Ἅ"); ("ἆ", "Ἆ"); ("ἇ", "Ἇ"); ("ἐ", "Ἐ"); ("ἑ", "Ἑ");
    ("ἒ", "Ἒ"); ("ἓ", "Ἓ"); ("ἔ", "Ἔ"); ("ἕ", "Ἕ"); ("ἠ", "Ἠ"); ("ἡ", "Ἡ");
    ("ἢ", "Ἢ"); ("ἣ", "Ἣ"); ("ἤ", "Ἤ"); ("ἥ", "Ἥ"); ("ἦ", "Ἦ"); ("ἧ", "Ἧ");
    ("ἰ", "Ἰ"); ("ἱ", "Ἱ"); ("ἲ", "Ἲ"); ("ἳ", "Ἳ"); ("ἴ", "Ἴ"); ("ἵ", "Ἵ");
    ("ἶ", "Ἶ"); ("ἷ", "Ἷ"); ("ὀ", "Ὀ"); ("ὁ", "Ὁ"); ("ὂ", "Ὂ"); ("ὃ", "Ὃ");
    ("ὄ", "Ὄ"); ("ὅ", "Ὅ"); ("ὐ", "Υ̓"); ("ὑ", "Ὑ"); ("ὒ", "Υ̓̀"); ("ὓ", "Ὓ");
    ("ὔ", "Υ̓́"); ("ὕ", "Ὕ"); ("ὖ", "Υ̓͂"); ("ὗ", "Ὗ"); ("ὠ", "Ὠ"); ("ὡ", "Ὡ");
    ("ὢ", "Ὢ"); ("ὣ", "Ὣ"); ("ὤ", "Ὤ"); ("ὥ", "Ὥ"); ("ὦ", "Ὦ"); ("ὧ", "Ὧ");
    ("ὰ", "Ὰ"); ("ά", "Ά"); ("ὲ", "Ὲ"); ("έ", "Έ"); ("ὴ", "Ὴ"); ("ή", "Ή");
    ("ὶ", "Ὶ"); ("ί", "Ί"); ("ὸ", "Ὸ"); ("ό", "Ό"); ("ὺ", "Ὺ"); ("ύ", "Ύ");
    ("ὼ", "Ὼ"); ("ώ", "Ώ"); ("ᾀ", "ἈΙ"); ("ᾁ", "ἉΙ"); ("ᾂ", "ἊΙ"); ("ᾃ", "ἋΙ");
    ("ᾄ", "ἌΙ"); ("ᾅ", "ἍΙ"); ("ᾆ", "ἎΙ"); ("ᾇ", "ἏΙ"); ("ᾈ", "ἈΙ"); ("ᾉ", "ἉΙ");
    ("ᾊ", "ἊΙ"); ("ᾋ", "ἋΙ"); ("ᾌ", "ἌΙ"); ("ᾍ", "ἍΙ"); ("ᾎ", "ἎΙ"); ("ᾏ", "ἏΙ");
    ("ᾐ", "ἨΙ"); ("ᾑ", "ἩΙ"); ("ᾒ", "ἪΙ"); ("ᾓ", "ἫΙ"); ("ᾔ", "ἬΙ"); ("ᾕ", "ἭΙ");
    ("ᾖ", "ἮΙ"); ("ᾗ", "ἯΙ"); ("ᾘ", "ἨΙ"); ("ᾙ", "ἩΙ"); ("ᾚ", "ἪΙ"); ("ᾛ", "ἫΙ");
    ("ᾜ", "ἬΙ"); ("ᾝ", "ἭΙ"); ("ᾞ", "ἮΙ"); ("ᾟ", "ἯΙ"); ("ᾠ", "ὨΙ"); ("ᾡ", "ὩΙ");
    ("ᾢ", "ὪΙ"); ("ᾣ", "ὫΙ"); ("ᾤ", "ὬΙ"); ("ᾥ", "ὭΙ"); ("ᾦ", "ὮΙ"); ("ᾧ", "ὯΙ");
    ("ᾨ", "ὨΙ"); ("ᾩ", "ὩΙ"); ("ᾪ", "ὪΙ"); ("ᾫ", "ὫΙ"); ("ᾬ", "ὬΙ"); ("ᾭ", "ὭΙ");
    ("ᾮ", "ὮΙ"); ("ᾯ", "ὯΙ"); ("ᾰ", "Ᾰ"); ("ᾱ", "Ᾱ"); ("ᾲ", "ᾺΙ"); ("ᾳ", "ΑΙ");
    ("ᾴ", "ΆΙ"); ("ᾶ", "Α͂"); ("ᾷ", "Α͂Ι"); ("ᾼ", "ΑΙ"); ("ι", "Ι"); ("ῂ", "ῊΙ");
    ("ῃ", "ΗΙ"); ("ῄ", "ΉΙ"); ("ῆ", "Η͂"); ("ῇ", "Η͂Ι"); ("ῌ", "ΗΙ"); ("ῐ", "Ῐ");
    ("ῑ", "Ῑ"); ("ῒ", "Ϊ̀"); ("ΐ", "Ϊ́"); ("ῖ", "Ι͂"); ("ῗ", "Ϊ͂"); ("ῠ", "Ῠ");
    ("ῡ", "Ῡ"); ("ῢ", "Ϋ̀"); ("ΰ", "Ϋ́"); ("ῤ", "Ρ̓"); ("ῥ", "Ῥ"); ("ῦ", "Υ͂");
    ("ῧ", "Ϋ͂"); ("ῲ", "ῺΙ"); ("ῳ", "ΩΙ"); ("ῴ", "ΏΙ"); ("ῶ", "Ω͂"); ("ῷ", "Ω͂Ι");
    ("ῼ", "ΩΙ"); ("ⅎ", "Ⅎ"); ("ⅰ", "Ⅰ"); ("ⅱ", "Ⅱ"); ("ⅲ", "Ⅲ"); ("ⅳ", "Ⅳ");
    ("ⅴ", "Ⅴ"); ("ⅵ", "Ⅵ"); ("ⅶ", "Ⅶ"); ("ⅷ", "Ⅷ"); ("ⅸ", "Ⅸ"); ("ⅹ", "Ⅹ");
    ("ⅺ", "Ⅺ"); ("ⅻ", "Ⅻ"); ("ⅼ", "Ⅼ"); ("ⅽ", "Ⅽ"); ("ⅾ", "Ⅾ"); ("ⅿ", "Ⅿ");
    ("ↄ", "Ↄ"); ("ⓐ", "Ⓐ"); ("ⓑ", "Ⓑ"); ("ⓒ", "Ⓒ"); ("ⓓ", "Ⓓ"); ("ⓔ", "Ⓔ");
    ("ⓕ", "Ⓕ"); ("ⓖ", "Ⓖ"); ("ⓗ", "Ⓗ"); ("ⓘ", "Ⓘ"); ("ⓙ", "Ⓙ"); ("ⓚ", "Ⓚ");
    ("ⓛ", "Ⓛ"); ("ⓜ", "Ⓜ"); ("ⓝ", "Ⓝ"); ("ⓞ", "Ⓞ"); ("ⓟ", "Ⓟ"); ("ⓠ", "Ⓠ");
    ("ⓡ", "Ⓡ"); ("ⓢ", "Ⓢ"); ("ⓣ", "Ⓣ"); ("ⓤ", "Ⓤ"); ("ⓥ", "Ⓥ"); ("ⓦ", "Ⓦ");
    ("ⓧ", "Ⓧ"); ("ⓨ", "Ⓨ"); ("ⓩ", "Ⓩ"); ("ⰰ", "Ⰰ"); ("ⰱ", "Ⰱ"); ("ⰲ", "Ⰲ");
    ("ⰳ", "Ⰳ"); ("ⰴ", "Ⰴ"); ("ⰵ", "Ⰵ"); ("ⰶ", "Ⰶ"); ("ⰷ", "Ⰷ"); ("ⰸ", "Ⰸ");
    ("ⰹ", "Ⰹ"); ("ⰺ", "Ⰺ"); ("ⰻ", "Ⰻ"); ("ⰼ", "Ⰼ"); ("ⰽ", "Ⰽ"); ("ⰾ", "Ⰾ");
    ("ⰿ", "Ⰿ"); ("ⱀ", "Ⱀ"); ("ⱁ", "Ⱁ"); ("ⱂ", "Ⱂ"); ("ⱃ", "Ⱃ"); ("ⱄ", "Ⱄ");
    ("ⱅ", "Ⱅ"); ("ⱆ", "Ⱆ"); ("ⱇ", "Ⱇ"); ("ⱈ", "Ⱈ"); ("ⱉ", "Ⱉ"); ("ⱊ", "Ⱊ");
    ("ⱋ", "Ⱋ"); ("ⱌ", "Ⱌ"); ("ⱍ", "Ⱍ"); ("ⱎ", "Ⱎ"); ("ⱏ", "Ⱏ"); ("ⱐ", "Ⱐ");
    ("ⱑ", "Ⱑ"); ("ⱒ", "Ⱒ"); ("ⱓ", "Ⱓ"); ("ⱔ", "Ⱔ"); ("ⱕ", "Ⱕ"); ("ⱖ", "Ⱖ");
    ("ⱗ", "Ⱗ"); ("ⱘ", "Ⱘ"); ("ⱙ", "Ⱙ"); ("ⱚ", "Ⱚ"); ("ⱛ", "Ⱛ"); ("ⱜ", "Ⱜ");
    ("ⱝ", "Ⱝ"); ("ⱞ", "Ⱞ"); ("ⱟ", "Ⱟ"); ("ⱡ", "Ⱡ"); ("ⱥ", "Ⱥ"); ("ⱦ", "Ⱦ");
    ("ⱨ", "Ⱨ"); ("ⱪ", "Ⱪ"); ("ⱬ", "Ⱬ"); ("ⱳ", "Ⱳ"); ("ⱶ", "Ⱶ"); ("ⲁ", "Ⲁ");
    ("ⲃ", "Ⲃ"); ("ⲅ", "Ⲅ"); ("ⲇ", "Ⲇ"); ("ⲉ", "Ⲉ"); ("ⲋ", "Ⲋ"); ("ⲍ", "Ⲍ");
    ("ⲏ", "Ⲏ"); ("ⲑ", "Ⲑ"); ("ⲓ", "Ⲓ"); ("ⲕ", "Ⲕ"); ("ⲗ", "Ⲗ"); ("ⲙ", "Ⲙ");
    ("ⲛ", "Ⲛ"); ("ⲝ", "Ⲝ"); ("ⲟ", "Ⲟ"); ("ⲡ", "Ⲡ"); ("ⲣ", "Ⲣ"); ("ⲥ", "Ⲥ");
    ("ⲧ", "Ⲧ"); ("ⲩ", "Ⲩ"); ("ⲫ", "Ⲫ"); ("ⲭ", "Ⲭ"); ("ⲯ", "Ⲯ"); ("ⲱ", "Ⲱ");
    ("ⲳ", "Ⲳ"); ("ⲵ", "Ⲵ"); ("ⲷ", "Ⲷ"); ("ⲹ", "Ⲹ"); ("ⲻ", "Ⲻ"); ("ⲽ", "Ⲽ");
    ("ⲿ", "Ⲿ"); ("ⳁ", "Ⳁ"); ("ⳃ", "Ⳃ"); ("ⳅ", "Ⳅ"); ("ⳇ", "Ⳇ"); ("ⳉ", "Ⳉ");
    ("ⳋ", "Ⳋ"); ("ⳍ", "Ⳍ"); ("ⳏ", "Ⳏ"); ("ⳑ", "Ⳑ"); ("ⳓ", "Ⳓ"); ("ⳕ", "Ⳕ");
    ("ⳗ", "Ⳗ"); ("ⳙ", "Ⳙ"); ("ⳛ", "Ⳛ"); ("ⳝ", "Ⳝ"); ("ⳟ", "Ⳟ"); ("ⳡ", "Ⳡ");
    ("ⳣ", "Ⳣ"); ("ⳬ", "Ⳬ"); ("ⳮ", "Ⳮ"); ("ⳳ", "Ⳳ"); ("ⴀ", "Ⴀ"); ("ⴁ", "Ⴁ");
    ("ⴂ", "Ⴂ"); ("ⴃ", "Ⴃ"); ("ⴄ", "Ⴄ"); ("ⴅ", "Ⴅ"); ("ⴆ", "Ⴆ"); ("ⴇ", "Ⴇ");
    ("ⴈ", "Ⴈ"); ("ⴉ", "Ⴉ"); ("ⴊ", "Ⴊ"); ("ⴋ", "Ⴋ"); ("ⴌ", "Ⴌ"); ("ⴍ", "Ⴍ");
    ("ⴎ", "Ⴎ"); ("ⴏ", "Ⴏ"); ("ⴐ", "Ⴐ"); ("ⴑ", "Ⴑ"); ("ⴒ", "Ⴒ"); ("ⴓ", "Ⴓ");
    ("ⴔ", "Ⴔ"); ("ⴕ", "Ⴕ"); ("ⴖ", "Ⴖ"); ("ⴗ", "Ⴗ"); ("ⴘ", "Ⴘ"); ("ⴙ", "Ⴙ");
    ("ⴚ", "Ⴚ"); ("ⴛ", "Ⴛ"); ("ⴜ", "Ⴜ"); ("ⴝ", "Ⴝ"); ("ⴞ", "Ⴞ"); ("ⴟ", "Ⴟ");
    ("ⴠ", "Ⴠ"); ("ⴡ", "Ⴡ"); ("ⴢ", "Ⴢ"); ("ⴣ", "Ⴣ"); ("ⴤ", "Ⴤ"); ("ⴥ", "Ⴥ");
    ("ⴧ", "Ⴧ"); ("ⴭ", "Ⴭ"); ("ꙁ", "Ꙁ"); ("ꙃ", "Ꙃ"); ("ꙅ", "Ꙅ"); ("ꙇ", "Ꙇ");
    ("ꙉ", "Ꙉ"); ("ꙋ", "Ꙋ"); ("ꙍ", "Ꙍ"); ("ꙏ", "Ꙏ"); ("ꙑ", "Ꙑ"); ("ꙓ", "Ꙓ");
    ("ꙕ", "Ꙕ"); ("ꙗ", "Ꙗ"); ("ꙙ", "Ꙙ"); ("ꙛ", "Ꙛ"); ("ꙝ", "Ꙝ"); ("ꙟ", "Ꙟ");
    ("ꙡ", "Ꙡ"); ("ꙣ", "Ꙣ"); ("ꙥ", "Ꙥ"); ("ꙧ", "Ꙧ"); ("ꙩ", "Ꙩ"); ("ꙫ", "Ꙫ");
    ("ꙭ", "Ꙭ"); ("ꚁ", "Ꚁ"); ("ꚃ", "Ꚃ"); ("ꚅ", "Ꚅ"); ("ꚇ", "Ꚇ"); ("ꚉ", "Ꚉ");
    ("ꚋ", "Ꚋ"); ("ꚍ", "Ꚍ"); ("ꚏ", "Ꚏ"); ("ꚑ", "Ꚑ"); ("ꚓ", "Ꚓ"); ("ꚕ", "Ꚕ");
    ("ꚗ", "Ꚗ"); ("ꚙ", "Ꚙ"); ("ꚛ", "Ꚛ"); ("ꜣ", "Ꜣ"); ("ꜥ", "Ꜥ"); ("ꜧ", "Ꜧ");
    ("ꜩ", "Ꜩ"); ("ꜫ", "Ꜫ"); ("ꜭ", "Ꜭ"); ("ꜯ", "Ꜯ"); ("ꜳ", "Ꜳ"); ("ꜵ", "Ꜵ");
    ("ꜷ", "Ꜷ"); ("ꜹ", "Ꜹ"); ("ꜻ", "Ꜻ"); ("ꜽ", "Ꜽ"); ("ꜿ", "Ꜿ"); ("ꝁ", "Ꝁ");
    ("ꝃ", "Ꝃ"); ("ꝅ", "Ꝅ"); ("ꝇ", "Ꝇ"); ("ꝉ", "Ꝉ"); ("ꝋ", "Ꝋ"); ("ꝍ", "Ꝍ");
    ("ꝏ", "Ꝏ"); ("ꝑ", "Ꝑ"); ("ꝓ", "Ꝓ"); ("ꝕ", "Ꝕ"); ("ꝗ", "Ꝗ"); ("ꝙ", "Ꝙ");
    ("ꝛ", "Ꝛ"); ("ꝝ", "Ꝝ"); ("ꝟ", "Ꝟ"); ("ꝡ", "Ꝡ"); ("ꝣ", "Ꝣ"); ("ꝥ", "Ꝥ");
    ("ꝧ", "Ꝧ"); ("ꝩ", "Ꝩ"); ("ꝫ", "Ꝫ"); ("ꝭ", "Ꝭ"); ("ꝯ", "Ꝯ"); ("ꝺ", "Ꝺ");
    ("ꝼ", "Ꝼ"); ("ꝿ", "Ꝿ"); ("ꞁ", "Ꞁ"); ("ꞃ", "Ꞃ"); ("ꞅ", "Ꞅ"); ("ꞇ", "Ꞇ");
    ("ꞌ", "Ꞌ"); ("ꞑ", "Ꞑ"); ("ꞓ", "Ꞓ"); ("ꞔ", "Ꞔ"); ("ꞗ", "Ꞗ"); ("ꞙ", "Ꞙ");
    ("ꞛ", "Ꞛ"); ("ꞝ", "Ꞝ"); ("ꞟ", "Ꞟ"); ("ꞡ", "Ꞡ"); ("ꞣ", "Ꞣ"); ("ꞥ", "Ꞥ");
    ("ꞧ", "Ꞧ"); ("ꞩ", "Ꞩ"); ("ꞵ", "Ꞵ"); ("ꞷ", "Ꞷ"); ("ꞹ", "Ꞹ"); ("ꞻ", "Ꞻ");
    ("ꞽ", "Ꞽ"); ("ꞿ", "Ꞿ"); ("ꟁ", "Ꟁ"); ("ꟃ", "Ꟃ"); ("ꟈ", "Ꟈ"); ("ꟊ", "Ꟊ");
    ("ꟑ", "Ꟑ"); ("ꟗ", "Ꟗ"); ("ꟙ", "Ꟙ"); ("ꟶ", "Ꟶ"); ("ꭓ", "Ꭓ"); ("ꭰ", "Ꭰ");
    ("ꭱ", "Ꭱ"); ("ꭲ", "Ꭲ"); ("ꭳ", "Ꭳ"); ("ꭴ", "Ꭴ"); ("ꭵ", "Ꭵ"); ("ꭶ", "Ꭶ");
    ("ꭷ", "Ꭷ"); ("ꭸ", "Ꭸ"); ("ꭹ", "Ꭹ"); ("ꭺ", "Ꭺ"); ("ꭻ", "Ꭻ"); ("ꭼ", "Ꭼ");
    ("ꭽ", "Ꭽ"); ("ꭾ", "Ꭾ"); ("ꭿ", "Ꭿ"); ("ꮀ", "Ꮀ"); ("ꮁ", "Ꮁ"); ("ꮂ", "Ꮂ");
    ("ꮃ", "Ꮃ"); ("ꮄ", "Ꮄ"); ("ꮅ", "Ꮅ"); ("ꮆ", "Ꮆ"); ("ꮇ", "Ꮇ"); ("ꮈ", "Ꮈ");
    ("ꮉ", "Ꮉ"); ("ꮊ", "Ꮊ"); ("ꮋ", "Ꮋ"); ("ꮌ", "Ꮌ"); ("ꮍ", "Ꮍ"); ("ꮎ", "Ꮎ");
    ("ꮏ", "Ꮏ"); ("ꮐ", "Ꮐ"); ("ꮑ", "Ꮑ"); ("ꮒ", "Ꮒ"); ("ꮓ", "Ꮓ"); ("ꮔ", "Ꮔ");
    ("ꮕ", "Ꮕ"); ("ꮖ", "Ꮖ"); ("ꮗ", "Ꮗ"); ("ꮘ", "Ꮘ"); ("ꮙ", "Ꮙ"); ("ꮚ", "Ꮚ");
    ("ꮛ", "Ꮛ"); ("ꮜ", "Ꮜ"); ("ꮝ", "Ꮝ"); ("ꮞ", "Ꮞ"); ("ꮟ", "Ꮟ"); ("ꮠ", "Ꮠ");
    ("ꮡ", "Ꮡ"); ("ꮢ", "Ꮢ"); ("ꮣ", "Ꮣ"); ("ꮤ", "Ꮤ"); ("ꮥ", "Ꮥ"); ("ꮦ", "Ꮦ");
    ("ꮧ", "Ꮧ"); ("ꮨ", "Ꮨ"); ("ꮩ", "Ꮩ"); ("ꮪ", "Ꮪ"); ("ꮫ", "Ꮫ"); ("ꮬ", "Ꮬ");
    ("ꮭ", "Ꮭ"); ("ꮮ", "Ꮮ"); ("ꮯ", "Ꮯ"); ("ꮰ", "Ꮰ"); ("ꮱ", "Ꮱ"); ("ꮲ", "Ꮲ");
    ("ꮳ", "Ꮳ"); ("ꮴ", "Ꮴ"); ("ꮵ", "Ꮵ"); ("ꮶ", "Ꮶ"); ("ꮷ", "Ꮷ"); ("ꮸ", "Ꮸ");
    ("ꮹ", "Ꮹ"); ("ꮺ", "Ꮺ"); ("ꮻ", "Ꮻ"); ("ꮼ", "Ꮼ"); ("ꮽ", "Ꮽ"); ("ꮾ", "Ꮾ");
    ("ꮿ", "Ꮿ"); ("ﬀ", "FF"); ("ﬁ", "FI"); ("ﬂ", "FL"); ("ﬃ", "FFI"); ("ﬄ", "FFL");
    ("ﬅ", "ST"); ("ﬆ", "ST"); ("ﬓ", "ՄՆ"); ("ﬔ", "ՄԵ"); ("ﬕ", "ՄԻ"); ("ﬖ", "ՎՆ");
    ("ﬗ", "ՄԽ"); ("ａ", "Ａ"); ("ｂ", "Ｂ"); ("ｃ", "Ｃ"); ("ｄ", "Ｄ"); ("ｅ", "Ｅ");
    ("ｆ", "Ｆ"); ("ｇ", "Ｇ"); ("ｈ", "Ｈ"); ("ｉ", "Ｉ"); ("ｊ", "Ｊ"); ("ｋ", "Ｋ");
    ("ｌ", "Ｌ"); ("ｍ", "Ｍ"); ("ｎ", "Ｎ"); ("ｏ", "Ｏ"); ("ｐ", "Ｐ"); ("ｑ", "Ｑ");
    ("ｒ", "Ｒ"); ("ｓ", "Ｓ"); ("ｔ", "Ｔ"); ("ｕ", "Ｕ"); ("ｖ", "Ｖ"); ("ｗ", "Ｗ");
    ("ｘ", "Ｘ"); ("ｙ", "Ｙ"); ("ｚ", "Ｚ"); ("𐐨", "𐐀"); ("𐐩", "𐐁"); ("𐐪", "𐐂");
    ("𐐫", "𐐃"); ("𐐬", "𐐄"); ("𐐭", "𐐅"); ("𐐮", "𐐆"); ("𐐯", "𐐇"); ("𐐰", "𐐈");
    ("𐐱", "𐐉"); ("𐐲", "𐐊"); ("𐐳", "𐐋"); ("𐐴", "𐐌"); ("𐐵", "𐐍"); ("𐐶", "𐐎");
    ("𐐷", "𐐏"); ("𐐸", "𐐐"); ("𐐹", "𐐑"); ("𐐺", "𐐒"); ("𐐻", "𐐓"); ("𐐼", "𐐔");
    ("𐐽", "𐐕"); ("𐐾", "𐐖"); ("𐐿", "𐐗"); ("𐑀", "𐐘"); ("𐑁", "𐐙"); ("𐑂", "𐐚");
    ("𐑃", "𐐛"); ("𐑄", "𐐜"); ("𐑅", "𐐝"); ("𐑆", "𐐞"); ("𐑇", "𐐟"); ("𐑈", "𐐠");
    ("𐑉", "𐐡"); ("𐑊", "𐐢"); ("𐑋", "𐐣"); ("𐑌", "𐐤"); ("𐑍", "𐐥"); ("𐑎", "𐐦");
    ("𐑏", "𐐧"); ("𐓘", "𐒰"); ("𐓙", "𐒱"); ("𐓚", "𐒲"); ("𐓛", "𐒳"); ("𐓜", "𐒴");
    ("𐓝", "𐒵"); ("𐓞", "𐒶"); ("𐓟", "𐒷"); ("𐓠", "𐒸"); ("𐓡", "𐒹"); ("𐓢", "𐒺");
    ("𐓣", "𐒻"); ("𐓤", "𐒼"); ("𐓥", "𐒽"); ("𐓦", "𐒾"); ("𐓧", "𐒿"); ("𐓨", "𐓀");
    ("𐓩", "𐓁"); ("𐓪", "𐓂"); ("𐓫", "𐓃"); ("𐓬", "𐓄"); ("𐓭", "𐓅"); ("𐓮", "𐓆");
    ("𐓯", "𐓇"); ("𐓰", "𐓈"); ("𐓱", "𐓉"); ("𐓲", "𐓊"); ("𐓳", "𐓋"); ("𐓴", "𐓌");
    ("𐓵", "𐓍"); ("𐓶", "𐓎"); ("𐓷", "𐓏"); ("𐓸", "𐓐"); ("𐓹", "𐓑"); ("𐓺", "𐓒");
    ("𐓻", "𐓓"); ("𐖗", "𐕰"); ("𐖘", "𐕱"); ("𐖙", "𐕲"); ("𐖚", "𐕳"); ("𐖛", "𐕴");
    ("𐖜", "𐕵"); ("𐖝", "𐕶"); ("𐖞", "𐕷"); ("𐖟", "𐕸"); ("𐖠", "𐕹"); ("𐖡", "𐕺");
    ("𐖣", "𐕼"); ("𐖤", "𐕽"); ("𐖥", "𐕾"); ("𐖦", "𐕿"); ("𐖧", "𐖀"); ("𐖨", "𐖁");
    ("𐖩", "𐖂"); ("𐖪", "𐖃"); ("𐖫", "𐖄"); ("𐖬", "𐖅"); ("𐖭", "𐖆"); ("𐖮", "𐖇");
    ("𐖯", "𐖈"); ("𐖰", "𐖉"); ("𐖱", "𐖊"); ("𐖳", "𐖌"); ("𐖴", "𐖍"); ("𐖵", "𐖎");
    ("𐖶", "𐖏"); ("𐖷", "𐖐"); ("𐖸", "𐖑"); ("𐖹", "𐖒"); ("𐖻", "𐖔"); ("𐖼", "𐖕");
    ("𐳀", "𐲀"); ("𐳁", "𐲁"); ("𐳂", "𐲂"); ("𐳃", "𐲃"); ("𐳄", "𐲄"); ("𐳅", "𐲅");
    ("𐳆", "𐲆"); ("𐳇", "𐲇"); ("𐳈", "𐲈"); ("𐳉", "𐲉"); ("𐳊", "𐲊"); ("𐳋", "𐲋");
    ("𐳌", "𐲌"); ("𐳍", "𐲍"); ("𐳎", "𐲎"); ("𐳏", "𐲏"); ("𐳐", "𐲐"); ("𐳑", "𐲑");
    ("𐳒", "𐲒"); ("𐳓", "𐲓"); ("𐳔", "𐲔"); ("𐳕", "𐲕"); ("𐳖", "𐲖"); ("𐳗", "𐲗");
    ("𐳘", "𐲘"); ("𐳙", "𐲙"); ("𐳚", "𐲚"); ("𐳛", "𐲛"); ("𐳜", "𐲜"); ("𐳝", "𐲝");
    ("𐳞", "𐲞"); ("𐳟", "𐲟"); ("𐳠", "𐲠"); ("𐳡", "𐲡"); ("𐳢", "𐲢"); ("𐳣", "𐲣");
    ("𐳤", "𐲤"); ("𐳥", "𐲥"); ("𐳦", "𐲦"); ("𐳧", "𐲧"); ("𐳨", "𐲨"); ("𐳩", "𐲩");
    ("𐳪", "𐲪"); ("𐳫", "𐲫"); ("𐳬", "𐲬"); ("𐳭", "𐲭"); ("𐳮", "𐲮"); ("𐳯", "𐲯");
    ("𐳰", "𐲰"); ("𐳱", "𐲱"); ("𐳲", "𐲲"); ("𑣀", "𑢠"); ("𑣁", "𑢡"); ("𑣂", "𑢢");
    ("𑣃", "𑢣"); ("𑣄", "𑢤"); ("𑣅", "𑢥"); ("𑣆", "𑢦"); ("𑣇", "𑢧"); ("𑣈", "𑢨");
    ("𑣉", "𑢩"); ("𑣊", "𑢪"); ("𑣋", "𑢫"); ("𑣌", "𑢬"); ("𑣍", "𑢭"); ("𑣎", "𑢮");
    ("𑣏", "𑢯"); ("𑣐", "𑢰"); ("𑣑", "𑢱"); ("𑣒", "𑢲"); ("𑣓", "𑢳"); ("𑣔", "𑢴");
    ("𑣕", "𑢵"); ("𑣖", "𑢶"); ("𑣗", "𑢷"); ("𑣘", "𑢸"); ("𑣙", "𑢹"); ("𑣚", "𑢺");
    ("𑣛", "𑢻"); ("𑣜", "𑢼"); ("𑣝", "𑢽"); ("𑣞", "𑢾"); ("𑣟", "𑢿"); ("𖹠", "𖹀");
    ("𖹡", "𖹁"); ("𖹢", "𖹂"); ("𖹣", "𖹃"); ("𖹤", "𖹄"); ("𖹥", "𖹅"); ("𖹦", "𖹆");
    ("𖹧", "𖹇"); ("𖹨", "𖹈"); ("𖹩", "𖹉"); ("𖹪", "𖹊"); ("𖹫", "𖹋"); ("𖹬", "𖹌");
    ("𖹭", "𖹍"); ("𖹮", "𖹎"); ("𖹯", "𖹏"); ("𖹰", "𖹐"); ("𖹱", "𖹑"); ("𖹲", "𖹒");
    ("𖹳", "𖹓"); ("𖹴", "𖹔"); ("𖹵", "𖹕"); ("𖹶", "𖹖"); ("𖹷", "𖹗"); ("𖹸", "𖹘");
    ("𖹹", "𖹙"); ("𖹺", "𖹚"); ("𖹻", "𖹛"); ("𖹼", "𖹜"); ("𖹽", "𖹝"); ("𖹾", "𖹞");
    ("𖹿", "𖹟"); ("𞤢", "𞤀"); ("𞤣", "𞤁"); ("𞤤", "𞤂"); ("𞤥", "𞤃"); ("𞤦", "𞤄");
    ("𞤧", "𞤅"); ("𞤨", "𞤆"); ("𞤩", "𞤇"); ("𞤪", "𞤈"); ("𞤫", "𞤉"); ("𞤬", "𞤊");
    ("𞤭", "𞤋"); ("𞤮", "𞤌"); ("𞤯", "𞤍"); ("𞤰", "𞤎"); ("𞤱", "𞤏"); ("𞤲", "𞤐");
    ("𞤳", "𞤑"); ("𞤴", "𞤒"); ("𞤵", "𞤓"); ("𞤶", "𞤔"); ("𞤷", "𞤕"); ("𞤸", "𞤖");
    ("𞤹", "𞤗"); ("𞤺", "𞤘"); ("𞤻", "𞤙"); ("𞤼", "𞤚"); ("𞤽", "𞤛"); ("𞤾", "𞤜");
    ("𞤿", "𞤝"); ("𞥀", "𞤞"); ("𞥁", "𞤟"); ("𞥂", "𞤠"); ("𞥃", "𞤡")
  ].

Definition to_lower : list (string * string) :=
  [
    ("À", "à"); ("Á", "á"); ("Â", "â"); ("Ã", "ã"); ("Ä", "ä"); ("Å", "å");
    ("Æ", "æ"); ("Ç", "ç"); ("È", "è"); ("É", "é"); ("Ê", "ê"); ("Ë", "ë");
    ("Ì", "ì"); ("Í", "í"); ("Î", "î"); ("Ï", "ï"); ("Ð", "ð"); ("Ñ", "ñ");
    ("Ò", "ò"); ("Ó", "ó"); ("Ô", "ô"); ("Õ", "õ"); ("Ö", "ö"); ("Ø", "ø");
    ("Ù", "ù"); ("Ú", "ú"); ("Û", "û"); ("Ü", "ü"); ("Ý", "ý"); ("Þ", "þ");
    ("Ā", "ā"); ("Ă", "ă"); ("Ą", "ą"); ("Ć", "ć"); ("Ĉ", "ĉ"); ("Ċ", "ċ");
    ("Č", "č"); ("Ď", "ď"); ("Đ", "đ"); ("Ē", "ē"); ("Ĕ", "ĕ"); ("Ė", "ė");
    ("Ę", "ę"); ("Ě", "ě"); ("Ĝ", "ĝ"); ("Ğ", "ğ"); ("Ġ", "ġ"); ("Ģ", "ģ");
    ("Ĥ", "ĥ"); ("Ħ", "ħ"); ("Ĩ", "ĩ"); ("Ī", "ī"); ("Ĭ", "ĭ"); ("Į", "į");
    ("İ", "i̇"); ("Ĳ", "ĳ"); ("Ĵ", "ĵ"); ("Ķ", "ķ"); ("Ĺ", "ĺ"); ("Ļ", "ļ");
    ("Ľ", "ľ"); ("Ŀ", "ŀ"); ("Ł", "ł"); ("Ń", "ń"); ("Ņ", "ņ"); ("Ň", "ň");
    ("Ŋ", "ŋ"); ("Ō", "ō"); ("Ŏ", "ŏ"); ("Ő", "ő"); ("Œ", "œ"); ("Ŕ", "ŕ");
    ("Ŗ", "ŗ"); ("Ř", "ř"); ("Ś", "ś"); ("Ŝ", "ŝ"); ("Ş", "ş"); ("Š", "š");
    ("Ţ", "ţ"); ("Ť", "ť"); ("Ŧ", "ŧ"); ("Ũ", "ũ"); ("Ū", "ū"); ("Ŭ", "ŭ");
    ("Ů", "ů"); ("Ű", "ű"); ("Ų", "ų"); ("Ŵ", "ŵ"); ("Ŷ", "ŷ"); ("Ÿ", "ÿ");
    ("Ź", "ź"); ("Ż", "ż"); ("Ž", "ž"); ("Ɓ", "ɓ"); ("Ƃ", "ƃ"); ("Ƅ", "ƅ");
    ("Ɔ", "ɔ"); ("Ƈ", "ƈ"); ("Ɖ", "ɖ"); ("Ɗ", "ɗ"); ("Ƌ", "ƌ"); ("Ǝ", "ǝ");
    ("Ə", "ə"); ("Ɛ", "ɛ"); ("Ƒ", "ƒ"); ("Ɠ", "ɠ"); ("Ɣ", "ɣ"); ("Ɩ", "ɩ");
    ("Ɨ", "ɨ"); ("Ƙ", "ƙ"); ("Ɯ", "ɯ"); ("Ɲ", "ɲ"); ("Ɵ", "ɵ"); ("Ơ", "ơ");
    ("Ƣ", "ƣ"); ("Ƥ", "ƥ"); ("Ʀ", "ʀ"); ("Ƨ", "ƨ"); ("Ʃ", "ʃ"); ("Ƭ", "ƭ");
    ("Ʈ", "ʈ"); ("Ư", "ư"); ("Ʊ", "ʊ"); ("Ʋ", "ʋ"); ("Ƴ", "ƴ"); ("Ƶ", "ƶ");
    ("Ʒ", "ʒ"); ("Ƹ", "ƹ"); ("Ƽ", "ƽ"); ("Ǆ", "ǆ"); ("ǅ", "ǆ"); ("Ǉ", "ǉ");
    ("ǈ", "ǉ"); ("Ǌ", "ǌ"); ("ǋ", "ǌ"); ("Ǎ", "ǎ"); ("Ǐ", "ǐ"); ("Ǒ", "ǒ");
    ("Ǔ", "ǔ"); ("Ǖ", "ǖ"); ("Ǘ", "ǘ"); ("Ǚ", "ǚ"); ("Ǜ", "ǜ"); ("Ǟ", "ǟ");
    ("Ǡ", "ǡ"); ("Ǣ", "ǣ"); ("Ǥ", "ǥ"); ("Ǧ", "ǧ"); ("Ǩ", "ǩ"); ("Ǫ", "ǫ");
    ("Ǭ", "ǭ"); ("Ǯ", "ǯ"); ("Ǳ", "ǳ"); ("ǲ", "ǳ"); ("Ǵ", "ǵ"); ("Ƕ", "ƕ");
    ("Ƿ", "ƿ"); ("Ǹ", "ǹ"); ("Ǻ", "ǻ"); ("Ǽ", "ǽ"); ("Ǿ", "ǿ"); ("Ȁ", "ȁ");
    ("Ȃ", "ȃ"); ("Ȅ", "ȅ"); ("Ȇ", "ȇ"); ("Ȉ", "ȉ"); ("Ȋ", "ȋ"); ("Ȍ", "ȍ");
    ("Ȏ", "ȏ"); ("Ȑ", "ȑ"); ("Ȓ", "ȓ"); ("Ȕ", "ȕ"); ("Ȗ", "ȗ"); ("Ș", "ș");
    ("Ț", "ț"); ("Ȝ", "ȝ"); ("Ȟ", "ȟ"); ("Ƞ", "ƞ"); ("Ȣ", "ȣ"); ("Ȥ", "ȥ");
    ("Ȧ", "ȧ"); ("Ȩ", "ȩ"); ("Ȫ", "ȫ"); ("Ȭ", "ȭ"); ("Ȯ", "ȯ"); ("Ȱ", "ȱ");
    ("Ȳ", "ȳ"); ("Ⱥ", "ⱥ"); ("Ȼ", "ȼ"); ("Ƚ", "ƚ"); ("Ⱦ", "ⱦ"); ("Ɂ", "ɂ");
    ("Ƀ", "ƀ"); ("Ʉ", "ʉ"); ("Ʌ", "ʌ"); ("Ɇ", "ɇ"); ("Ɉ", "ɉ"); ("Ɋ", "ɋ");
    ("Ɍ", "ɍ"); ("Ɏ", "ɏ"); ("Ͱ", "ͱ"); ("Ͳ", "ͳ"); ("Ͷ", "ͷ"); ("Ϳ", "ϳ");
    ("Ά", "ά"); ("Έ", "έ"); ("Ή", "ή"); ("Ί", "ί"); ("Ό", "ό"); ("Ύ", "ύ");
    ("Ώ", "ώ"); ("Α", "α"); ("Β", "β"); ("Γ", "γ"); ("Δ", "δ"); ("Ε", "ε");
    ("Ζ", "ζ"); ("Η", "η"); ("Θ", "θ"); ("Ι", "ι"); ("Κ", "κ"); ("Λ", "λ");
    ("Μ", "μ"); ("Ν", "ν"); ("Ξ", "ξ"); ("Ο", "ο"); ("Π", "π"); ("Ρ", "ρ");
    ("Σ", "σ"); ("Τ", "τ"); ("Υ", "υ"); ("Φ", "φ"); ("Χ", "χ"); ("Ψ", "ψ");
    ("Ω", "ω"); ("Ϊ", "ϊ"); ("Ϋ", "ϋ"); ("Ϗ", "ϗ"); ("Ϙ", "ϙ"); ("Ϛ", "ϛ");
    ("Ϝ", "ϝ"); ("Ϟ", "ϟ"); ("Ϡ", "ϡ"); ("Ϣ", "ϣ"); ("Ϥ", "ϥ"); ("Ϧ", "ϧ");
    ("Ϩ", "ϩ"); ("Ϫ", "ϫ"); ("Ϭ", "ϭ"); ("Ϯ", "ϯ"); ("ϴ", "θ"); ("Ϸ", "ϸ");
    ("Ϲ", "ϲ"); ("Ϻ", "ϻ"); ("Ͻ", "ͻ"); ("Ͼ", "ͼ"); ("Ͽ", "ͽ"); ("Ѐ", "ѐ");
    ("Ё", "ё"); ("Ђ", "ђ"); ("Ѓ", "ѓ"); ("Є", "є"); ("Ѕ", "ѕ"); ("І", "і");
    ("Ї", "ї"); ("Ј", "ј"); ("Љ", "љ"); ("Њ", "њ"); ("Ћ", "ћ"); ("Ќ", "ќ");
    ("Ѝ", "ѝ"); ("Ў", "ў"); ("Џ", "џ"); ("А", "а"); ("Б", "б"); ("В", "в");
    ("Г", "г"); ("Д", "д"); ("Е", "е"); ("Ж", "ж"); ("З", "з"); ("И", "и");
    ("Й", "й"); ("К", "к"); ("Л", "л"); ("М", "м"); ("Н", "н"); ("О", "о");
    ("П", "п"); ("Р", "р"); ("С", "с"); ("Т", "т"); ("У", "у"); ("Ф", "ф");
    ("Х", "х"); ("Ц", "ц"); ("Ч", "ч"); ("Ш", "ш"); ("Щ", "щ"); ("Ъ", "ъ");
    ("Ы", "ы"); ("Ь", "ь"); ("Э", "э"); ("Ю", "ю"); ("Я", "я"); ("Ѡ", "ѡ");
    ("Ѣ", "ѣ"); ("Ѥ", "ѥ"); ("Ѧ", "ѧ"); ("Ѩ", "ѩ"); ("Ѫ", "ѫ"); ("Ѭ", "ѭ");
    ("Ѯ", "ѯ"); ("Ѱ", "ѱ"); ("Ѳ", "ѳ"); ("Ѵ", "ѵ"); ("Ѷ", "ѷ"); ("Ѹ", "ѹ");
    ("Ѻ", "ѻ"); ("Ѽ", "ѽ"); ("Ѿ", "ѿ"); ("Ҁ", "ҁ"); ("Ҋ", "ҋ"); ("Ҍ", "ҍ");
    ("Ҏ", "ҏ"); ("Ґ", "ґ"); ("Ғ", "ғ"); ("Ҕ", "ҕ"); ("Җ", "җ"); ("Ҙ", "ҙ");
    ("Қ", "қ"); ("Ҝ", "ҝ"); ("Ҟ", "ҟ"); ("Ҡ", "ҡ"); ("Ң", "ң"); ("Ҥ", "ҥ");
    ("Ҧ", "ҧ"); ("Ҩ", "ҩ"); ("Ҫ", "ҫ"); ("Ҭ", "ҭ"); ("Ү", "ү"); ("Ұ", "ұ");
    ("Ҳ", "ҳ"); ("Ҵ", "ҵ"); ("Ҷ", "ҷ"); ("Ҹ", "ҹ"); ("Һ", "һ"); ("Ҽ", "ҽ");
    ("Ҿ", "ҿ"); ("Ӏ", "ӏ"); ("Ӂ", "ӂ"); ("Ӄ", "ӄ"); ("Ӆ", "ӆ"); ("Ӈ", "ӈ");
    ("Ӊ", "ӊ"); ("Ӌ", "ӌ"); ("Ӎ", "ӎ"); ("Ӑ", "ӑ"); ("Ӓ", "ӓ"); ("Ӕ", "ӕ");
    ("Ӗ", "ӗ"); ("Ә", "ә"); ("Ӛ", "ӛ"); ("Ӝ", "ӝ"); ("Ӟ", "ӟ"); ("Ӡ", "ӡ");
    ("Ӣ", "ӣ"); ("Ӥ", "ӥ"); ("Ӧ", "ӧ"); ("Ө", "ө"); ("Ӫ", "ӫ"); ("Ӭ", "ӭ");
    ("Ӯ", "ӯ"); ("Ӱ", "ӱ"); ("Ӳ", "ӳ"); ("Ӵ", "ӵ"); ("Ӷ", "ӷ"); ("Ӹ", "ӹ");
    ("Ӻ", "ӻ"); ("Ӽ", "ӽ"); ("Ӿ", "ӿ"); ("Ԁ", "ԁ"); ("Ԃ", "ԃ"); ("Ԅ", "ԅ");
    ("Ԇ", "ԇ"); ("Ԉ", "ԉ"); ("Ԋ", "ԋ"); ("Ԍ", "ԍ"); ("Ԏ", "ԏ"); ("Ԑ", "ԑ");
    ("Ԓ", "ԓ"); ("Ԕ", "ԕ"); ("Ԗ", "ԗ"); ("Ԙ", "ԙ"); ("Ԛ", "ԛ"); ("Ԝ", "ԝ");
    ("Ԟ", "ԟ"); ("Ԡ", "ԡ"); ("Ԣ", "ԣ"); ("Ԥ", "ԥ"); ("Ԧ", "ԧ"); ("Ԩ", "ԩ");
    ("Ԫ", "ԫ"); ("Ԭ", "ԭ"); ("Ԯ", "ԯ"); ("Ա", "ա"); ("Բ", "բ"); ("Գ", "գ");
    ("Դ", "դ"); ("Ե", "ե"); ("Զ", "զ"); ("Է", "է"); ("Ը", "ը"); ("Թ", "թ");
    ("Ժ", "ժ"); ("Ի", "ի"); ("Լ", "լ"); ("Խ", "խ"); ("Ծ", "ծ"); ("Կ", "կ");
    ("Հ", "հ"); ("Ձ", "ձ"); ("Ղ", "ղ"); ("Ճ", "ճ"); ("Մ", "մ"); ("Յ", "յ");
    ("Ն", "ն"); ("Շ", "շ"); ("Ո", "ո"); ("Չ", "չ"); ("Պ", "պ"); ("Ջ", "ջ");
    ("Ռ", "ռ"); ("Ս", "ս"); ("Վ", "վ"); ("Տ", "տ"); ("Ր", "ր"); ("Ց", "ց");
    ("Ւ", "ւ"); ("Փ", "փ"); ("Ք", "ք"); ("Օ", "օ"); ("Ֆ", "ֆ"); ("Ⴀ", "ⴀ");
    ("Ⴁ", "ⴁ"); ("Ⴂ", "ⴂ"); ("Ⴃ", "ⴃ"); ("Ⴄ", "ⴄ"); ("Ⴅ", "ⴅ"); ("Ⴆ", "ⴆ");
    ("Ⴇ", "ⴇ"); ("Ⴈ", "ⴈ"); ("Ⴉ", "ⴉ"); ("Ⴊ", "ⴊ"); ("Ⴋ", "ⴋ"); ("Ⴌ", "ⴌ");
    ("Ⴍ", "ⴍ"); ("Ⴎ", "ⴎ"); ("Ⴏ", "ⴏ"); ("Ⴐ", "ⴐ"); ("Ⴑ", "ⴑ"); ("Ⴒ", "ⴒ");
    ("Ⴓ", "ⴓ"); ("Ⴔ", "ⴔ"); ("Ⴕ", "ⴕ"); ("Ⴖ", "ⴖ"); ("Ⴗ", "ⴗ"); ("Ⴘ", "ⴘ");
    ("Ⴙ", "ⴙ"); ("Ⴚ", "ⴚ"); ("Ⴛ", "ⴛ"); ("Ⴜ", "ⴜ"); ("Ⴝ", "ⴝ"); ("Ⴞ", "ⴞ");
    ("Ⴟ", "ⴟ"); ("Ⴠ", "ⴠ"); ("Ⴡ", "ⴡ"); ("Ⴢ", "ⴢ"); ("Ⴣ", "ⴣ"); ("Ⴤ", "ⴤ");
    ("Ⴥ", "ⴥ"); ("Ⴧ", "ⴧ"); ("Ⴭ", "ⴭ"); ("Ꭰ", "ꭰ"); ("Ꭱ", "ꭱ"); ("Ꭲ", "ꭲ");
    ("Ꭳ", "ꭳ"); ("Ꭴ", "ꭴ"); ("Ꭵ", "ꭵ"); ("Ꭶ", "ꭶ"); ("Ꭷ", "ꭷ"); ("Ꭸ", "ꭸ");
    ("Ꭹ", "ꭹ"); ("Ꭺ", "ꭺ"); ("Ꭻ", "ꭻ"); ("Ꭼ", "ꭼ"); ("Ꭽ", "ꭽ"); ("Ꭾ", "ꭾ");
    ("Ꭿ", "ꭿ"); ("Ꮀ", "ꮀ"); ("Ꮁ", "ꮁ"); ("Ꮂ", "ꮂ"); ("Ꮃ", "ꮃ"); ("Ꮄ", "ꮄ");
    ("Ꮅ", "ꮅ"); ("Ꮆ", "ꮆ"); ("Ꮇ", "ꮇ"); ("Ꮈ", "ꮈ"); ("Ꮉ", "ꮉ"); ("Ꮊ", "ꮊ");
    ("Ꮋ", "ꮋ"); ("Ꮌ", "ꮌ"); ("Ꮍ", "ꮍ"); ("Ꮎ", "ꮎ"); ("Ꮏ", "ꮏ"); ("Ꮐ", "ꮐ");
    ("Ꮑ", "ꮑ"); ("Ꮒ", "ꮒ"); ("Ꮓ", "ꮓ"); ("Ꮔ", "ꮔ"); ("Ꮕ", "ꮕ"); ("Ꮖ", "ꮖ");
    ("Ꮗ", "ꮗ"); ("Ꮘ", "ꮘ"); ("Ꮙ", "ꮙ"); ("Ꮚ", "ꮚ"); ("Ꮛ", "ꮛ"); ("Ꮜ", "ꮜ");
    ("Ꮝ", "ꮝ"); ("Ꮞ", "ꮞ"); ("Ꮟ", "ꮟ"); ("Ꮠ", "ꮠ"); ("Ꮡ", "ꮡ"); ("Ꮢ", "ꮢ");
    ("Ꮣ", "ꮣ"); ("Ꮤ", "ꮤ"); ("Ꮥ", "ꮥ"); ("Ꮦ", "ꮦ"); ("Ꮧ", "ꮧ"); ("Ꮨ", "ꮨ");
    ("Ꮩ", "ꮩ"); ("Ꮪ", "ꮪ"); ("Ꮫ", "ꮫ"); ("Ꮬ", "ꮬ"); ("Ꮭ", "ꮭ"); ("Ꮮ", "ꮮ");
    ("Ꮯ", "ꮯ"); ("Ꮰ", "ꮰ"); ("Ꮱ", "ꮱ"); ("Ꮲ", "ꮲ"); ("Ꮳ", "ꮳ"); ("Ꮴ", "ꮴ");
    ("Ꮵ", "ꮵ"); ("Ꮶ", "ꮶ"); ("Ꮷ", "ꮷ"); ("Ꮸ", "ꮸ"); ("Ꮹ", "ꮹ"); ("Ꮺ", "ꮺ");
    ("Ꮻ", "ꮻ"); ("Ꮼ", "ꮼ"); ("Ꮽ", "ꮽ"); ("Ꮾ", "ꮾ"); ("Ꮿ", "ꮿ"); ("Ᏸ", "ᏸ");
    ("Ᏹ", "ᏹ"); ("Ᏺ", "ᏺ"); ("Ᏻ", "ᏻ"); ("Ᏼ", "ᏼ"); ("Ᏽ", "ᏽ"); ("Ა", "ა");
    ("Ბ", "ბ"); ("Გ", "გ"); ("Დ", "დ"); ("Ე", "ე"); ("Ვ", "ვ"); ("Ზ", "ზ");
    ("Თ", "თ"); ("Ი", "ი"); ("Კ", "კ"); ("Ლ", "ლ"); ("Მ", "მ"); ("Ნ", "ნ");
    ("Ო", "ო"); ("Პ", "პ"); ("Ჟ", "ჟ"); ("Რ", "რ"); ("Ს", "ს"); ("Ტ", "ტ");
    ("Უ", "უ"); ("Ფ", "ფ"); ("Ქ", "ქ"); ("Ღ", "ღ"); ("Ყ", "ყ"); ("Შ", "შ");
    ("Ჩ", "ჩ"); ("Ც", "ც"); ("Ძ", "ძ"); ("Წ", "წ"); ("Ჭ", "ჭ"); ("Ხ", "ხ");
    ("Ჯ", "ჯ"); ("Ჰ", "ჰ"); ("Ჱ", "ჱ"); ("Ჲ", "ჲ"); ("Ჳ", "ჳ"); ("Ჴ", "ჴ");
    ("Ჵ", "ჵ"); ("Ჶ", "ჶ"); ("Ჷ", "ჷ"); ("Ჸ", "ჸ"); ("Ჹ", "ჹ"); ("Ჺ", "ჺ");
    ("Ჽ", "ჽ"); ("Ჾ", "ჾ"); ("Ჿ", "ჿ"); ("Ḁ", "ḁ"); ("Ḃ", "ḃ"); ("Ḅ", "ḅ");
    ("Ḇ", "ḇ"); ("Ḉ", "ḉ"); ("Ḋ", "ḋ"); ("Ḍ", "ḍ"); ("Ḏ", "ḏ"); ("Ḑ", "ḑ");
    ("Ḓ", "ḓ"); ("Ḕ", "ḕ"); ("Ḗ", "ḗ"); ("Ḙ", "ḙ"); ("Ḛ", "ḛ"); ("Ḝ", "ḝ");
    ("Ḟ", "ḟ"); ("Ḡ", "ḡ"); ("Ḣ", "ḣ"); ("Ḥ", "ḥ"); ("Ḧ", "ḧ"); ("Ḩ", "ḩ");
    ("Ḫ", "ḫ"); ("Ḭ", "ḭ"); ("Ḯ", "ḯ"); ("Ḱ", "ḱ"); ("Ḳ", "ḳ"); ("Ḵ", "ḵ");
    ("Ḷ", "ḷ"); ("Ḹ", "ḹ"); ("Ḻ", "ḻ"); ("Ḽ", "ḽ"); ("Ḿ", "ḿ"); ("Ṁ", "ṁ");
    ("Ṃ", "ṃ"); ("Ṅ", "ṅ"); ("Ṇ", "ṇ"); ("Ṉ", "ṉ"); ("Ṋ", "ṋ"); ("Ṍ", "ṍ");
    ("Ṏ", "ṏ"); ("Ṑ", "ṑ"); ("Ṓ", "ṓ"); ("Ṕ", "ṕ"); ("Ṗ", "ṗ"); ("Ṙ", "ṙ");
    ("Ṛ", "ṛ"); ("Ṝ", "ṝ"); ("Ṟ", "ṟ"); ("Ṡ", "ṡ"); ("Ṣ", "ṣ"); ("Ṥ", "ṥ");
    ("Ṧ", "ṧ"); ("Ṩ", "ṩ"); ("Ṫ", "ṫ"); ("Ṭ", "ṭ"); ("Ṯ", "ṯ"); ("Ṱ", "ṱ");
    ("Ṳ", "ṳ"); ("Ṵ", "ṵ"); ("Ṷ", "ṷ"); ("Ṹ", "ṹ"); ("Ṻ", "ṻ"); ("Ṽ", "ṽ");
    ("Ṿ", "ṿ"); ("Ẁ", "ẁ"); ("Ẃ", "ẃ"); ("Ẅ", "ẅ"); ("Ẇ", "ẇ"); ("Ẉ", "ẉ");
    ("Ẋ", "ẋ"); ("Ẍ", "ẍ"); ("Ẏ", "ẏ"); ("Ẑ", "ẑ"); ("Ẓ", "ẓ"); ("Ẕ", "ẕ");
    ("ẞ", "ß"); ("Ạ", "ạ"); ("Ả", "ả"); ("Ấ", "ấ"); ("Ầ", "ầ"); ("Ẩ", "ẩ");
    ("Ẫ", "ẫ"); ("Ậ", "ậ"); ("Ắ", "ắ"); ("Ằ", "ằ"); ("Ẳ", "ẳ"); ("Ẵ", "ẵ");
    ("Ặ", "ặ"); ("Ẹ", "ẹ"); ("Ẻ", "ẻ"); ("Ẽ", "ẽ"); ("Ế", "ế"); ("Ề", "ề");
    ("Ể", "ể"); ("Ễ", "ễ"); ("Ệ", "ệ"); ("Ỉ", "ỉ"); ("Ị", "ị"); ("Ọ", "ọ");
    ("Ỏ", "ỏ"); ("Ố", "ố"); ("Ồ", "ồ"); ("Ổ", "ổ"); ("Ỗ", "ỗ"); ("Ộ", "ộ");
    ("Ớ", "ớ"); ("Ờ", "ờ"); ("Ở", "ở"); ("Ỡ", "ỡ"); ("Ợ", "ợ"); ("Ụ", "ụ");
    ("Ủ", "ủ"); ("Ứ", "ứ"); ("Ừ", "ừ"); ("Ử", "ử"); ("Ữ", "ữ"); ("Ự", "ự");
    ("Ỳ", "ỳ"); ("Ỵ", "ỵ"); ("Ỷ", "ỷ"); ("Ỹ", "ỹ"); ("Ỻ", "ỻ"); ("Ỽ", "ỽ");
    ("Ỿ", "ỿ"); ("Ἀ", "ἀ"); ("Ἁ", "ἁ"); ("Ἂ", "ἂ"); ("Ἃ", "ἃ"); ("Ἄ", "ἄ");
    ("Ἅ", "ἅ"); ("Ἆ", "ἆ"); ("Ἇ", "ἇ"); ("Ἐ", "ἐ"); ("Ἑ", "ἑ"); ("Ἒ", "ἒ");
    ("Ἓ", "ἓ"); ("Ἔ", "ἔ"); ("Ἕ", "ἕ"); ("Ἠ", "ἠ"); ("Ἡ", "ἡ"); ("Ἢ", "ἢ");
    ("Ἣ", "ἣ"); ("Ἤ", "ἤ"); ("Ἥ", "ἥ"); ("Ἦ", "ἦ"); ("Ἧ", "ἧ"); ("Ἰ", "ἰ");
    ("Ἱ", "ἱ"); ("Ἲ", "ἲ"); ("Ἳ", "ἳ"); ("Ἴ", "ἴ"); ("Ἵ", "ἵ"); ("Ἶ", "ἶ");
    ("Ἷ", "ἷ"); ("Ὀ", "ὀ"); ("Ὁ", "ὁ"); ("Ὂ", "ὂ"); ("Ὃ", "ὃ"); ("Ὄ", "ὄ");
    ("Ὅ", "ὅ"); ("Ὑ", "ὑ"); ("Ὓ", "ὓ"); ("Ὕ", "ὕ"); ("Ὗ", "ὗ"); ("Ὠ", "ὠ");
    ("Ὡ", "ὡ"); ("Ὢ", "ὢ"); ("Ὣ", "ὣ"); ("Ὤ", "ὤ"); ("Ὥ", "ὥ"); ("Ὦ", "ὦ");
    ("Ὧ", "ὧ"); ("ᾈ", "ᾀ"); ("ᾉ", "ᾁ"); ("ᾊ", "ᾂ"); ("ᾋ", "ᾃ"); ("ᾌ", "ᾄ");
    ("ᾍ", "ᾅ"); ("ᾎ", "ᾆ"); ("ᾏ", "ᾇ"); ("ᾘ", "ᾐ"); ("ᾙ", "ᾑ"); ("ᾚ", "ᾒ");
    ("ᾛ", "ᾓ"); ("ᾜ", "ᾔ"); ("ᾝ", "ᾕ"); ("ᾞ", "ᾖ"); ("ᾟ", "ᾗ"); ("ᾨ", "ᾠ");
    ("ᾩ", "ᾡ"); ("ᾪ", "ᾢ"); ("ᾫ", "ᾣ"); ("ᾬ", "ᾤ"); ("ᾭ", "ᾥ"); ("ᾮ", "ᾦ");
    ("ᾯ", "ᾧ"); ("Ᾰ", "ᾰ"); ("Ᾱ", "ᾱ"); ("Ὰ", "ὰ"); ("Ά", "ά"); ("ᾼ", "ᾳ");
    ("Ὲ", "ὲ"); ("Έ", "έ"); ("Ὴ", "ὴ"); ("Ή", "ή"); ("ῌ", "ῃ"); ("Ῐ", "ῐ");
    ("Ῑ", "ῑ"); ("Ὶ", "ὶ"); ("Ί", "ί"); ("Ῠ", "ῠ"); ("Ῡ", "ῡ"); ("Ὺ", "ὺ");
    ("Ύ", "ύ"); ("Ῥ", "ῥ"); ("Ὸ", "ὸ"); ("Ό", "ό"); ("Ὼ", "ὼ"); ("Ώ", "ώ");
    ("ῼ", "ῳ"); ("Ω", "ω"); ("K", "k"); ("Å", "å"); ("Ⅎ", "ⅎ"); ("Ⅰ", "ⅰ");
    ("Ⅱ", "ⅱ"); ("Ⅲ", "ⅲ"); ("Ⅳ", "ⅳ"); ("Ⅴ", "ⅴ"); ("Ⅵ", "ⅵ"); ("Ⅶ", "ⅶ");
    ("Ⅷ", "ⅷ"); ("Ⅸ", "ⅸ"); ("Ⅹ", "ⅹ"); ("Ⅺ", "ⅺ"); ("Ⅻ", "ⅻ"); ("Ⅼ", "ⅼ");
    ("Ⅽ", "ⅽ"); ("Ⅾ", "ⅾ"); ("Ⅿ", "ⅿ"); ("Ↄ", "ↄ"); ("Ⓐ", "ⓐ"); ("Ⓑ", "ⓑ");
    ("Ⓒ", "ⓒ"); ("Ⓓ", "ⓓ"); ("Ⓔ", "ⓔ"); ("Ⓕ", "ⓕ"); ("Ⓖ", "ⓖ"); ("Ⓗ", "ⓗ");
    ("Ⓘ", "ⓘ"); ("Ⓙ", "ⓙ"); ("Ⓚ", "ⓚ"); ("Ⓛ", "ⓛ"); ("Ⓜ", "ⓜ"); ("Ⓝ", "ⓝ");
    ("Ⓞ", "ⓞ"); ("Ⓟ", "ⓟ"); ("Ⓠ", "ⓠ"); ("Ⓡ", "ⓡ"); ("Ⓢ", "ⓢ"); ("Ⓣ", "ⓣ");
    ("Ⓤ", "ⓤ"); ("Ⓥ", "ⓥ"); ("Ⓦ", "ⓦ"); ("Ⓧ", "ⓧ"); ("Ⓨ", "ⓨ"); ("Ⓩ", "ⓩ");
    ("Ⰰ", "ⰰ"); ("Ⰱ", "ⰱ"); ("Ⰲ", "ⰲ"); ("Ⰳ", "ⰳ"); ("Ⰴ", "ⰴ"); ("Ⰵ", "ⰵ");
    ("Ⰶ", "ⰶ"); ("Ⰷ", "ⰷ"); ("Ⰸ", "ⰸ"); ("Ⰹ", "ⰹ"); ("Ⰺ", "ⰺ"); ("Ⰻ", "ⰻ");
    ("Ⰼ", "ⰼ"); ("Ⰽ", "ⰽ"); ("Ⰾ", "ⰾ"); ("Ⰿ", "ⰿ"); ("Ⱀ", "ⱀ"); ("Ⱁ", "ⱁ");
    ("Ⱂ", "ⱂ"); ("Ⱃ", "ⱃ"); ("Ⱄ", "ⱄ"); ("Ⱅ", "ⱅ"); ("Ⱆ", "ⱆ"); ("Ⱇ", "ⱇ");
    ("Ⱈ", "ⱈ"); ("Ⱉ", "ⱉ"); ("Ⱊ", "ⱊ"); ("Ⱋ", "ⱋ"); ("Ⱌ", "ⱌ"); ("Ⱍ", "ⱍ");
    ("Ⱎ", "ⱎ"); ("Ⱏ", "ⱏ"); ("Ⱐ", "ⱐ"); ("Ⱑ", "ⱑ"); ("Ⱒ", "ⱒ"); ("Ⱓ", "ⱓ");
    ("Ⱔ", "ⱔ"); ("Ⱕ", "ⱕ"); ("Ⱖ", "ⱖ"); ("Ⱗ", "ⱗ"); ("Ⱘ", "ⱘ"); ("Ⱙ", "ⱙ");
    ("Ⱚ", "ⱚ"); ("Ⱛ", "ⱛ"); ("Ⱜ", "ⱜ"); ("Ⱝ", "ⱝ"); ("Ⱞ", "ⱞ"); ("Ⱟ", "ⱟ");
    ("Ⱡ", "ⱡ"); ("Ɫ", "ɫ"); ("Ᵽ", "ᵽ"); ("Ɽ", "ɽ"); ("Ⱨ", "ⱨ"); ("Ⱪ", "ⱪ");
    ("Ⱬ", "ⱬ"); ("Ɑ", "ɑ"); ("Ɱ", "ɱ"); ("Ɐ", "ɐ"); ("Ɒ", "ɒ"); ("Ⱳ", "ⱳ");
    ("Ⱶ", "ⱶ"); ("Ȿ", "ȿ"); ("Ɀ", "ɀ"); ("Ⲁ", "ⲁ"); ("Ⲃ", "ⲃ"); ("Ⲅ", "ⲅ");
    ("Ⲇ", "ⲇ"); ("Ⲉ", "ⲉ"); ("Ⲋ", "ⲋ"); ("Ⲍ", "ⲍ"); ("Ⲏ", "ⲏ"); ("Ⲑ", "ⲑ");
    ("Ⲓ", "ⲓ"); ("Ⲕ", "ⲕ"); ("Ⲗ", "ⲗ"); ("Ⲙ", "ⲙ"); ("Ⲛ", "ⲛ"); ("Ⲝ", "ⲝ");
    ("Ⲟ", "ⲟ"); ("Ⲡ", "ⲡ"); ("Ⲣ", "ⲣ"); ("Ⲥ", "ⲥ"); ("Ⲧ", "ⲧ"); ("Ⲩ", "ⲩ");
    ("Ⲫ", "ⲫ"); ("Ⲭ", "ⲭ"); ("Ⲯ", "ⲯ"); ("Ⲱ", "ⲱ"); ("Ⲳ", "ⲳ"); ("Ⲵ", "ⲵ");
    ("Ⲷ", "ⲷ"); ("Ⲹ", "ⲹ"); ("Ⲻ", "ⲻ"); ("Ⲽ", "ⲽ"); ("Ⲿ", "ⲿ"); ("Ⳁ", "ⳁ");
    ("Ⳃ", "ⳃ"); ("Ⳅ", "ⳅ"); ("Ⳇ", "ⳇ"); ("Ⳉ", "ⳉ"); ("Ⳋ", "ⳋ"); ("Ⳍ", "ⳍ");
    ("Ⳏ", "ⳏ"); ("Ⳑ", "ⳑ"); ("Ⳓ", "ⳓ"); ("Ⳕ", "ⳕ"); ("Ⳗ", "ⳗ"); ("Ⳙ", "ⳙ");
    ("Ⳛ", "ⳛ"); ("Ⳝ", "ⳝ"); ("Ⳟ", "ⳟ"); ("Ⳡ", "ⳡ"); ("Ⳣ", "ⳣ"); ("Ⳬ", "ⳬ");
    ("Ⳮ", "ⳮ"); ("Ⳳ", "ⳳ"); ("Ꙁ", "ꙁ"); ("Ꙃ", "ꙃ"); ("Ꙅ", "ꙅ"); ("Ꙇ", "ꙇ");
    ("Ꙉ", "ꙉ"); ("Ꙋ", "ꙋ"); ("Ꙍ", "ꙍ"); ("Ꙏ", "ꙏ"); ("Ꙑ", "ꙑ"); ("Ꙓ", "ꙓ");
    ("Ꙕ", "ꙕ"); ("Ꙗ", "ꙗ"); ("Ꙙ", "ꙙ"); ("Ꙛ", "ꙛ"); ("Ꙝ", "ꙝ"); ("Ꙟ", "ꙟ");
    ("Ꙡ", "ꙡ"); ("Ꙣ", "ꙣ"); ("Ꙥ", "ꙥ"); ("Ꙧ", "ꙧ"); ("Ꙩ", "ꙩ"); ("Ꙫ", "ꙫ");
    ("Ꙭ", "ꙭ"); ("Ꚁ", "ꚁ"); ("Ꚃ", "ꚃ"); ("Ꚅ", "ꚅ"); ("Ꚇ", "ꚇ"); ("Ꚉ", "ꚉ");
    ("Ꚋ", "ꚋ"); ("Ꚍ", "ꚍ"); ("Ꚏ", "ꚏ"); ("Ꚑ", "ꚑ"); ("Ꚓ", "ꚓ"); ("Ꚕ", "ꚕ");
    ("Ꚗ", "ꚗ"); ("Ꚙ", "ꚙ"); ("Ꚛ", "ꚛ"); ("Ꜣ", "ꜣ"); ("Ꜥ", "ꜥ"); ("Ꜧ", "ꜧ");
    ("Ꜩ", "ꜩ"); ("Ꜫ", "ꜫ"); ("Ꜭ", "ꜭ"); ("Ꜯ", "ꜯ"); ("Ꜳ", "ꜳ"); ("Ꜵ", "ꜵ");
    ("Ꜷ", "ꜷ"); ("Ꜹ", "ꜹ"); ("Ꜻ", "ꜻ"); ("Ꜽ", "ꜽ"); ("Ꜿ", "ꜿ"); ("Ꝁ", "ꝁ");
    ("Ꝃ", "ꝃ"); ("Ꝅ", "ꝅ"); ("Ꝇ", "ꝇ"); ("Ꝉ", "ꝉ"); ("Ꝋ", "ꝋ"); ("Ꝍ", "ꝍ");
    ("Ꝏ", "ꝏ"); ("Ꝑ", "ꝑ"); ("Ꝓ", "ꝓ"); ("Ꝕ", "ꝕ"); ("Ꝗ", "ꝗ"); ("Ꝙ", "ꝙ");
    ("Ꝛ", "ꝛ"); ("Ꝝ", "ꝝ"); ("Ꝟ", "ꝟ"); ("Ꝡ", "ꝡ"); ("Ꝣ", "ꝣ"); ("Ꝥ", "ꝥ");
    ("Ꝧ", "ꝧ"); ("Ꝩ", "ꝩ"); ("Ꝫ", "ꝫ"); ("Ꝭ", "ꝭ"); ("Ꝯ", "ꝯ"); ("Ꝺ", "ꝺ");
    ("Ꝼ", "ꝼ"); ("Ᵹ", "ᵹ"); ("Ꝿ", "ꝿ"); ("Ꞁ", "ꞁ"); ("Ꞃ", "ꞃ"); ("Ꞅ", "ꞅ");
    ("Ꞇ", "ꞇ"); ("Ꞌ", "ꞌ"); ("Ɥ", "ɥ"); ("Ꞑ", "ꞑ"); ("Ꞓ", "ꞓ"); ("Ꞗ", "ꞗ");
    ("Ꞙ", "ꞙ"); ("Ꞛ", "ꞛ"); ("Ꞝ", "ꞝ"); ("Ꞟ", "ꞟ"); ("Ꞡ", "ꞡ"); ("Ꞣ", "ꞣ");
    ("Ꞥ", "ꞥ"); ("Ꞧ", "ꞧ"); ("Ꞩ", "ꞩ"); ("Ɦ", "ɦ"); ("Ɜ", "ɜ"); ("Ɡ", "ɡ");
    ("Ɬ", "ɬ"); ("Ɪ", "ɪ"); ("Ʞ", "ʞ"); ("Ʇ", "ʇ"); ("Ʝ", "ʝ"); ("Ꭓ", "ꭓ");
    ("Ꞵ", "ꞵ"); ("Ꞷ", "ꞷ"); ("Ꞹ", "ꞹ"); ("Ꞻ", "ꞻ"); ("Ꞽ", "ꞽ"); ("Ꞿ", "ꞿ");
    ("Ꟁ", "ꟁ"); ("Ꟃ", "ꟃ"); ("Ꞔ", "ꞔ"); ("Ʂ", "ʂ"); ("Ᶎ", "ᶎ"); ("Ꟈ", "ꟈ");
    ("Ꟊ", "ꟊ"); ("Ꟑ", "ꟑ"); ("Ꟗ", "ꟗ"); ("Ꟙ", "ꟙ"); ("Ꟶ", "ꟶ"); ("Ａ", "ａ");
    ("Ｂ", "ｂ"); ("Ｃ", "ｃ"); ("Ｄ", "ｄ"); ("Ｅ", "ｅ"); ("Ｆ", "ｆ"); ("Ｇ", "ｇ");
    ("Ｈ", "ｈ"); ("Ｉ", "ｉ"); ("Ｊ", "ｊ"); ("Ｋ", "ｋ"); ("Ｌ", "ｌ"); ("Ｍ", "ｍ");
    ("Ｎ", "ｎ"); ("Ｏ", "ｏ"); ("Ｐ", "ｐ"); ("Ｑ", "ｑ"); ("Ｒ", "ｒ"); ("Ｓ", "ｓ");
    ("Ｔ", "ｔ"); ("Ｕ", "ｕ"); ("Ｖ", "ｖ"); ("Ｗ", "ｗ"); ("Ｘ", "ｘ"); ("Ｙ", "ｙ");
    ("Ｚ", "ｚ"); ("𐐀", "𐐨"); ("𐐁", "𐐩"); ("𐐂", "𐐪"); ("𐐃", "𐐫"); ("𐐄", "𐐬");
    ("𐐅", "𐐭"); ("𐐆", "𐐮"); ("𐐇", "𐐯"); ("𐐈", "𐐰"); ("𐐉", "𐐱"); ("𐐊", "𐐲");
    ("𐐋", "𐐳"); ("𐐌", "𐐴"); ("𐐍", "𐐵"); ("𐐎", "𐐶"); ("𐐏", "𐐷"); ("𐐐", "𐐸");
    ("𐐑", "𐐹"); ("𐐒", "𐐺"); ("𐐓", "𐐻"); ("𐐔", "𐐼"); ("𐐕", "𐐽"); ("𐐖", "𐐾");
    ("𐐗", "𐐿"); ("𐐘", "𐑀"); ("𐐙", "𐑁"); ("𐐚", "𐑂"); ("𐐛", "𐑃"); ("𐐜", "𐑄");
    ("𐐝", "𐑅"); ("𐐞", "𐑆"); ("𐐟", "𐑇"); ("𐐠", "𐑈"); ("𐐡", "𐑉"); ("𐐢", "𐑊");
    ("𐐣", "𐑋"); ("𐐤", "𐑌"); ("𐐥", "𐑍"); ("𐐦", "𐑎"); ("𐐧", "𐑏"); ("𐒰", "𐓘");
    ("𐒱", "𐓙"); ("𐒲", "𐓚"); ("𐒳", "𐓛"); ("𐒴", "𐓜"); ("𐒵", "𐓝"); ("𐒶", "𐓞");
    ("𐒷", "𐓟"); ("𐒸", "𐓠"); ("𐒹", "𐓡"); ("𐒺", "𐓢"); ("𐒻", "𐓣"); ("𐒼", "𐓤");
    ("𐒽", "𐓥"); ("𐒾", "𐓦"); ("𐒿", "𐓧"); ("𐓀", "𐓨"); ("𐓁", "𐓩"); ("𐓂", "𐓪");
    ("𐓃", "𐓫"); ("𐓄", "𐓬"); ("𐓅", "𐓭"); ("𐓆", "𐓮"); ("𐓇", "𐓯"); ("𐓈", "𐓰");
    ("𐓉", "𐓱"); ("𐓊", "𐓲"); ("𐓋", "𐓳"); ("𐓌", "𐓴"); ("𐓍", "𐓵"); ("𐓎", "𐓶");
    ("𐓏", "𐓷"); ("𐓐", "𐓸"); ("𐓑", "𐓹"); ("𐓒", "𐓺"); ("𐓓", "𐓻"); ("𐕰", "𐖗");
    ("𐕱", "𐖘"); ("𐕲", "𐖙"); ("𐕳", "𐖚"); ("𐕴", "𐖛"); ("𐕵", "𐖜"); ("𐕶", "𐖝");
    ("𐕷", "𐖞"); ("𐕸", "𐖟"); ("𐕹", "𐖠"); ("𐕺", "𐖡"); ("𐕼", "𐖣"); ("𐕽", "𐖤");
    ("𐕾", "𐖥"); ("𐕿", "𐖦"); ("𐖀", "𐖧"); ("𐖁", "𐖨"); ("𐖂", "𐖩"); ("𐖃", "𐖪");
    ("𐖄", "𐖫"); ("𐖅", "𐖬"); ("𐖆", "𐖭"); ("𐖇", "𐖮"); ("𐖈", "𐖯"); ("𐖉", "𐖰");
    ("𐖊", "𐖱"); ("𐖌", "𐖳"); ("𐖍", "𐖴"); ("𐖎", "𐖵"); ("𐖏", "𐖶"); ("𐖐", "𐖷");
    ("𐖑", "𐖸"); ("𐖒", "𐖹"); ("𐖔", "𐖻"); ("𐖕", "𐖼"); ("𐲀", "𐳀"); ("𐲁", "𐳁");
    ("𐲂", "𐳂"); ("𐲃", "𐳃"); ("𐲄", "𐳄"); ("𐲅", "𐳅"); ("𐲆", "𐳆"); ("𐲇", "𐳇");
    ("𐲈", "𐳈"); ("𐲉", "𐳉"); ("𐲊", "𐳊"); ("𐲋", "𐳋"); ("𐲌", "𐳌"); ("𐲍", "𐳍");
    ("𐲎", "𐳎"); ("𐲏", "𐳏"); ("𐲐", "𐳐"); ("𐲑", "𐳑"); ("𐲒", "𐳒"); ("𐲓", "𐳓");
    ("𐲔", "𐳔"); ("𐲕", "𐳕"); ("𐲖", "𐳖"); ("𐲗", "𐳗"); ("𐲘", "𐳘"); ("𐲙", "𐳙");
    ("𐲚", "𐳚"); ("𐲛", "𐳛"); ("𐲜", "𐳜"); ("𐲝", "𐳝"); ("𐲞", "𐳞"); ("𐲟", "𐳟");
    ("𐲠", "𐳠"); ("𐲡", "𐳡"); ("𐲢", "𐳢"); ("𐲣", "𐳣"); ("𐲤", "𐳤"); ("𐲥", "𐳥");
    ("𐲦", "𐳦"); ("𐲧", "𐳧"); ("𐲨", "𐳨"); ("𐲩", "𐳩"); ("𐲪", "𐳪"); ("𐲫", "𐳫");
    ("𐲬", "𐳬"); ("𐲭", "𐳭"); ("𐲮", "𐳮"); ("𐲯", "𐳯"); ("𐲰", "𐳰"); ("𐲱", "𐳱");
    ("𐲲", "𐳲"); ("𑢠", "𑣀"); ("𑢡", "𑣁"); ("𑢢", "𑣂"); ("𑢣", "𑣃"); ("𑢤", "𑣄");
    ("𑢥", "𑣅"); ("𑢦", "𑣆"); ("𑢧", "𑣇"); ("𑢨", "𑣈"); ("𑢩", "𑣉"); ("𑢪", "𑣊");
    ("𑢫", "𑣋"); ("𑢬", "𑣌"); ("𑢭", "𑣍"); ("𑢮", "𑣎"); ("𑢯", "𑣏"); ("𑢰", "𑣐");
    ("𑢱", "𑣑"); ("𑢲", "𑣒"); ("𑢳", "𑣓"); ("𑢴", "𑣔"); ("𑢵", "𑣕"); ("𑢶", "𑣖");
    ("𑢷", "𑣗"); ("𑢸", "𑣘"); ("𑢹", "𑣙"); ("𑢺", "𑣚"); ("𑢻", "𑣛"); ("𑢼", "𑣜");
    ("𑢽", "𑣝"); ("𑢾", "𑣞"); ("𑢿", "𑣟"); ("𖹀", "𖹠"); ("𖹁", "𖹡"); ("𖹂", "𖹢");
    ("𖹃", "𖹣"); ("𖹄", "𖹤"); ("𖹅", "𖹥"); ("𖹆", "𖹦"); ("𖹇", "𖹧"); ("𖹈", "𖹨");
    ("𖹉", "𖹩"); ("𖹊", "𖹪"); ("𖹋", "𖹫"); ("𖹌", "𖹬"); ("𖹍", "𖹭"); ("𖹎", "𖹮");
    ("𖹏", "𖹯"); ("𖹐", "𖹰"); ("𖹑", "𖹱"); ("𖹒", "𖹲"); ("𖹓", "𖹳"); ("𖹔", "𖹴");
    ("𖹕", "𖹵"); ("𖹖", "𖹶"); ("𖹗", "𖹷"); ("𖹘", "𖹸"); ("𖹙", "𖹹"); ("𖹚", "𖹺");
    ("𖹛", "𖹻"); ("𖹜", "𖹼"); ("𖹝", "𖹽"); ("𖹞", "𖹾"); ("𖹟", "𖹿"); ("𞤀", "𞤢");
    ("𞤁", "𞤣"); ("𞤂", "𞤤"); ("𞤃", "𞤥"); ("𞤄", "𞤦"); ("𞤅", "𞤧"); ("𞤆", "𞤨");
    ("𞤇", "𞤩"); ("𞤈", "𞤪"); ("𞤉", "𞤫"); ("𞤊", "𞤬"); ("𞤋", "𞤭"); ("𞤌", "𞤮");
    ("𞤍", "𞤯"); ("𞤎", "𞤰"); ("𞤏", "𞤱"); ("𞤐", "𞤲"); ("𞤑", "𞤳"); ("𞤒", "𞤴");
    ("𞤓", "𞤵"); ("𞤔", "𞤶"); ("𞤕", "𞤷"); ("𞤖", "𞤸"); ("𞤗", "𞤹"); ("𞤘", "𞤺");
    ("𞤙", "𞤻"); ("𞤚", "𞤼"); ("𞤛", "𞤽"); ("𞤜", "𞤾"); ("𞤝", "𞤿"); ("𞤞", "𞥀");
    ("𞤟", "𞥁"); ("𞤠", "𞥂"); ("𞤡", "𞥃")
  ].

End Unicode.

(* ================================================================== *)
(** * JavaScript strings *)

Module JsString.

Definition code (c : ascii) : nat := nat_of_ascii c.

Definition is_lower (c : ascii) : bool := ((97 <=? code c) && (code c <=? 122))%nat.
Definition is_upper (c : ascii) : bool := ((65 <=? code c) && (code c <=? 90))%nat.

Definition upper_char (c : ascii) : ascii :=
  if is_lower c then ascii_of_nat (code c - 32) else c.
Definition lower_char (c : ascii) : ascii :=
  if is_upper c then ascii_of_nat (code c + 32) else c.

(** A byte that continues a character. *)
Definition is_continuation (c : ascii) : bool :=
  ((128 <=? code c) && (code c <=? 191))%nat.

(** How many bytes follow the first byte of a character. *)
Definition followers (c : ascii) : nat :=
  let n := code c in
  if (n <? 192)%nat then 0
  else if (n <? 224)%nat then 1
  else if (n <? 240)%nat then 2
  else if (n <? 248)%nat then 3
  else 0.

(** The image of one character outside ASCII: itself unless the table
    lists it. *)
Fixpoint image (table : list (string * string)) (ch : string) : string :=
  match table with
  | [] => ch
  | (k, v) :: rest => if k =? ch then v else image rest ch
  end.

(** Case conversion, character by character. [pending] holds the bytes
    read so far of a character of which [need] bytes are still to come; a
    sequence of bytes that is no character is left as it is. *)
Fixpoint convert (letter : ascii -> ascii) (table : list (string * string))
         (pending : string) (need : nat) (s : string) : string :=
  match s with
  | EmptyString => pending
  | String c r =>
      match need, is_continuation c with
      | S O, true =>
          image table (pending ++ String c EmptyString) ++ convert letter table "" 0 r
      | S n, true => convert letter table (pending ++ String c EmptyString) n r
      | _, _ =>
          pending ++
          (if (code c <? 128)%nat then String (letter c) (convert letter table "" 0 r)
           else match followers c with
                | O => String c (convert letter table "" 0 r)
                | n => convert letter table (String c EmptyString) n r
                end)
      end
  end.

(** [s.toUpperCase()] *)
Definition toUpperCase (s : string) : string := convert upper_char Unicode.to_upper "" 0 s.

(** [s.toLowerCase()]. The one rule of lower-casing that looks at the
    neighbours of a character, Final_Sigma (a capital sigma at the end of a
    word becomes the final form of the small one), is not applied: either
    small sigma is a character that none of the names the code compares
    with contains. *)
Definition toLowerCase (s : string) : string := convert lower_char Unicode.to_lower "" 0 s.

(** White space and line terminators of one byte: TAB, LF, VT, FF, CR, SP. *)
Definition space1 (a : ascii) : bool :=
  let n := code a in
  (((9 <=? n) && (n <=? 13)) || (n =? 32))%nat.

(** Of two bytes: U+00A0. *)
Definition space2 (a b : ascii) : bool :=
  ((code a =? 194) && (code b =? 160))%nat.

(** Of three bytes: U+1680, U+2000 to U+200A, U+2028, U+2029, U+202F,
    U+205F, U+3000 and U+FEFF. *)
Definition space3 (a b c : ascii) : bool :=
  let x := code a in
  let y := code b in
  let z := code c in
  (((x =? 225) && (y =? 154) && (z =? 128))
   || ((x =? 226) && (y =? 128) &&
       (((128 <=? z) && (z <=? 138)) || (z =? 168) || (z =? 169) || (z =? 175)))
   || ((x =? 226) && (y =? 129) && (z =? 159))
   || ((x =? 227) && (y =? 128) && (z =? 128))
   || ((x =? 239) && (y =? 187) && (z =? 191)))%nat.

(** Drops the white space [s] starts with; with [backwards], [s] is read
    from its end, each character's bytes last to first. *)
Fixpoint strip (backwards : bool) (s : string) : string :=
  match s with
  | EmptyString => EmptyString
  | String a r =>
      if space1 a then strip backwards r
      else
        match r with
        | EmptyString => s
        | String b r' =>
            if (if backwards then space2 b a else space2 a b) then strip backwards r'
            else
              match r' with
              | EmptyString => s
              | String c r'' =>
                  if (if backwards then space3 c b a else space3 a b c)
                  then strip backwards r''
                  else s
              end
        end
  end.

Fixpoint reverse_onto (s acc : string) : string :=
  match s with
  | EmptyString => acc
  | String c r => reverse_onto r (String c acc)
  end.

Definition reverse (s : string) : string := reverse_onto s EmptyString.

Definition trimStart (s : string) : string := strip false s.
Definition trimEnd (s : string) : string := reverse (strip true (reverse s)).

(** [s.trim()] *)
Definition trim (s : string) : string := trimEnd (trimStart s).

(** Number of positions of [s] at which [sub] starts. *)
Fixpoint occurrences (sub s : string) : nat :=
  ((if prefix sub s then 1 else 0) +
   match s with
   | EmptyString => 0
   | String _ r => occurrences sub r
   end)%nat.

(** [s.includes(sub)] *)
Definition includes (sub s : string) : bool := (0 <? occurrences sub s)%nat.

(** [parts.join(sep)] *)
Definition join (sep : string) (parts : list string) : string := String.concat sep parts.

(** A string is falsy exactly when it is empty. *)
Definition truthy (s : string) : bool := negb (s =? "").

Definition dquote : string := String (ascii_of_nat 34) EmptyString.

Fixpoint has_lower (s : string) : bool :=
  match s with
  | EmptyString => false
  | String c r => is_lower c || has_lower r
  end.

(** A table whose images have no lower-case ASCII letter. *)
Definition upper_images (table : list (string * string)) : bool :=
  forallb (fun e => negb (has_lower (snd e))) table.

End JsString.
Import JsString.

(* ================================================================== *)
(** * Category model *)

(** [type EmailLabel = 'TO_REPLY' | ... | 'COLD_EMAIL'] *)
Inductive EmailLabel : Type :=
| TO_REPLY | AWAITING_REPLY | FYI | ACTIONED | NEWSLETTER
| MARKETING | CALENDAR | RECEIPT | NOTIFICATION | COLD_EMAIL.

(** The string literal each member of the union stands for. *)
Definition label_literal (l : EmailLabel) : string :=
  match l with
  | TO_REPLY => "TO_REPLY"
  | AWAITING_REPLY => "AWAITING_REPLY"
  | FYI => "FYI"
  | ACTIONED => "ACTIONED"
  | NEWSLETTER => "NEWSLETTER"
  | MARKETING => "MARKETING"
  | CALENDAR => "CALENDAR"
  | RECEIPT => "RECEIPT"
  | NOTIFICATION => "NOTIFICATION"
  | COLD_EMAIL => "COLD_EMAIL"
  end.

Definition all_EmailLabels : list EmailLabel :=
  [TO_REPLY; AWAITING_REPLY; FYI; ACTIONED; NEWSLETTER;
   MARKETING; CALENDAR; RECEIPT; NOTIFICATION; COLD_EMAIL].

(** [const LABEL_MAP: Record<EmailLabel, string>], an object literal: its
    own properties in insertion order. *)
Definition LABEL_MAP : list (string * string) :=
  [ ("TO_REPLY", "To Reply");
    ("AWAITING_REPLY", "Awaiting Reply");
    ("FYI", "FYI");
    ("ACTIONED", "Actioned");
    ("NEWSLETTER", "Newsletter");
    ("MARKETING", "Marketing");
    ("CALENDAR", "Calendar");
    ("RECEIPT", "Receipt");
    ("NOTIFICATION", "Notification");
    ("COLD_EMAIL", "Cold Email") ].

Module JsObject.

(** What a property read on an object literal can produce. *)
Inductive value : Type :=
| VString (s : string)
| VInherited (name : string).

Fixpoint own (o : list (string * string)) (k : string) : option string :=
  match o with
  | [] => None
  | (k', v) :: o' => if k' =? k then Some v else own o' k
  end.

(** Property names every object literal inherits from [Object.prototype]. *)
Definition Object_prototype : list string :=
  [ "constructor"; "__defineGetter__"; "__defineSetter__"; "hasOwnProperty";
    "__lookupGetter__"; "__lookupSetter__"; "isPrototypeOf";
    "propertyIsEnumerable"; "toString"; "valueOf"; "__proto__";
    "toLocaleString" ].

Fixpoint mem (k : string) (ks : list string) : bool :=
  match ks with
  | [] => false
  | k' :: ks' => (k' =? k) || mem k ks'
  end.

(** [o[k]]: own properties first, then the prototype; [None] is [undefined]. *)
Definition get (o : list (string * string)) (k : string) : option value :=
  match own o k with
  | Some v => Some (VString v)
  | None => if mem k Object_prototype then Some (VInherited k) else None
  end.

(** [!!v] *)
Definition truthy (v : option value) : bool :=
  match v with
  | None => false
  | Some (VString s) => JsString.truthy s
  | Some (VInherited _) => true
  end.

(** [Object.values(o)] *)
Definition values (o : list (string * string)) : list string := map snd o.

(** A property key made from a possibly [undefined] string. *)
Definition key_of (k : option string) : string :=
  match k with
  | Some s => s
  | None => "undefined"
  end.

End JsObject.

(* ================================================================== *)
(** * Query construction ([fetchEmails], first part) *)

(** [Object.values(LABEL_MAP).map(label => `-label:"${label}"`).join(' ')] *)
Definition exclusion (label : string) : string :=
  "-label:" ++ dquote ++ label ++ dquote.

Definition excludeLabels : string :=
  join " " (map exclusion (JsObject.values LABEL_MAP)).

Definition baseQuery (section : string) : string :=
  if section =? "inbox"
  then "in:inbox " ++ excludeLabels
  else "-in:spam -in:trash " ++ excludeLabels.

(* ================================================================== *)
(** * Data model *)

(** [interface Email] *)
Module Email.
Record t : Type := make {
  id : string;
  threadId : string;
  subject : string;
  from : string;
  snippet : string;
  date : string;
  labelIds : list string
}.
End Email.

(** [{ id: string; name: string }], an entry of the provider's label list. *)
Module Label.
Record t : Type := make { id : string; name : string }.
End Label.

(** [interface ProcessingResult]: the success payload of the edge function
    and the batch result the dashboard receives. *)
Module ProcessingResult.
Record t : Type := make {
  total : Z;
  processed : Z;
  skipped : Z;
  errors : Z;
  results : list (Email.t * string);
  nextPageToken : option string
}.
End ProcessingResult.

(* ================================================================== *)
(** * HTTP: requests the code builds, responses it receives *)

Inductive json : Type :=
| JNum (n : Z)
| JStr (s : string)
| JArr (items : list json)
| JObj (fields : list (string * json)).

Module Json.
Fixpoint lookup (k : string) (fields : list (string * json)) : option json :=
  match fields with
  | [] => None
  | (k', v) :: rest => if k' =? k then Some v else lookup k rest
  end.

(** [body[k]] on a serialised object; [None] when the key is absent. *)
Definition field (k : string) (body : option json) : option json :=
  match body with
  | Some (JObj fields) => lookup k fields
  | _ => None
  end.

Definition items (j : option json) : list json :=
  match j with
  | Some (JArr l) => l
  | _ => []
  end.
End Json.

Module Http.

Record request : Type := mkRequest {
  method : string;                      (* "GET" when the code gives none *)
  url : string;
  headers : list (string * string);
  body : option json                    (* [JSON.stringify(...)] *)
}.

(** The call sites of [fetch] in the edge function. *)
Inductive endpoint : Type :=
| ListMessages | GetMessage | CreateCompletion
| ListLabels | CreateLabel | ModifyMessage.

(** What [response.json()] yields at each call site. *)
Record MessageList : Type := mkMessageList {
  messages : option (list string);      (* the [id] of each listed message *)
  nextPageToken : option string
}.

Record Header : Type := mkHeader { name : string; value : string }.

Record Detail : Type := mkDetail {
  id : string;
  threadId : string;
  snippet : option string;
  labelIds : option (list string);
  payload_headers : option (list Header)  (* [detail.payload?.headers] *)
}.

(** [data.content]: each block with its optional [text]. *)
Record Completion : Type := mkCompletion { content : list (option string) }.

Record LabelList : Type := mkLabelList { labels : option (list Label.t) }.

Definition body_of (e : endpoint) : Type :=
  match e with
  | ListMessages => MessageList
  | GetMessage => Detail
  | CreateCompletion => Completion
  | ListLabels => LabelList
  | CreateLabel => Label.t
  | ModifyMessage => unit
  end.

(** What one [await fetch(...)] and the reading of its response come to:
    [response.ok] with the body [response.json()] parses to, a response
    that is not [ok] with its [response.text()], or an exception thrown on
    the way, with its message: [fetch] rejects (the network is down, the
    connection is reset), or the body cannot be read (it is not JSON, or
    not an object of the shape the code reads). *)
Inductive response (B : Type) : Type :=
| Ok (data : B)
| NotOk (text : string)
| Fails (message : string).
Arguments NotOk {B} text.
Arguments Fails {B} message.

(** The call came back with [response.ok] and a body that could be read. *)
Definition ok {B} (r : response B) : bool :=
  match r with
  | Ok _ => true
  | NotOk _ => false
  | Fails _ => false
  end.

(** One issued call, as the provider saw it. *)
Record call : Type := mkCall {
  target : endpoint;
  sent : request;
  succeeded : bool
}.

Definition bearer (accessToken : string) : string * string :=
  ("Authorization", "Bearer " ++ accessToken).

Definition json_content : string * string := ("Content-Type", "application/json").

Definition GET (u accessToken : string) : request :=
  mkRequest "GET" u [bearer accessToken] None.

Definition POST (u : string) (hs : list (string * string)) (b : json) : request :=
  mkRequest "POST" u hs (Some b).

End Http.
Import Http.

(* ================================================================== *)
(** * [encodeURIComponent] *)

Module Uri.

Definition is_digit (c : ascii) : bool := ((48 <=? code c) && (code c <=? 57))%nat.

Definition is_mark (c : ascii) : bool :=
  JsObject.mem (String c EmptyString) ["-"; "_"; "."; "!"; "~"; "*"; "'"; "("; ")"].

Definition unreserved (c : ascii) : bool :=
  is_lower c || is_upper c || is_digit c || is_mark c.

Definition hex_digit (n : nat) : string :=
  substring n 1 "0123456789ABCDEF".

Definition percent (n : nat) : string :=
  "%" ++ hex_digit (n / 16) ++ hex_digit (n mod 16).

(** Every byte of a character that is not unreserved is escaped. *)
Definition encode_char (c : ascii) : string :=
  if unreserved c then String c EmptyString else percent (code c).

Fixpoint encodeURIComponent (s : string) : string :=
  match s with
  | EmptyString => EmptyString
  | String c r => encode_char c ++ encodeURIComponent r
  end.

End Uri.
Import Uri.

(* ================================================================== *)
(** * The edge function [process-emails] *)

Module ServeRequest.

(** The fields [serve] reads from the parsed body, at the types the
    dashboard sends them: a string, or absent. *)
Record Body : Type := mkBody {
  body_accessToken : option string;
  body_pageToken : option string;
  body_section : option string
}.

(** What [await req.json()] and the first read of a field of [body] give:
    the body, or the message of the exception thrown on the way (no body, a
    body that is not JSON, the body [null]). *)
Inductive Read : Type :=
| Parsed (body : Body)
| Unreadable (message : string).

(** [req.method] and the outcome of reading the body. *)
Record t : Type := mk {
  method : string;
  read : Read
}.

(** A request whose body can be read. *)
Definition make (method : string) (accessToken pageToken section : option string) : t :=
  mk method (Parsed (mkBody accessToken pageToken section)).

(** The fields destructured from the body, once it has been read. *)
Definition accessToken (req : t) : option string :=
  match read req with
  | Parsed body => body_accessToken body
  | Unreadable _ => None
  end.

Definition pageToken (req : t) : option string :=
  match read req with
  | Parsed body => body_pageToken body
  | Unreadable _ => None
  end.

Definition section (req : t) : option string :=
  match read req with
  | Parsed body => body_section body
  | Unreadable _ => None
  end.

End ServeRequest.

Inductive ServePayload : Type :=
| Success (r : ProcessingResult.t)
| Failure (error : string).

Inductive ServeResponse : Type :=
| Preflight                                   (* [new Response('ok', ...)] *)
| Json (status : nat) (payload : ServePayload).

Definition messages_url : string := "https://gmail.googleapis.com/gmail/v1/users/me/messages".
Definition labels_url : string := "https://gmail.googleapis.com/gmail/v1/users/me/labels".
Definition anthropic_url : string := "https://api.anthropic.com/v1/messages".

Definition nl : string := String (ascii_of_nat 10) EmptyString.

(** The template literal of [classifyEmail]. *)
Definition prompt (email : Email.t) : string :=
  "Classify this email into exactly ONE category. Reply with ONLY the category name, nothing else." ++ nl ++
  nl ++
  "Categories:" ++ nl ++
  "- TO_REPLY: Emails requiring my personal response (business inquiries, customer questions, important communications from known contacts)" ++ nl ++
  "- AWAITING_REPLY: Emails where I'm waiting for someone's response" ++ nl ++
  "- FYI: Important information I should know but don't need to respond to" ++ nl ++
  "- ACTIONED: Completed conversations with nothing left to do" ++ nl ++
  "- NEWSLETTER: Content from publications, blogs, or subscribed services" ++ nl ++
  "- MARKETING: Promotional emails about products, services, sales, or offers" ++ nl ++
  "- CALENDAR: Scheduling, meeting invites, or calendar notifications" ++ nl ++
  "- RECEIPT: Purchase confirmations, payment receipts, invoices, billing statements, order confirmations" ++ nl ++
  "- NOTIFICATION: System alerts, status updates, app notifications" ++ nl ++
  "- COLD_EMAIL: Unsolicited sales pitches, recruitment, partnership requests from unknown senders" ++ nl ++
  nl ++
  "Email:" ++ nl ++
  "From: " ++ Email.from email ++ nl ++
  "Subject: " ++ Email.subject email ++ nl ++
  "Preview: " ++ Email.snippet email ++ nl ++
  nl ++
  "Category:".

(** [x || ''] *)
Definition or_empty (x : option string) : string :=
  match x with
  | Some s => s
  | None => ""
  end.

(** [x || []] *)
Definition or_nil {A} (x : option (list A)) : list A :=
  match x with
  | Some l => l
  | None => []
  end.

(** [headers.find(h => h.name.toLowerCase() === name.toLowerCase())?.value || ''] *)
Definition getHeader (headers : list Header) (name : string) : string :=
  or_empty
    (option_map value
       (find (fun h => toLowerCase (Http.name h) =? toLowerCase name) headers)).

(** The object pushed onto [emails] for one hydrated message. *)
Definition email_of_detail (detail : Detail) : Email.t :=
  let headers := or_nil (payload_headers detail) in
  Email.make (Http.id detail) (Http.threadId detail)
             (getHeader headers "Subject") (getHeader headers "From")
             (or_empty (Http.snippet detail))
             (getHeader headers "Date")
             (or_nil (Http.labelIds detail)).

(** [data.content[0]?.text?.trim().toUpperCase()] *)
Definition classification_of (data : Completion) : option string :=
  match content data with
  | Some text :: _ => Some (toUpperCase (trim text))
  | _ => None
  end.

(** [if (!LABEL_MAP[classification]) return 'FYI'; return classification] *)
Definition validated (classification : option string) : string :=
  let key := JsObject.key_of classification in
  if negb (JsObject.truthy (JsObject.get LABEL_MAP key)) then "FYI" else key.

(** [getOurLabelNames] *)
Definition getOurLabelNames : list string := JsObject.values LABEL_MAP.

(** The [find] predicate of [getOrCreateLabel]. *)
Definition same_name (labelName : string) (l : Label.t) : bool :=
  toLowerCase (Label.name l) =? toLowerCase labelName.

Section EdgeFunction.

(** The outside world: whatever state the mail provider and the
    classification service have, and how they answer each call. *)
Variable W : Type.
Variable provider : forall e : endpoint, request -> W -> response (body_of e) * W.

(** [Deno.env.get('ANTHROPIC_API_KEY')] *)
Variable ANTHROPIC_API_KEY : option string.

(** The module variable [labelCache] lives as long as the process. *)
Record State : Type := mkState {
  world : W;
  labelCache : option (list Label.t)
}.

Inductive outcome (A : Type) : Type :=
| Return (a : A)
| Throw (message : string).
Arguments Throw {A} message.

Record Run (A : Type) : Type := mkRun {
  value : outcome A;
  final : State;
  issued : list call
}.

Definition M (A : Type) : Type := State -> Run A.

Definition ret {A} (a : A) : M A := fun st => mkRun (Return a) st [].
Definition throw {A} (message : string) : M A := fun st => mkRun (Throw message) st [].

Definition bind {A B} (m : M A) (k : A -> M B) : M B :=
  fun st =>
    let r := m st in
    match value r with
    | Return a =>
        let r' := k a (final r) in
        mkRun (value r') (final r') (issued r ++ issued r')%list
    | Throw message => mkRun (Throw message) (final r) (issued r)
    end.

(** [try { m } catch (err) { handler(err.message) }] *)
Definition try_catch {A} (m : M A) (handler : string -> M A) : M A :=
  fun st =>
    let r := m st in
    match value r with
    | Return a => r
    | Throw message =>
        let r' := handler message (final r) in
        mkRun (value r') (final r') (issued r ++ issued r')%list
    end.

Notation "x <- m ;; k" := (bind m (fun x => k))
  (at level 100, m at next level, right associativity).
Notation "m ;;; k" := (bind m (fun _ => k))
  (at level 100, right associativity).

(** [await fetch(...)] at call site [e], with the reading of the response
    that follows it; the caller rethrows what [Fails] carries. *)
Definition fetch (e : endpoint) (r : request) : M (response (body_of e)) :=
  fun st =>
    let (resp, w) := provider e r (world st) in
    mkRun (Return resp) (mkState w (labelCache st)) [mkCall e r (ok resp)].

Definition read_labelCache : M (option (list Label.t)) :=
  fun st => mkRun (Return (labelCache st)) st [].

Definition write_labelCache (c : option (list Label.t)) : M unit :=
  fun st => mkRun (Return tt) (mkState (world st) c) [].

(* ---------------------------------------------------------------- *)
(** ** [fetchEmails] *)

Definition list_url (section : string) (pageToken : option string) : string :=
  let u := messages_url ++ "?q=" ++ encodeURIComponent (baseQuery section)
                        ++ "&maxResults=50" in
  match pageToken with
  | Some t => if JsString.truthy t then u ++ "&pageToken=" ++ t else u
  | None => u
  end.

Definition detail_url (id : string) : string :=
  messages_url ++ "/" ++ id ++
  "?format=metadata&metadataHeaders=From&metadataHeaders=Subject&metadataHeaders=Date".

(** [for (const msg of messages) { ... }] with [emails] as accumulator. *)
Fixpoint hydrate (accessToken : string) (messages : list string)
         (emails : list Email.t) : M (list Email.t) :=
  match messages with
  | [] => ret emails
  | msg :: rest =>
      detailResponse <- fetch GetMessage (GET (detail_url msg) accessToken) ;;
      match detailResponse with
      | Fails message => throw message          (* outside any [try] of the loop *)
      | NotOk _ => hydrate accessToken rest emails                   (* continue *)
      | Ok detail => hydrate accessToken rest (emails ++ [email_of_detail detail])%list
      end
  end.

Definition fetchEmails (accessToken section : string) (pageToken : option string)
  : M (list Email.t * option string) :=
  listResponse <- fetch ListMessages (GET (list_url section pageToken) accessToken) ;;
  match listResponse with
  | Fails message => throw message
  | NotOk error => throw ("Failed to fetch emails: " ++ error)
  | Ok listData =>
      emails <- hydrate accessToken (or_nil (messages listData)) [] ;;
      ret (emails, Http.nextPageToken listData)
  end.

(* ---------------------------------------------------------------- *)
(** ** [classifyEmail] *)

Definition completion_request (apiKey : string) (email : Email.t) : request :=
  POST anthropic_url
       [json_content; ("x-api-key", apiKey); ("anthropic-version", "2023-06-01")]
       (JObj [ ("model", JStr "claude-3-haiku-20240307");
               ("max_tokens", JNum 20);
               ("messages", JArr [JObj [("role", JStr "user");
                                        ("content", JStr (prompt email))]]) ]).

Definition classifyEmail (email : Email.t) : M string :=
  match ANTHROPIC_API_KEY with
  | None => throw "ANTHROPIC_API_KEY not configured"
  | Some apiKey =>
      if negb (JsString.truthy apiKey) then throw "ANTHROPIC_API_KEY not configured"
      else
        response <- fetch CreateCompletion (completion_request apiKey email) ;;
        match response with
        | Fails message => throw message
        | NotOk error => throw ("Claude API error: " ++ error)
        | Ok data => ret (validated (classification_of data))
        end
  end.

(* ---------------------------------------------------------------- *)
(** ** The label resolver *)

Definition getAllLabels (accessToken : string) : M (list Label.t) :=
  cache <- read_labelCache ;;
  match cache with
  | Some cached => ret cached
  | None =>
      listResponse <- fetch ListLabels (GET labels_url accessToken) ;;
      match listResponse with
      | Fails message => throw message
      | NotOk _ => throw "Failed to fetch labels"
      | Ok data =>
          write_labelCache (Some (or_nil (labels data))) ;;;
          ret (or_nil (labels data))
      end
  end.

Definition getOurLabelIds (accessToken : string) : M (list string) :=
  allLabels <- getAllLabels accessToken ;;
  let ourLabelNames := map toLowerCase getOurLabelNames in
  ret (map Label.id
         (filter (fun l => JsObject.mem (toLowerCase (Label.name l)) ourLabelNames)
                 allLabels)).

Definition create_label_request (accessToken labelName : string) : request :=
  POST labels_url [bearer accessToken; json_content]
       (JObj [ ("name", JStr labelName);
               ("labelListVisibility", JStr "labelShow");
               ("messageListVisibility", JStr "show") ]).

Definition getOrCreateLabel (accessToken labelName : string) : M string :=
  allLabels <- getAllLabels accessToken ;;
  match find (same_name labelName) allLabels with
  | Some existingLabel => ret (Label.id existingLabel)
  | None =>
      createResponse <- fetch CreateLabel (create_label_request accessToken labelName) ;;
      match createResponse with
      | Fails message => throw message
      | NotOk error => throw ("Failed to create label: " ++ error)
      | Ok newLabel =>
          cache <- read_labelCache ;;
          match cache with
          | Some cached =>
              write_labelCache
                (Some (cached ++ [Label.make (Label.id newLabel) (Label.name newLabel)])%list)
          | None => ret tt
          end ;;;
          ret (Label.id newLabel)
      end
  end.

(* ---------------------------------------------------------------- *)
(** ** [applyLabel] *)

Definition modify_request (accessToken messageId labelId : string) : request :=
  POST (messages_url ++ "/" ++ messageId ++ "/modify")
       [bearer accessToken; json_content]
       (JObj [ ("addLabelIds", JArr [JStr labelId]) ]).

Definition applyLabel (accessToken messageId labelId : string) : M unit :=
  response <- fetch ModifyMessage (modify_request accessToken messageId labelId) ;;
  match response with
  | Fails message => throw message
  | NotOk error => throw ("Failed to modify message: " ++ error)
  | Ok _ => ret tt
  end.

(* ---------------------------------------------------------------- *)
(** ** [serve] *)

(** The three [let]/[const] variables the message loop works on. *)
Record Locals : Type := mkLocals {
  results : list (Email.t * string);
  errors : Z;
  skipped : Z
}.

(** [LABEL_MAP[label]] at the type [Record<EmailLabel, string>]; a
    read that does not produce a string cannot be lower-cased. *)
Definition label_name (label : string) : M string :=
  match JsObject.get LABEL_MAP label with
  | Some (JsObject.VString labelName) => ret labelName
  | Some (JsObject.VInherited _) => throw "labelName.toLowerCase is not a function"
  | None => throw "Cannot read properties of undefined (reading 'toLowerCase')"
  end.

(** The body of the [try] block. *)
Definition processEmail (accessToken : string) (email : Email.t) : M string :=
  label <- classifyEmail email ;;
  labelName <- label_name label ;;
  labelId <- getOrCreateLabel accessToken labelName ;;
  applyLabel accessToken (Email.id email) labelId ;;;
  ret label.

(** [for (const email of emails) { try { ... } catch (err) { errors++ } }] *)
Fixpoint processAll (accessToken : string) (emails : list Email.t) (v : Locals)
  : M Locals :=
  match emails with
  | [] => ret v
  | email :: rest =>
      v' <- try_catch
              (label <- processEmail accessToken email ;;
               ret (mkLocals (results v ++ [(email, label)])%list (errors v) (skipped v)))
              (fun _ => ret (mkLocals (results v) (errors v + 1) (skipped v))) ;;
      processAll accessToken rest v'
  end.

(** The outer [try] block. *)
Definition processBatch (req : ServeRequest.t) : M ProcessingResult.t :=
  match ServeRequest.read req with
  | ServeRequest.Unreadable message => throw message
  | ServeRequest.Parsed _ =>
      match ServeRequest.accessToken req with
      | None => throw "Access token is required"
      | Some accessToken =>
          if negb (JsString.truthy accessToken) then throw "Access token is required"
          else
            let section := match ServeRequest.section req with
                           | Some s => s
                           | None => "all"
                           end in
            fetched <- fetchEmails accessToken section (ServeRequest.pageToken req) ;;
            let (emails, nextPageToken) := fetched in
            v <- processAll accessToken emails (mkLocals [] 0 0) ;;
            ret (ProcessingResult.make
                   (Z.of_nat (length emails))
                   (Z.of_nat (length (results v)))
                   (skipped v)
                   (errors v)
                   (results v)
                   nextPageToken)
      end
  end.

Definition serve (req : ServeRequest.t) : M ServeResponse :=
  if ServeRequest.method req =? "OPTIONS" then ret Preflight
  else
    try_catch
      (r <- processBatch req ;; ret (Json 200 (Success r)))
      (fun message => ret (Json 400 (Failure message))).

(** Successive invocations handled by one process. *)
Fixpoint serve_all (reqs : list ServeRequest.t) : M (list ServeResponse) :=
  match reqs with
  | [] => ret []
  | req :: rest =>
      resp <- serve req ;;
      resps <- serve_all rest ;;
      ret (resp :: resps)
  end.

(** *** What happened to each message of a batch, in order *)

Fixpoint hydrations (accessToken : string) (messages : list string) (w : W)
  : list (string * response Detail) :=
  match messages with
  | [] => []
  | msg :: rest =>
      let (detailResponse, w') :=
        provider GetMessage (GET (detail_url msg) accessToken) w in
      (msg, detailResponse) ::
      match detailResponse with
      | Fails _ => []                           (* the loop is left *)
      | _ => hydrations accessToken rest w'
      end
  end.

Fixpoint attempts (accessToken : string) (emails : list Email.t) (st : State)
  : list (Email.t * outcome string) :=
  match emails with
  | [] => []
  | email :: rest =>
      let r := processEmail accessToken email st in
      (email, value r) :: attempts accessToken rest (final r)
  end.

End EdgeFunction.

Arguments Throw {A} message.
Arguments Return {A} a.

Definition threw {A} (o : outcome A) : bool :=
  match o with
  | Throw _ => true
  | Return _ => false
  end.

(** The messages whose attempt returned, with the label it returned. *)
Fixpoint returned (os : list (Email.t * outcome string)) : list (Email.t * string) :=
  match os with
  | [] => []
  | (email, Return label) :: rest => (email, label) :: returned rest
  | (_, Throw _) :: rest => returned rest
  end.

Definition count_thrown (os : list (Email.t * outcome string)) : nat :=
  length (filter (fun o => threw (snd o)) os).

(** The details of the messages whose hydration call succeeded. *)
Fixpoint hydrated (hs : list (string * response Detail)) : list Email.t :=
  match hs with
  | [] => []
  | (_, Ok detail) :: rest => email_of_detail detail :: hydrated rest
  | (_, NotOk _) :: rest => hydrated rest
  | (_, Fails _) :: rest => hydrated rest
  end.

(** The message of the hydration call that threw, if one did. *)
Fixpoint thrown (hs : list (string * response Detail)) : option string :=
  match hs with
  | [] => None
  | (_, Fails message) :: _ => Some message
  | _ :: rest => thrown rest
  end.

Definition count_failed (hs : list (string * response Detail)) : nat :=
  length (filter (fun h => negb (ok (snd h))) hs).

Definition calls_to (e : endpoint) (cs : list call) : list call :=
  filter (fun c => match target c, e with
                   | ListMessages, ListMessages | GetMessage, GetMessage
                   | CreateCompletion, CreateCompletion | ListLabels, ListLabels
                   | CreateLabel, CreateLabel | ModifyMessage, ModifyMessage => true
                   | _, _ => false
                   end) cs.

(* ================================================================== *)
(** * The dashboard's run loop *)

Module Dashboard.

(** [interface TotalStats] *)
Record TotalStats : Type := mkStats {
  total : Z;
  processed : Z;
  skipped : Z;
  errors : Z;
  batches : Z
}.

(** What [supabase.functions.invoke] resolves with. *)
Record FunctionsError : Type := mkFunctionsError {
  message : string;
  stringified : string                  (* [JSON.stringify(fnError)] *)
}.

Inductive Data : Type :=
| Batch (r : ProcessingResult.t)
| ErrorBody (error : string).

Record Invoked : Type := mkInvoked {
  data : option Data;
  fnError : option FunctionsError
}.

(** The [body] of one [invoke('process-emails', { body })]. *)
Record InvokeBody : Type := mkInvokeBody {
  accessToken : string;
  section : string;
  pageToken : option string
}.

(** Where the suspended [handleProcessSection] will resume, with the
    [let] variables it closed over. *)
Inductive Pc : Type :=
| Idle
| AwaitSession (section : string)
| AwaitBatch (providerToken section : string)
             (allResults : list (Email.t * string)) (stats : TotalStats)
| AwaitDelay (providerToken section : string)
             (allResults : list (Email.t * string)) (stats : TotalStats)
             (nextPageToken : string).

(** Which way the last run left its loop: the [break] after a missing
    cursor, the [break] after an observed stop request, or the [catch]. *)
Inductive Exit : Type := Completed | Stopped | Failed.

Record t : Type := mk {
  (* [useState] *)
  processing : bool;
  processingAll : bool;
  result : option ProcessingResult.t;
  totalStats : option TotalStats;
  currentBatch : Z;
  error : option string;
  currentSection : string;
  (* [useRef] *)
  stopRequestedRef : bool;
  (* the handler and what it has done *)
  pc : Pc;
  invocations : list InvokeBody;
  exited : option Exit
}.

(** The component as first rendered. *)
Definition initial : t :=
  mk false false None None 0 None "inbox" false Idle [] None.

Inductive event : Type :=
| ClickProcess (section : string)       (* a [Process ...] button *)
| ClickStop                             (* the [Stop] button: [handleStop] *)
| SessionResolved (provider_token : option string)
| InvokeResolved (r : Invoked)
| DelayElapsed.

(** [x || 0] *)
Definition or_zero (x : Z) : Z := if (x =? 0)%Z then 0%Z else x.

(** [processOneBatch], from the point where [invoke] has resolved. *)
Definition processOneBatch (r : Invoked) : outcome (option Data) :=
  match fnError r with
  | Some e =>
      Throw (if JsString.truthy (message e) then message e else stringified e)
  | None =>
      match data r with
      | Some (ErrorBody error) =>
          if JsString.truthy error then Throw error else Return (data r)
      | _ => Return (data r)
      end
  end.

(** The first lines of [handleProcessSection], up to its first [await]. *)
Definition start (section : string) (d : t) : t :=
  mk true true None (Some (mkStats 0 0 0 0 0)) 0 None section
     false (AwaitSession section) (invocations d) None.

(** [finally { setProcessing(false); setProcessingAll(false) }] *)
Definition finish (how : Exit) (d : t) : t :=
  mk false false (result d) (totalStats d) (currentBatch d) (error d)
     (currentSection d) (stopRequestedRef d) Idle (invocations d) (Some how).

(** [catch (err) { setError(...) }] followed by the [finally] block. *)
Definition fail (message : string) (d : t) : t :=
  finish Failed
    (mk (processing d) (processingAll d) (result d) (totalStats d) (currentBatch d)
        (Some message) (currentSection d) (stopRequestedRef d) (pc d)
        (invocations d) (exited d)).

(** The top of the [while] body, up to [await processOneBatch(...)]. *)
Definition request_batch (providerToken section : string)
           (allResults : list (Email.t * string)) (stats : TotalStats)
           (nextPageToken : option string) (d : t) : t :=
  let stats' := mkStats (total stats) (processed stats) (skipped stats)
                        (errors stats) (batches stats + 1) in
  mk (processing d) (processingAll d) (result d) (totalStats d)
     (batches stats') (error d) (currentSection d) (stopRequestedRef d)
     (AwaitBatch providerToken section allResults stats')
     (invocations d ++ [mkInvokeBody providerToken section nextPageToken])
     (exited d).

(** The rest of the [while] body, once the batch result is there. *)
Definition absorb_batch (providerToken section : string)
           (allResults : list (Email.t * string)) (stats : TotalStats)
           (batchResult : ProcessingResult.t) (d : t) : t :=
  let stats' :=
    mkStats (total stats + ProcessingResult.total batchResult)
            (processed stats + ProcessingResult.processed batchResult)
            (skipped stats + or_zero (ProcessingResult.skipped batchResult))
            (errors stats + ProcessingResult.errors batchResult)
            (batches stats) in
  let allResults' := (allResults ++ ProcessingResult.results batchResult)%list in
  let d' :=
    mk (processing d) (processingAll d)
       (Some (ProcessingResult.make (total stats') (processed stats')
                (skipped stats') (errors stats') allResults' None))
       (Some stats')
       (currentBatch d) (error d) (currentSection d) (stopRequestedRef d)
       (pc d) (invocations d) (exited d) in
  match ProcessingResult.nextPageToken batchResult with
  | None => finish Completed d'
  | Some nextPageToken =>
      if negb (JsString.truthy nextPageToken) then finish Completed d'
      else if stopRequestedRef d' then finish Stopped d'
      else
        mk (processing d') (processingAll d') (result d') (totalStats d')
           (currentBatch d') (error d') (currentSection d') (stopRequestedRef d')
           (AwaitDelay providerToken section allResults' stats' nextPageToken)
           (invocations d') (exited d')
  end.

Definition no_token : string :=
  "No Gmail access token. Please sign out and sign in again.".

(** One turn of the event loop. *)
Definition step (d : t) (e : event) : t :=
  match e, pc d with
  | ClickProcess section, _ =>
      if processing d then d else start section d          (* [disabled={processing}] *)
  | ClickStop, _ =>
      if processing d                                      (* [{processing && <button>}] *)
      then mk (processing d) (processingAll d) (result d) (totalStats d)
              (currentBatch d) (error d) (currentSection d) true
              (pc d) (invocations d) (exited d)
      else d
  | SessionResolved provider_token, AwaitSession section =>
      match provider_token with
      | Some providerToken =>
          if JsString.truthy providerToken
          then request_batch providerToken section [] (mkStats 0 0 0 0 0) None d
          else fail no_token d
      | None => fail no_token d
      end
  | InvokeResolved r, AwaitBatch providerToken section allResults stats =>
      match processOneBatch r with
      | Throw message => fail message d
      | Return (Some (Batch batchResult)) =>
          absorb_batch providerToken section allResults stats batchResult d
      | Return (Some (ErrorBody _)) =>
          fail "batchResult.results is not iterable" d
      | Return None =>
          fail "Cannot read properties of null (reading 'total')" d
      end
  | DelayElapsed, AwaitDelay providerToken section allResults stats nextPageToken =>
      request_batch providerToken section allResults stats (Some nextPageToken) d
  | _, _ => d
  end.

Definition run (d : t) (es : list event) : t := fold_left step es d.

(** A batch call that resolves with the success payload [r]. *)
Definition batch_returns (r : ProcessingResult.t) : event :=
  InvokeResolved (mkInvoked (Some (Batch r)) None).

End Dashboard.

(* ================================================================== *)
(** * Vocabulary of the properties *)

(** The reply names one of the ten categories. *)
Definition known_category (reply : string) : Prop :=
  exists l : EmailLabel, label_literal l = reply.

(** The provider answers a create-label call with a label that carries
    the name it was asked to create (up to letter case). *)
Definition echoes_name {W} (provider : forall e, request -> W -> response (body_of e) * W)
  : Prop :=
  forall accessToken labelName w l w',
    provider CreateLabel (create_label_request accessToken labelName) w = (Ok l, w') ->
    same_name labelName l = true.

(** Label ids a request body lists for removal. *)
Definition removals (r : request) : list json :=
  Json.items (Json.field "removeLabelIds" (body r)).

(** Label ids a request body lists for addition. *)
Definition additions (r : request) : list json :=
  Json.items (Json.field "addLabelIds" (body r)).

(** A modify call that adds exactly one label and removes none. *)
Definition adds_one_label (c : call) : Prop :=
  target c = ModifyMessage ->
  exists labelId,
    body (sent c) = Some (JObj [("addLabelIds", JArr [JStr labelId])]) /\
    additions (sent c) = [JStr labelId] /\
    removals (sent c) = [] /\
    ~ In (JStr "INBOX") (removals (sent c)) /\
    ~ In (JStr "UNREAD") (removals (sent c)).

(** Label-list calls that came back with a list. *)
Definition label_fetches (cs : list call) : nat :=
  length (filter succeeded (calls_to ListLabels cs)).

(** 1 when [labelCache] holds a list, 0 when it is [null]. *)
Definition populated {W} (st : State W) : nat :=
  match labelCache st with
  | Some _ => 1
  | None => 0
  end.

(** What a successful resolution of [labelName] to [labelId] leaves
    behind: a cache in which the name is found under that identifier, at
    most one create call, and after a create call the new entry at the end
    of the cache. *)
Definition resolved {W} (labelName labelId : string) (r : Run W string) : Prop :=
  exists cached l,
    labelCache (final r) = Some cached /\
    find (same_name labelName) cached = Some l /\
    Label.id l = labelId /\
    (length (calls_to CreateLabel (issued r)) <= 1)%nat /\
    (calls_to CreateLabel (issued r) <> [] ->
     exists before name,
       cached = (before ++ [Label.make labelId name])%list /\
       find (same_name labelName) before = None).

(** [m] keeps the relation [R] between the state it starts in, the calls
    it issues and the state it ends in. *)
Definition respects {W A} (R : State W -> list call -> State W -> Prop) (m : M W A)
  : Prop :=
  forall st, R st (issued (m st)) (final (m st)).

(** The memoization discipline of [labelCache]: the successful label-list
    calls are exactly the transitions from an empty to a populated cache, a
    populated cache is never asked for again, and it only grows. *)
Definition memoizes {W} (st : State W) (cs : list call) (st' : State W) : Prop :=
  (label_fetches cs + populated st = populated st')%nat /\
  (populated st = 1%nat -> calls_to ListLabels cs = []) /\
  (forall cached, labelCache st = Some cached ->
     exists extra, labelCache st' = Some (cached ++ extra)%list).

(** Every modify call issued adds one label and removes none. *)
Definition only_adds {W} (st : State W) (cs : list call) (st' : State W) : Prop :=
  Forall adds_one_label cs.


(** The section [serve] hands to [fetchEmails]. *)
Definition section_of (req : ServeRequest.t) : string :=
  match ServeRequest.section req with
  | Some s => s
  | None => "all"
  end.

(* ================================================================== *)
(** * A scripted provider, for concrete runs *)

Module Mock.

(** The replies the classification service will give, in order, and the
    number of labels created so far. *)
Record World : Type := mkWorld {
  replies : list (response Completion);
  created : nat
}.

Definition detail (id subject : string) : Detail :=
  mkDetail id ("t-" ++ id) (Some "preview") None
           (Some [mkHeader "from" "alice@example.com"; mkHeader "SUBJECT" subject]).

Definition requested_name (r : request) : string :=
  match Json.field "name" (body r) with
  | Some (JStr n) => n
  | _ => ""
  end.

Definition fresh_id (n : nat) : string :=
  "Label_" ++ String (ascii_of_nat (48 + n)) EmptyString.

(** Three messages are listed and the second cannot be hydrated; the
    account has only its system labels to begin with. *)
Definition provider (e : endpoint) (r : request) (w : World)
  : response (body_of e) * World :=
  match e return response (body_of e) * World with
  | ListMessages =>
      (Ok (mkMessageList (Some ["m1"; "m2"; "m3"]) (Some "A")), w)
  | GetMessage =>
      if url r =? detail_url "m2" then (NotOk "Not Found", w)
      else if url r =? detail_url "m1" then (Ok (detail "m1" "Your invoice"), w)
      else (Ok (detail "m3" "Hello"), w)
  | CreateCompletion =>
      match replies w with
      | [] => (NotOk "overloaded", w)
      | reply :: rest => (reply, mkWorld rest (created w))
      end
  | ListLabels =>
      (Ok (mkLabelList (Some [Label.make "INBOX" "INBOX"; Label.make "UNREAD" "UNREAD"])), w)
  | CreateLabel =>
      (Ok (Label.make (fresh_id (created w)) (requested_name r)),
       mkWorld (replies w) (S (created w)))
  | ModifyMessage => (Ok tt, w)
  end.

Definition says (text : string) : response Completion :=
  Ok (mkCompletion [Some text]).

(** A freshly started process. *)
Definition fresh (script : list (response Completion)) : State World :=
  mkState (mkWorld script 0) None.

Definition request (section : string) : ServeRequest.t :=
  ServeRequest.make "POST" (Some "token") None (Some section).

Definition run (script : list (response Completion)) (reqs : list ServeRequest.t)
  : Run World (list ServeResponse) :=
  serve_all provider (Some "key") reqs (fresh script).

End Mock.

(* ================================================================== *)
(** * The dashboard's summary by label *)

(** What a property of the accumulator holds: a number, or the string
    that [+ 1] builds once its left operand is not a number. *)
Inductive tally : Type :=
| Count (n : Z)
| Text.

(** The accumulator's own properties, in insertion order (the order of
    [Object.entries] for keys that are not array indices). *)
Fixpoint own_tally (acc : list (string * tally)) (k : string) : option tally :=
  match acc with
  | [] => None
  | (k', v) :: rest => if k' =? k then Some v else own_tally rest k
  end.

(** [(acc[label] || 0) + 1]: an own number is incremented; [undefined]
    counts as [0]; a member inherited from [Object.prototype] is truthy and
    [+] turns it into a string, as it does with a string already stored. *)
Definition next_tally (acc : list (string * tally)) (label : string) : tally :=
  match own_tally acc label with
  | Some (Count n) => Count (Dashboard.or_zero n + 1)
  | Some Text => Text
  | None =>
      if JsObject.mem label JsObject.Object_prototype then Text else Count (0 + 1)
  end.

(** [acc[label] = v] on own properties: in place, or appended. *)
Fixpoint assign (label : string) (v : tally) (acc : list (string * tally))
  : list (string * tally) :=
  match acc with
  | [] => [(label, v)]
  | (k, n) :: rest =>
      if k =? label then (k, v) :: rest else (k, n) :: assign label v rest
  end.

(** [acc[label] = (acc[label] || 0) + 1]; the [__proto__] accessor ignores
    a value that is not an object. *)
Definition bump (label : string) (acc : list (string * tally)) : list (string * tally) :=
  if label =? "__proto__" then acc else assign label (next_tally acc label) acc.

(** [result?.results.reduce((acc, { label }) => { ...; return acc }, {})] *)
Definition labelCounts (result : option ProcessingResult.t)
  : option (list (string * tally)) :=
  option_map
    (fun r => fold_left (fun acc x => bump (snd x) acc) (ProcessingResult.results r) [])
    result.

(** How many entries of [results] carry [label]. *)
Definition carrying (label : string) (results : list (Email.t * string)) : nat :=
  length (filter (fun x => snd x =? label) results).

Definition tally_value (v : tally) : Z :=
  match v with
  | Count n => n
  | Text => 0
  end.

(* ================================================================== *)
(** * Vocabulary of the further properties *)

Fixpoint all_chars (p : ascii -> bool) (s : string) : bool :=
  match s with
  | EmptyString => true
  | String c r => p c && all_chars p r
  end.

(** The characters [encodeURIComponent] can produce. *)
Definition url_safe (c : ascii) : bool := unreserved c || (code c =? 37)%nat.

Definition has_header (k : string) (r : request) : bool :=
  existsb (fun h => fst h =? k) (headers r).

Definition gmail_origin : string := "https://gmail.googleapis.com/".

(** The requests the edge function builds, for a given API key and the
    access token of the request it serves. *)
Inductive built_by (ANTHROPIC_API_KEY : option string) (accessToken : string)
  : call -> Prop :=
| built_list : forall section pageToken flag,
    built_by ANTHROPIC_API_KEY accessToken
             (mkCall ListMessages (GET (list_url section pageToken) accessToken) flag)
| built_detail : forall id flag,
    built_by ANTHROPIC_API_KEY accessToken
             (mkCall GetMessage (GET (detail_url id) accessToken) flag)
| built_completion : forall apiKey email flag,
    ANTHROPIC_API_KEY = Some apiKey ->
    built_by ANTHROPIC_API_KEY accessToken
             (mkCall CreateCompletion (completion_request apiKey email) flag)
| built_labels : forall flag,
    built_by ANTHROPIC_API_KEY accessToken
             (mkCall ListLabels (GET labels_url accessToken) flag)
| built_create : forall labelName flag,
    In labelName getOurLabelNames ->
    built_by ANTHROPIC_API_KEY accessToken
             (mkCall CreateLabel (create_label_request accessToken labelName) flag)
| built_modify : forall messageId labelId flag,
    built_by ANTHROPIC_API_KEY accessToken
             (mkCall ModifyMessage (modify_request accessToken messageId labelId) flag).

(** The API key goes to the classification service only, the access
    token to the mail provider only. *)
Definition carries_credentials (ANTHROPIC_API_KEY : option string) (accessToken : string)
           (c : call) : Prop :=
  match target c with
  | CreateCompletion =>
      url (sent c) = anthropic_url /\
      (exists apiKey, ANTHROPIC_API_KEY = Some apiKey /\
                      In ("x-api-key", apiKey) (headers (sent c))) /\
      has_header "Authorization" (sent c) = false
  | _ =>
      prefix gmail_origin (url (sent c)) = true /\
      In (bearer accessToken) (headers (sent c)) /\
      has_header "x-api-key" (sent c) = false
  end.

(** A create-label call asks for one of the ten category names. *)
Definition creates_category_label (accessToken : string) (c : call) : Prop :=
  target c = CreateLabel ->
  exists labelName,
    In labelName getOurLabelNames /\
    sent c = create_label_request accessToken labelName.

Definition issues_built {W} (ANTHROPIC_API_KEY : option string) (accessToken : string)
           (st : State W) (cs : list call) (st' : State W) : Prop :=
  Forall (built_by ANTHROPIC_API_KEY accessToken) cs.

(** A request that differs from [req] in its [section] only. *)
Definition with_section (req : ServeRequest.t) (section : option string) : ServeRequest.t :=
  ServeRequest.mk
    (ServeRequest.method req)
    match ServeRequest.read req with
    | ServeRequest.Parsed body =>
        ServeRequest.Parsed
          (ServeRequest.mkBody (ServeRequest.body_accessToken body)
                               (ServeRequest.body_pageToken body) section)
    | ServeRequest.Unreadable message => ServeRequest.Unreadable message
    end.

(** The category names, lower-cased, that [getOurLabelIds] compares with. *)
Definition ourLabelNames : list string := map toLowerCase getOurLabelNames.

(** A label that carries one of the ten category names, up to letter case. *)
Definition is_ours (l : Label.t) : bool :=
  JsObject.mem (toLowerCase (Label.name l)) ourLabelNames.

(** Calls to [e] that came back ok. *)
Definition succeeded_calls (e : endpoint) (cs : list call) : nat :=
  length (filter succeeded (calls_to e cs)).

(** The truthy cursor of a batch result, if it has one. *)
Definition cursor_of (r : ProcessingResult.t) : option string :=
  match ProcessingResult.nextPageToken r with
  | Some t => if JsString.truthy t then Some t else None
  | None => None
  end.

Definition has_cursor (r : ProcessingResult.t) : bool :=
  match cursor_of r with
  | Some _ => true
  | None => false
  end.

Fixpoint Zsum (xs : list Z) : Z :=
  match xs with
  | [] => 0%Z
  | x :: rest => (x + Zsum rest)%Z
  end.

(** What the run loop sees while every batch but the last returns a
    cursor: each batch resolves, and the pause after it elapses. *)
Definition batches_then_last (rs : list ProcessingResult.t) (last : ProcessingResult.t)
  : list Dashboard.event :=
  (flat_map (fun r => [Dashboard.batch_returns r; Dashboard.DelayElapsed]) rs
   ++ [Dashboard.batch_returns last])%list.

(** Batch calls a state can still make once Stop has been clicked. *)
Definition calls_left (d : Dashboard.t) : nat :=
  match Dashboard.pc d with
  | Dashboard.AwaitSession _ => 1
  | Dashboard.AwaitDelay _ _ _ _ _ => 1
  | _ => 0
  end.

Definition starts_run (e : Dashboard.event) : bool :=
  match e with
  | Dashboard.ClickProcess _ => true
  | _ => false
  end.

(** The two summaries the dashboard shows agree. *)
Definition summaries_agree (d : Dashboard.t) : Prop :=
  match Dashboard.result d, Dashboard.totalStats d with
  | Some r, Some s =>
      ProcessingResult.total r = Dashboard.total s /\
      ProcessingResult.processed r = Dashboard.processed s /\
      ProcessingResult.skipped r = Dashboard.skipped s /\
      ProcessingResult.errors r = Dashboard.errors s
  | Some _, None => False
  | None, _ => True
  end.

(** A batch call the edge function will not turn down for its token, and
    whose cursor, if any, is a real one. *)
Definition sendable (b : Dashboard.InvokeBody) : bool :=
  JsString.truthy (Dashboard.accessToken b) &&
  match Dashboard.pageToken b with
  | Some t => JsString.truthy t
  | None => true
  end.

(** What a suspended handler holds is fit to be sent. *)
Definition holds_sendable (pc : Dashboard.Pc) : bool :=
  match pc with
  | Dashboard.AwaitBatch providerToken _ _ _ => JsString.truthy providerToken
  | Dashboard.AwaitDelay providerToken _ _ _ nextPageToken =>
      JsString.truthy providerToken && JsString.truthy nextPageToken
  | _ => true
  end.

(** The first stage of a batch goes through: the request carries a
    non-empty access token, the provider answers the list call, and none of
    the detail calls throws. *)
Definition first_stage_succeeds {W}
           (provider : forall e, request -> W -> response (body_of e) * W)
           (req : ServeRequest.t) (st : State W) : Prop :=
  exists accessToken listData w,
    ServeRequest.accessToken req = Some accessToken /\
    JsString.truthy accessToken = true /\
    provider ListMessages
             (GET (list_url (section_of req) (ServeRequest.pageToken req)) accessToken)
             (world st)
    = (Ok listData, w) /\
    thrown (hydrations provider accessToken (or_nil (messages listData)) w) = None.

(* ================================================================== *)
(** * The scripted provider on a connection that drops *)

Module Flaky.

(** As [Mock.provider], except that the detail call for the second
    message throws: the connection is reset while it is being fetched. *)
Definition provider (e : endpoint) (r : request) (w : Mock.World)
  : response (body_of e) * Mock.World :=
  match e return response (body_of e) * Mock.World with
  | GetMessage =>
      if url r =? detail_url "m2" then (Fails "connection reset", w)
      else Mock.provider GetMessage r w
  | ListMessages => Mock.provider ListMessages r w
  | CreateCompletion => Mock.provider CreateCompletion r w
  | ListLabels => Mock.provider ListLabels r w
  | CreateLabel => Mock.provider CreateLabel r w
  | ModifyMessage => Mock.provider ModifyMessage r w
  end.

End Flaky.

(* ================================================================== *)
(** * A provider that is down, for concrete runs *)

Module Offline.

Definition provider (e : endpoint) (r : request) (w : unit)
  : response (body_of e) * unit :=
  (NotOk "Service Unavailable", w).

Definition fresh : State unit := mkState tt None.

End Offline.

(* ================================================================== *)
(** * Strings and the category table *)

Open Scope list_scope.

(** A request from which an access token was read has a readable body. *)
Lemma read_parsed :
  forall req accessToken,
    ServeRequest.accessToken req = Some accessToken ->
    ServeRequest.read req
    = ServeRequest.Parsed
        (ServeRequest.mkBody (ServeRequest.accessToken req) (ServeRequest.pageToken req)
                             (ServeRequest.section req)).
Proof.
  intros [m [[a p s]|message]] accessToken H;
    unfold ServeRequest.accessToken, ServeRequest.pageToken, ServeRequest.section in *;
    cbn [ServeRequest.read] in *; [reflexivity|discriminate].
Qed.

Lemma upper_char_not_lower : forall c, is_lower (upper_char c) = false.
Proof.
  intros [[] [] [] [] [] [] [] []]; reflexivity.
Qed.

Lemma continuation_not_lower :
  forall c, is_continuation c = true -> is_lower c = false.
Proof.
  intros [[] [] [] [] [] [] [] []] H; try reflexivity; discriminate H.
Qed.

Lemma beyond_ascii_not_lower :
  forall c, (code c <? 128)%nat = false -> is_lower c = false.
Proof.
  intros [[] [] [] [] [] [] [] []] H; try reflexivity; discriminate H.
Qed.

Lemma has_lower_app :
  forall a b, has_lower (a ++ b)%string = has_lower a || has_lower b.
Proof.
  induction a as [|c a IH]; intros b; simpl.
  - reflexivity.
  - rewrite IH, orb_assoc. reflexivity.
Qed.

Lemma image_no_lower :
  forall table ch,
    upper_images table = true ->
    has_lower ch = false ->
    has_lower (image table ch) = false.
Proof.
  unfold upper_images.
  induction table as [|[k v] rest IH]; intros ch Ht Hc; cbn [image].
  - exact Hc.
  - cbn [forallb snd] in Ht. apply andb_true_iff in Ht. destruct Ht as [Hv Hr].
    destruct (k =? ch)%string.
    + apply negb_true_iff. exact Hv.
    + exact (IH ch Hr Hc).
Qed.

Lemma convert_no_lower :
  forall table,
    upper_images table = true ->
    forall s pending need,
      has_lower pending = false ->
      has_lower (convert upper_char table pending need s) = false.
Proof.
  intros table Ht.
  assert (Start : forall c r pending,
             (forall pending need, has_lower pending = false ->
                                   has_lower (convert upper_char table pending need r) = false) ->
             has_lower pending = false ->
             has_lower
               (pending ++
                (if (code c <? 128)%nat
                 then String (upper_char c) (convert upper_char table "" 0 r)
                 else match followers c with
                      | O => String c (convert upper_char table "" 0 r)
                      | S n => convert upper_char table (String c EmptyString) (S n) r
                      end))%string = false).
  { intros c r pending IH Hp. rewrite has_lower_app, Hp. cbn [orb].
    destruct (code c <? 128)%nat eqn:Ec.
    - cbn [has_lower]. rewrite upper_char_not_lower. apply IH. reflexivity.
    - pose proof (beyond_ascii_not_lower c Ec) as Hl.
      destruct (followers c).
      + cbn [has_lower]. rewrite Hl. apply IH. reflexivity.
      + apply IH. cbn [has_lower]. rewrite Hl. reflexivity. }
  induction s as [|c r IH]; intros pending need Hp.
  - exact Hp.
  - cbn [convert].
    destruct need as [|[|n]]; destruct (is_continuation c) eqn:Ec;
      try (apply Start; assumption).
    + rewrite has_lower_app, IH by reflexivity.
      rewrite image_no_lower; [reflexivity|exact Ht|].
      rewrite has_lower_app, Hp. cbn [has_lower orb].
      rewrite (continuation_not_lower c Ec). reflexivity.
    + apply IH. rewrite has_lower_app, Hp. cbn [has_lower orb].
      rewrite (continuation_not_lower c Ec). reflexivity.
Qed.

Lemma to_upper_images : upper_images Unicode.to_upper = true.
Proof.
  vm_compute. reflexivity.
Qed.

Lemma toUpperCase_no_lower : forall s, has_lower (toUpperCase s) = false.
Proof.
  intros s. unfold toUpperCase.
  apply convert_no_lower; [exact to_upper_images|reflexivity].
Qed.

Lemma mem_In : forall k ks, JsObject.mem k ks = true -> In k ks.
Proof.
  induction ks as [|k' ks IH]; simpl; intros H.
  - discriminate.
  - apply orb_true_iff in H. destruct H as [H|H].
    + left. apply String.eqb_eq. exact H.
    + right. apply IH. exact H.
Qed.

(** Every property name of [Object.prototype] has a lower-case letter,
    so no upper-cased string is one of them. *)
Lemma prototype_names_have_lower :
  forall k, JsObject.mem k JsObject.Object_prototype = true -> has_lower k = true.
Proof.
  intros k H. apply mem_In in H.
  unfold JsObject.Object_prototype in H. simpl in H.
  repeat (destruct H as [H|H]; [subst k; reflexivity|]).
  contradiction.
Qed.

Lemma own_known :
  forall l, exists labelName,
    JsObject.own LABEL_MAP (label_literal l) = Some labelName /\
    JsString.truthy labelName = true.
Proof.
  intros []; eexists; split; reflexivity.
Qed.

Lemma own_unknown :
  forall k, ~ known_category k -> JsObject.own LABEL_MAP k = None.
Proof.
  intros k H. unfold LABEL_MAP. cbn [JsObject.own].
  repeat match goal with
  | |- (if ?a =? k then _ else _) = None =>
      destruct (String.eqb_spec a k) as [E|_];
      [ exfalso; apply H;
        first [ exists TO_REPLY; exact E | exists AWAITING_REPLY; exact E
              | exists FYI; exact E | exists ACTIONED; exact E
              | exists NEWSLETTER; exact E | exists MARKETING; exact E
              | exists CALENDAR; exact E | exists RECEIPT; exact E
              | exists NOTIFICATION; exact E | exists COLD_EMAIL; exact E ]
      | ]
  end.
  reflexivity.
Qed.

Lemma validated_known :
  forall l, validated (Some (label_literal l)) = label_literal l.
Proof.
  intros []; reflexivity.
Qed.

Lemma validated_unknown :
  forall text, ~ known_category (toUpperCase text) ->
               validated (Some (toUpperCase text)) = "FYI".
Proof.
  intros text H. unfold validated, JsObject.get. simpl JsObject.key_of.
  rewrite (own_unknown H).
  destruct (JsObject.mem (toUpperCase text) JsObject.Object_prototype) eqn:E.
  - apply prototype_names_have_lower in E.
    rewrite toUpperCase_no_lower in E. discriminate.
  - reflexivity.
Qed.

Lemma own_some_known :
  forall k v, JsObject.own LABEL_MAP k = Some v ->
              known_category k /\ JsString.truthy v = true.
Proof.
  intros k v Eo. unfold LABEL_MAP in Eo. cbn [JsObject.own] in Eo.
  repeat match type of Eo with
  | (if ?a =? ?k then _ else _) = Some _ =>
      destruct (String.eqb_spec a k) as [Ek|_];
      [ rewrite <- Ek; injection Eo as <-; split;
        [ first [ exists TO_REPLY; reflexivity | exists AWAITING_REPLY; reflexivity
                | exists FYI; reflexivity | exists ACTIONED; reflexivity
                | exists NEWSLETTER; reflexivity | exists MARKETING; reflexivity
                | exists CALENDAR; reflexivity | exists RECEIPT; reflexivity
                | exists NOTIFICATION; reflexivity | exists COLD_EMAIL; reflexivity ]
        | reflexivity ]
      | ]
  end.
  discriminate.
Qed.

(** [classifyEmail] only ever returns a key of [LABEL_MAP]. *)
Lemma validated_is_category :
  forall data, known_category (validated (classification_of data)).
Proof.
  intros data. unfold classification_of.
  destruct (content data) as [|[text|] rest]; try (exists FYI; reflexivity).
  destruct (JsObject.own LABEL_MAP (toUpperCase (trim text))) as [v|] eqn:Eo.
  - destruct (own_some_known _ Eo) as [[l Hl] _].
    rewrite <- Hl. rewrite validated_known. exists l. reflexivity.
  - assert (H : ~ known_category (toUpperCase (trim text))).
    { intros [l Hl]. destruct (own_known l) as [v [Hv _]].
      rewrite Hl in Hv. congruence. }
    rewrite (validated_unknown _ H). exists FYI. reflexivity.
Qed.

Lemma label_literal_has_name :
  forall l, exists labelName,
    JsObject.get LABEL_MAP (label_literal l) = Some (JsObject.VString labelName).
Proof.
  intros []; eexists; reflexivity.
Qed.

(* ================================================================== *)
(** * Running the monad *)

Arguments prompt : simpl never.
Arguments completion_request : simpl never.
Arguments create_label_request : simpl never.
Arguments modify_request : simpl never.
Arguments list_url : simpl never.
Arguments detail_url : simpl never.
Arguments validated : simpl never.
Arguments same_name : simpl never.
Arguments JsString.truthy : simpl never.
Arguments GET : simpl never.

Section Running.

Variable W : Type.
Variable provider : forall e : endpoint, request -> W -> response (body_of e) * W.

Lemma fetch_eq :
  forall e r (st : State W) resp w,
    provider e r (world st) = (resp, w) ->
    fetch provider e r st
    = mkRun (Return resp) (mkState w (labelCache st)) [mkCall e r (ok resp)].
Proof.
  intros e r st resp w H. unfold fetch. rewrite H. reflexivity.
Qed.

Lemma fetch_value :
  forall e r (st : State W),
    value (fetch provider e r st) = Return (fst (provider e r (world st))).
Proof.
  intros e r st. unfold fetch. destruct (provider e r (world st)). reflexivity.
Qed.

Lemma fetch_final :
  forall e r (st : State W),
    final (fetch provider e r st)
    = mkState (snd (provider e r (world st))) (labelCache st).
Proof.
  intros e r st. unfold fetch. destruct (provider e r (world st)). reflexivity.
Qed.

Lemma fetch_issued :
  forall e r (st : State W),
    issued (fetch provider e r st)
    = [mkCall e r (ok (fst (provider e r (world st))))].
Proof.
  intros e r st. unfold fetch. destruct (provider e r (world st)). reflexivity.
Qed.

Lemma bind_Return :
  forall A B (m : M W A) (k : A -> M W B) st a,
    value (m st) = Return a ->
    bind m k st
    = mkRun (value (k a (final (m st)))) (final (k a (final (m st))))
            (issued (m st) ++ issued (k a (final (m st)))).
Proof.
  intros A B m k st a H. unfold bind. rewrite H. reflexivity.
Qed.

Lemma bind_Throw :
  forall A B (m : M W A) (k : A -> M W B) st message,
    value (m st) = Throw message ->
    bind m k st = mkRun (Throw message) (final (m st)) (issued (m st)).
Proof.
  intros A B m k st message H. unfold bind. rewrite H. reflexivity.
Qed.

End Running.

(* ================================================================== *)
(** * The classifier *)

(** C1. When the classification service answers successfully with a
    reply string, [classifyEmail] returns the trimmed, upper-cased reply if
    that is one of the ten categories, and the default [FYI] otherwise. *)
Theorem classifyEmail_validates_reply :
  forall W (provider : forall e, request -> W -> response (body_of e) * W)
         apiKey email (st : State W) reply rest w',
    JsString.truthy apiKey = true ->
    provider CreateCompletion (completion_request apiKey email) (world st)
      = (Ok (mkCompletion (Some reply :: rest)), w') ->
    let answer := toUpperCase (trim reply) in
    let run := classifyEmail provider (Some apiKey) email st in
    (~ known_category answer -> value run = Return "FYI") /\
    (known_category answer -> value run = Return answer).
Proof.
  intros W provider apiKey email st reply rest w' Hkey Hresp answer run.
  assert (E : value run = Return (validated (Some answer))).
  { unfold run, classifyEmail. rewrite Hkey. cbn [negb].
    unfold bind. erewrite fetch_eq by exact Hresp. reflexivity. }
  split; intros H; rewrite E.
  - f_equal. apply validated_unknown. exact H.
  - destruct H as [l Hl]. rewrite <- Hl. f_equal. apply validated_known.
Qed.

Lemma classifyEmail_validates_reply_witness :
  value (classifyEmail Mock.provider (Some "key") (email_of_detail (Mock.detail "m3" "Hello"))
           (Mock.fresh [Mock.says "I think this is spam"])) = Return "FYI"
  /\
  value (classifyEmail Mock.provider (Some "key") (email_of_detail (Mock.detail "m1" "Your invoice"))
           (Mock.fresh [Mock.says "  cold_email
"])) = Return "COLD_EMAIL"
  /\
  value (classifyEmail Mock.provider (Some "key") (email_of_detail (Mock.detail "m1" "Your invoice"))
           (Mock.fresh [Mock.says " receıpt "])) = Return "RECEIPT".
Proof.
  split; [|split].
  - apply (classifyEmail_validates_reply Mock.provider "key"
             (email_of_detail (Mock.detail "m3" "Hello"))
             (Mock.fresh [Mock.says "I think this is spam"])
             (reply := "I think this is spam") (rest := [])
             (w' := Mock.mkWorld [] 0)
             eq_refl eq_refl).
    intros [l Hl]. destruct l; vm_compute in Hl; discriminate Hl.
  - apply (classifyEmail_validates_reply Mock.provider "key"
             (email_of_detail (Mock.detail "m1" "Your invoice"))
             (Mock.fresh [Mock.says "  cold_email
"])
             (reply := "  cold_email
") (rest := [])
             (w' := Mock.mkWorld [] 0)
             eq_refl eq_refl).
    exists COLD_EMAIL. reflexivity.
  - apply (classifyEmail_validates_reply Mock.provider "key"
             (email_of_detail (Mock.detail "m1" "Your invoice"))
             (Mock.fresh [Mock.says " receıpt "])
             (reply := " receıpt ") (rest := [])
             (w' := Mock.mkWorld [] 0)
             eq_refl eq_refl).
    exists RECEIPT. reflexivity.
Defined.

(* ================================================================== *)
(** * Query construction *)

Lemma baseQuery_other_section :
  forall section, section <> "inbox" -> baseQuery section = baseQuery "all".
Proof.
  intros section H. unfold baseQuery.
  destruct (String.eqb_spec section "inbox") as [E|_]; [contradiction|reflexivity].
Qed.

(** C4. For scope "inbox" the query contains [in:inbox], exactly one
    [-label:"<name>"] clause for each managed label name (ten in all) and
    neither [in:spam] nor [in:trash]; for scope "all" it contains
    [-in:spam -in:trash], the same exclusions, and no [in:inbox]. *)
Theorem baseQuery_clauses :
  (includes "in:inbox" (baseQuery "inbox") = true /\
   includes "in:spam" (baseQuery "inbox") = false /\
   includes "in:trash" (baseQuery "inbox") = false /\
   Forall (fun labelName => occurrences (exclusion labelName) (baseQuery "inbox") = 1)
          (JsObject.values LABEL_MAP) /\
   occurrences "-label:" (baseQuery "inbox") = length LABEL_MAP)
  /\
  (includes "-in:spam -in:trash" (baseQuery "all") = true /\
   includes "in:inbox" (baseQuery "all") = false /\
   Forall (fun labelName => occurrences (exclusion labelName) (baseQuery "all") = 1)
          (JsObject.values LABEL_MAP) /\
   occurrences "-label:" (baseQuery "all") = length LABEL_MAP)
  /\
  (forall l : EmailLabel, exists labelName,
      JsObject.own LABEL_MAP (label_literal l) = Some labelName /\
      occurrences (exclusion labelName) (baseQuery "inbox") = 1 /\
      occurrences (exclusion labelName) (baseQuery "all") = 1).
Proof.
  split; [|split].
  - repeat split; try (vm_compute; reflexivity).
    unfold JsObject.values, LABEL_MAP; simpl map.
    repeat constructor; vm_compute; reflexivity.
  - repeat split; try (vm_compute; reflexivity).
    unfold JsObject.values, LABEL_MAP; simpl map.
    repeat constructor; vm_compute; reflexivity.
  - intros []; eexists; (split; [reflexivity|split; vm_compute; reflexivity]).
Qed.

(* ================================================================== *)
(** * The label resolver *)

Lemma find_append :
  forall A (f : A -> bool) (l l' : list A),
    find f (l ++ l') = match find f l with
                       | Some x => Some x
                       | None => find f l'
                       end.
Proof.
  induction l as [|x l IH]; intros l'; simpl.
  - reflexivity.
  - destruct (f x); [reflexivity|apply IH].
Qed.

Section Resolver.

Variable W : Type.
Variable provider : forall e : endpoint, request -> W -> response (body_of e) * W.

(** A lookup with a populated cache returns the memoized list and calls nobody. *)
Lemma getAllLabels_cached :
  forall accessToken (st : State W) cached,
    labelCache st = Some cached ->
    getAllLabels provider accessToken st = mkRun (Return cached) st [].
Proof.
  intros accessToken st cached H.
  unfold getAllLabels, bind, read_labelCache. simpl. rewrite H. reflexivity.
Qed.

(** With an empty cache the list is asked for, and kept if it arrives. *)
Lemma getAllLabels_uncached :
  forall accessToken (st : State W),
    labelCache st = None ->
    let answer := provider ListLabels (GET labels_url accessToken) (world st) in
    getAllLabels provider accessToken st
    = match fst answer with
      | Ok data =>
          mkRun (Return (or_nil (labels data)))
                (mkState (snd answer) (Some (or_nil (labels data))))
                [mkCall ListLabels (GET labels_url accessToken) true]
      | NotOk _ =>
          mkRun (Throw "Failed to fetch labels")
                (mkState (snd answer) None)
                [mkCall ListLabels (GET labels_url accessToken) false]
      | Fails message =>
          mkRun (Throw message)
                (mkState (snd answer) None)
                [mkCall ListLabels (GET labels_url accessToken) false]
      end.
Proof.
  intros accessToken st H answer. subst answer.
  unfold getAllLabels, bind, read_labelCache. simpl. rewrite H.
  unfold fetch.
  destruct (provider ListLabels (GET labels_url accessToken) (world st))
    as [[data|text|message] w];
    simpl; rewrite ?H; reflexivity.
Qed.

(** A name already in the cache resolves without any call. *)
Lemma getOrCreateLabel_hit :
  forall accessToken labelName (st : State W) cached l,
    labelCache st = Some cached ->
    find (same_name labelName) cached = Some l ->
    getOrCreateLabel provider accessToken labelName st
    = mkRun (Return (Label.id l)) st [].
Proof.
  intros accessToken labelName st cached l Hc Hf.
  unfold getOrCreateLabel.
  rewrite (bind_Return _ _ _ (a := cached));
    rewrite (getAllLabels_cached _ _ Hc); [|reflexivity].
  simpl. rewrite Hf. reflexivity.
Qed.

(** A name missing from a populated cache: one create call, and on
    success the new entry goes to the end of the cache. *)
Lemma getOrCreateLabel_miss :
  forall accessToken labelName (st : State W) cached,
    labelCache st = Some cached ->
    find (same_name labelName) cached = None ->
    let request := create_label_request accessToken labelName in
    let answer := provider CreateLabel request (world st) in
    getOrCreateLabel provider accessToken labelName st
    = match fst answer with
      | Ok newLabel =>
          mkRun (Return (Label.id newLabel))
                (mkState (snd answer)
                   (Some (cached ++ [Label.make (Label.id newLabel) (Label.name newLabel)])))
                [mkCall CreateLabel request true]
      | NotOk error =>
          mkRun (Throw ("Failed to create label: " ++ error)%string)
                (mkState (snd answer) (Some cached))
                [mkCall CreateLabel request false]
      | Fails message =>
          mkRun (Throw message)
                (mkState (snd answer) (Some cached))
                [mkCall CreateLabel request false]
      end.
Proof.
  intros accessToken labelName st cached Hc Hf request answer. subst answer request.
  unfold getOrCreateLabel.
  rewrite (bind_Return _ _ _ (a := cached));
    rewrite (getAllLabels_cached _ _ Hc); [|reflexivity].
  simpl. rewrite Hf.
  unfold bind, fetch, read_labelCache, write_labelCache.
  destruct (provider CreateLabel (create_label_request accessToken labelName) (world st))
    as [[newLabel|error|message] w]; simpl; rewrite ?Hc; reflexivity.
Qed.

(** [getOrCreateLabel] is [getAllLabels] followed by the lookup in its result. *)
Lemma getOrCreateLabel_uncached :
  forall accessToken labelName (st : State W),
    labelCache st = None ->
    let listing := getAllLabels provider accessToken st in
    getOrCreateLabel provider accessToken labelName st
    = match value listing with
      | Return _ =>
          let rest := getOrCreateLabel provider accessToken labelName (final listing) in
          mkRun (value rest) (final rest) (issued listing ++ issued rest)
      | Throw message => mkRun (Throw message) (final listing) (issued listing)
      end.
Proof.
  intros accessToken labelName st H listing. subst listing.
  unfold getOrCreateLabel, getAllLabels, bind, read_labelCache, write_labelCache,
    fetch, ret, throw.
  cbn [value final issued]. rewrite H.
  destruct (provider ListLabels (GET labels_url accessToken) (world st)) as [[data|text|message] w];
    cbn [value final issued labelCache world app]; reflexivity.
Qed.

End Resolver.

Lemma calls_to_app :
  forall e cs cs', calls_to e (cs ++ cs') = calls_to e cs ++ calls_to e cs'.
Proof.
  intros e cs cs'. unfold calls_to. apply filter_app.
Qed.

Section ResolverIdempotence.

Variable W : Type.
Variable provider : forall e : endpoint, request -> W -> response (body_of e) * W.
Hypothesis echo : echoes_name provider.

Lemma resolved_populated :
  forall accessToken labelName (st : State W) cached labelId,
    labelCache st = Some cached ->
    value (getOrCreateLabel provider accessToken labelName st) = Return labelId ->
    resolved labelName labelId
             (getOrCreateLabel provider accessToken labelName st).
Proof.
  intros accessToken labelName st cached labelId Hc Hv.
  destruct (find (same_name labelName) cached) as [l|] eqn:Hf.
  - rewrite (getOrCreateLabel_hit provider accessToken labelName st Hc Hf) in *.
    simpl in Hv. injection Hv as Hv.
    exists cached, l. simpl. repeat split; auto.
    intros H. contradiction H. reflexivity.
  - pose proof (getOrCreateLabel_miss provider accessToken labelName st Hc Hf) as E.
    cbv zeta in E. rewrite E in *. clear E.
    destruct (provider CreateLabel (create_label_request accessToken labelName) (world st))
      as [[newLabel|error|message] w] eqn:Ep; simpl in Hv; [|discriminate|discriminate].
    injection Hv as Hv. simpl fst. simpl snd. cbv iota.
    exists (cached ++ [Label.make (Label.id newLabel) (Label.name newLabel)]),
           (Label.make (Label.id newLabel) (Label.name newLabel)).
    simpl. repeat split.
    + rewrite find_append, Hf. simpl.
      change (same_name labelName (Label.make (Label.id newLabel) (Label.name newLabel)))
        with (same_name labelName newLabel).
      rewrite (echo Ep). reflexivity.
    + exact Hv.
    + auto.
    + intros _. exists cached, (Label.name newLabel). rewrite <- Hv. split; auto.
Qed.

Lemma resolved_always :
  forall accessToken labelName (st : State W) labelId,
    value (getOrCreateLabel provider accessToken labelName st) = Return labelId ->
    resolved labelName labelId
             (getOrCreateLabel provider accessToken labelName st).
Proof.
  intros accessToken labelName st labelId Hv.
  destruct (labelCache st) as [cached|] eqn:Hc.
  - exact (resolved_populated accessToken labelName st Hc Hv).
  - pose proof (getOrCreateLabel_uncached provider accessToken labelName st Hc) as E.
    cbv zeta in E.
    pose proof (getAllLabels_uncached provider accessToken st Hc) as L.
    cbv zeta in L.
    destruct (provider ListLabels (GET labels_url accessToken) (world st))
      as [[data|text|message] w]; simpl fst in L; simpl snd in L; cbv iota in L;
      rewrite L in E; simpl in E; rewrite E in *; clear E L; simpl in Hv;
      [|discriminate|discriminate].
    destruct (resolved_populated accessToken labelName
                (mkState w (Some (or_nil (labels data)))) eq_refl Hv)
      as (cached & l & H1 & H2 & H3 & H4 & H5).
    exists cached, l. simpl. repeat split; auto.
Qed.

End ResolverIdempotence.


Lemma mock_echoes_name : echoes_name Mock.provider.
Proof.
  intros accessToken labelName w l w' H. simpl in H. injection H as <- _.
  unfold same_name. simpl. apply String.eqb_refl.
Qed.


(* ================================================================== *)
(** * Properties kept by every step of the edge function *)

Section Invariants.

Variable W : Type.
Variable provider : forall e : endpoint, request -> W -> response (body_of e) * W.
Variable ANTHROPIC_API_KEY : option string.

Variable R : State W -> list call -> State W -> Prop.
Hypothesis R_refl : forall st, R st [] st.
Hypothesis R_trans :
  forall s1 c1 s2 c2 s3, R s1 c1 s2 -> R s2 c2 s3 -> R s1 (c1 ++ c2) s3.

Lemma respects_ret : forall A (a : A), respects R (ret (W := W) a).
Proof. intros A a st. apply R_refl. Qed.

Lemma respects_throw : forall A message, respects R (throw (W := W) (A := A) message).
Proof. intros A message st. apply R_refl. Qed.

Lemma respects_bind :
  forall A B (m : M W A) (k : A -> M W B),
    respects R m -> (forall a, respects R (k a)) -> respects R (bind m k).
Proof.
  intros A B m k Hm Hk st. unfold bind.
  destruct (value (m st)) as [a|message]; simpl.
  - eapply R_trans; [apply Hm|apply Hk].
  - apply Hm.
Qed.

Lemma respects_try_catch :
  forall A (m : M W A) (handler : string -> M W A),
    respects R m -> (forall message, respects R (handler message)) ->
    respects R (try_catch m handler).
Proof.
  intros A m handler Hm Hh st. unfold try_catch.
  destruct (value (m st)) as [a|message]; simpl.
  - apply Hm.
  - eapply R_trans; [apply Hm|apply Hh].
Qed.

(** The calls whose effect on [R] depends on what [R] is. *)
Hypothesis R_list_messages :
  forall r, respects R (fetch provider ListMessages r).
Hypothesis R_get_message :
  forall r, respects R (fetch provider GetMessage r).
Hypothesis R_completion :
  forall r, respects R (fetch provider CreateCompletion r).
Hypothesis R_modify :
  forall accessToken messageId labelId,
    respects R (fetch provider ModifyMessage (modify_request accessToken messageId labelId)).
Hypothesis R_resolve :
  forall accessToken labelName,
    respects R (getOrCreateLabel provider accessToken labelName).

Ltac respects_step :=
  match goal with
  | |- respects _ (bind _ _) => apply respects_bind; [|intros ?]
  | |- respects _ (try_catch _ _) => apply respects_try_catch; [|intros ?]
  | |- respects _ (ret _) => apply respects_ret
  | |- respects _ (throw _) => apply respects_throw
  | |- respects _ (fetch _ ListMessages _) => apply R_list_messages
  | |- respects _ (fetch _ GetMessage _) => apply R_get_message
  | |- respects _ (fetch _ CreateCompletion _) => apply R_completion
  | |- respects _ (fetch _ ModifyMessage _) => apply R_modify
  | |- respects _ (getOrCreateLabel _ _ _) => apply R_resolve
  | |- respects _ (match ?x with _ => _ end) => destruct x
  end.

Lemma hydrate_respects :
  forall accessToken messages emails,
    respects R (hydrate provider accessToken messages emails).
Proof.
  intros accessToken messages.
  induction messages as [|msg rest IH]; intros emails; simpl.
  - apply respects_ret.
  - repeat respects_step; apply IH.
Qed.

Lemma fetchEmails_respects :
  forall accessToken section pageToken,
    respects R (fetchEmails provider accessToken section pageToken).
Proof.
  intros. unfold fetchEmails. repeat respects_step. apply hydrate_respects.
Qed.

Lemma classifyEmail_respects :
  forall email, respects R (classifyEmail provider ANTHROPIC_API_KEY email).
Proof.
  intros. unfold classifyEmail. repeat respects_step.
Qed.

Lemma applyLabel_respects :
  forall accessToken messageId labelId,
    respects R (applyLabel provider accessToken messageId labelId).
Proof.
  intros. unfold applyLabel. repeat respects_step.
Qed.

Lemma processEmail_respects :
  forall accessToken email,
    respects R (processEmail provider ANTHROPIC_API_KEY accessToken email).
Proof.
  intros. unfold processEmail, label_name.
  repeat first [ apply classifyEmail_respects | apply applyLabel_respects
               | respects_step ].
Qed.

Lemma processAll_respects :
  forall accessToken emails v,
    respects R (processAll provider ANTHROPIC_API_KEY accessToken emails v).
Proof.
  intros accessToken emails.
  induction emails as [|email rest IH]; intros v; simpl.
  - apply respects_ret.
  - repeat first [ apply processEmail_respects | apply IH | respects_step ].
Qed.

Lemma processBatch_respects :
  forall req, respects R (processBatch provider ANTHROPIC_API_KEY req).
Proof.
  intros. unfold processBatch.
  repeat first [ apply fetchEmails_respects | apply processAll_respects
               | respects_step ].
Qed.

Lemma serve_respects :
  forall req, respects R (serve provider ANTHROPIC_API_KEY req).
Proof.
  intros. unfold serve.
  repeat first [ apply processBatch_respects | respects_step ].
Qed.

Lemma serve_all_respects :
  forall reqs, respects R (serve_all provider ANTHROPIC_API_KEY reqs).
Proof.
  induction reqs as [|req rest IH]; simpl.
  - apply respects_ret.
  - repeat first [ apply serve_respects | apply IH | respects_step ].
Qed.

End Invariants.

(* ================================================================== *)
(** * The label cache across invocations *)

Section Memoization.

Variable W : Type.
Variable provider : forall e : endpoint, request -> W -> response (body_of e) * W.
Variable ANTHROPIC_API_KEY : option string.

Lemma memoizes_refl : forall st : State W, memoizes st [] st.
Proof.
  intros st. repeat split; auto.
  intros cached H. exists []. rewrite app_nil_r. exact H.
Qed.

Lemma label_fetches_app :
  forall cs cs', label_fetches (cs ++ cs') = label_fetches cs + label_fetches cs'.
Proof.
  intros cs cs'. unfold label_fetches.
  rewrite calls_to_app, filter_app, length_app. reflexivity.
Qed.

Lemma memoizes_trans :
  forall (s1 : State W) c1 s2 c2 s3,
    memoizes s1 c1 s2 -> memoizes s2 c2 s3 -> memoizes s1 (c1 ++ c2) s3.
Proof.
  intros s1 c1 s2 c2 s3 (A1 & B1 & C1) (A2 & B2 & C2).
  split; [|split].
  - rewrite label_fetches_app. lia.
  - intros H. rewrite calls_to_app.
    assert (H2 : populated s2 = 1).
    { unfold populated in *. destruct (labelCache s1) as [cached|]; [|discriminate].
      destruct (C1 cached eq_refl) as [extra E]. rewrite E. reflexivity. }
    rewrite (B1 H), (B2 H2). reflexivity.
  - intros cached H. destruct (C1 cached H) as [extra1 E1].
    destruct (C2 _ E1) as [extra2 E2].
    exists (extra1 ++ extra2). rewrite E2, app_assoc. reflexivity.
Qed.

(** A call to any endpoint but the label list leaves the cache alone. *)
Lemma memoizes_fetch :
  forall e r, e <> ListLabels -> respects memoizes (fetch provider e r).
Proof.
  intros e r He st. rewrite fetch_final, fetch_issued.
  split; [|split].
  - unfold label_fetches, populated. simpl. destruct e; try contradiction; reflexivity.
  - intros _. destruct e; try contradiction; reflexivity.
  - intros cached H. exists []. simpl. rewrite app_nil_r. exact H.
Qed.

Lemma memoizes_resolve_populated :
  forall accessToken labelName (st : State W) cached,
    labelCache st = Some cached ->
    let r := getOrCreateLabel provider accessToken labelName st in
    memoizes st (issued r) (final r).
Proof.
  intros accessToken labelName st cached Hc r. subst r.
  destruct (find (same_name labelName) cached) as [l|] eqn:Hf.
  - rewrite (getOrCreateLabel_hit provider accessToken labelName st Hc Hf).
    apply memoizes_refl.
  - pose proof (getOrCreateLabel_miss provider accessToken labelName st Hc Hf) as E.
    cbv zeta in E. rewrite E. clear E.
    destruct (provider CreateLabel (create_label_request accessToken labelName) (world st))
      as [[newLabel|error|message] w]; simpl; (split; [|split]).
    + unfold label_fetches, populated. simpl. rewrite Hc. reflexivity.
    + reflexivity.
    + intros cached' H. rewrite Hc in H. injection H as <-. eexists. reflexivity.
    + unfold label_fetches, populated. simpl. rewrite Hc. reflexivity.
    + reflexivity.
    + intros cached' H. rewrite Hc in H. injection H as <-.
      exists []. rewrite app_nil_r. reflexivity.
    + unfold label_fetches, populated. simpl. rewrite Hc. reflexivity.
    + reflexivity.
    + intros cached' H. rewrite Hc in H. injection H as <-.
      exists []. rewrite app_nil_r. reflexivity.
Qed.

Lemma memoizes_resolve :
  forall accessToken labelName,
    respects memoizes (getOrCreateLabel provider accessToken labelName).
Proof.
  intros accessToken labelName st.
  destruct (labelCache st) as [cached|] eqn:Hc.
  - exact (memoizes_resolve_populated accessToken labelName st Hc).
  - pose proof (getOrCreateLabel_uncached provider accessToken labelName st Hc) as E.
    cbv zeta in E.
    pose proof (getAllLabels_uncached provider accessToken st Hc) as L.
    cbv zeta in L.
    destruct (provider ListLabels (GET labels_url accessToken) (world st))
      as [[data|text|message] w]; simpl fst in L; simpl snd in L; cbv iota in L;
      rewrite L in E; simpl in E; rewrite E; clear E L; simpl.
    + pose proof (memoizes_resolve_populated accessToken labelName
                    (mkState w (Some (or_nil (labels data)))) eq_refl) as P.
      cbv zeta in P.
      change (?c :: issued ?r) with ([c] ++ issued r).
      eapply memoizes_trans; [|exact P].
      split; [|split].
      * unfold label_fetches, populated. simpl. rewrite Hc. reflexivity.
      * unfold populated. rewrite Hc. discriminate.
      * intros cached H. congruence.
    + split; [|split].
      * unfold label_fetches, populated. simpl. rewrite Hc. reflexivity.
      * unfold populated. rewrite Hc. discriminate.
      * intros cached H. congruence.
    + split; [|split].
      * unfold label_fetches, populated. simpl. rewrite Hc. reflexivity.
      * unfold populated. rewrite Hc. discriminate.
      * intros cached H. congruence.
Qed.

Lemma serve_all_memoizes :
  forall reqs, respects memoizes (serve_all provider ANTHROPIC_API_KEY reqs).
Proof.
  intros reqs.
  apply serve_all_respects;
    try (intros; apply memoizes_fetch; discriminate).
  - exact memoizes_refl.
  - exact memoizes_trans.
  - exact memoizes_resolve.
Qed.

End Memoization.




(* ================================================================== *)
(** * What a label-apply call asks the provider to do *)

Section AddOnly.

Variable W : Type.
Variable provider : forall e : endpoint, request -> W -> response (body_of e) * W.
Variable ANTHROPIC_API_KEY : option string.

Lemma modify_request_adds_one :
  forall accessToken messageId labelId flag,
    adds_one_label (mkCall ModifyMessage (modify_request accessToken messageId labelId) flag).
Proof.
  intros accessToken messageId labelId flag _. exists labelId.
  repeat split; try reflexivity; intros [].
Qed.

Lemma other_calls_add_nothing :
  forall e r flag, e <> ModifyMessage -> adds_one_label (mkCall e r flag).
Proof.
  intros e r flag He H. simpl in H. contradiction.
Qed.

Lemma only_adds_fetch :
  forall e r, e <> ModifyMessage -> respects only_adds (fetch provider e r).
Proof.
  intros e r He st. unfold only_adds. rewrite fetch_issued.
  constructor; [|constructor]. apply other_calls_add_nothing. exact He.
Qed.

Lemma only_adds_modify :
  forall accessToken messageId labelId,
    respects only_adds
      (fetch provider ModifyMessage (modify_request accessToken messageId labelId)).
Proof.
  intros accessToken messageId labelId st. unfold only_adds. rewrite fetch_issued.
  constructor; [|constructor]. apply modify_request_adds_one.
Qed.

(** The resolver only talks to the label endpoints. *)
Lemma getOrCreateLabel_calls :
  forall accessToken labelName (st : State W),
    Forall (fun c => target c = ListLabels \/ target c = CreateLabel)
           (issued (getOrCreateLabel provider accessToken labelName st)).
Proof.
  assert (P : forall accessToken labelName (st : State W) cached,
             labelCache st = Some cached ->
             Forall (fun c => target c = ListLabels \/ target c = CreateLabel)
                    (issued (getOrCreateLabel provider accessToken labelName st))).
  { intros accessToken labelName st cached Hc.
    destruct (find (same_name labelName) cached) as [l|] eqn:Hf.
    - rewrite (getOrCreateLabel_hit provider accessToken labelName st Hc Hf).
      constructor.
    - pose proof (getOrCreateLabel_miss provider accessToken labelName st Hc Hf) as E.
      cbv zeta in E. rewrite E. clear E.
      destruct (provider CreateLabel (create_label_request accessToken labelName) (world st))
        as [[newLabel|error|message] w]; simpl; repeat constructor; right; reflexivity. }
  intros accessToken labelName st.
  destruct (labelCache st) as [cached|] eqn:Hc.
  - exact (P accessToken labelName st cached Hc).
  - pose proof (getOrCreateLabel_uncached provider accessToken labelName st Hc) as E.
    cbv zeta in E.
    pose proof (getAllLabels_uncached provider accessToken st Hc) as L.
    cbv zeta in L.
    destruct (provider ListLabels (GET labels_url accessToken) (world st))
      as [[data|text|message] w]; simpl fst in L; simpl snd in L; cbv iota in L;
      rewrite L in E; simpl in E; rewrite E; clear E L; simpl.
    + constructor; [left; reflexivity|].
      exact (P accessToken labelName (mkState w (Some (or_nil (labels data)))) _ eq_refl).
    + repeat constructor.
    + repeat constructor.
Qed.

Lemma only_adds_resolve :
  forall accessToken labelName,
    respects only_adds (getOrCreateLabel provider accessToken labelName).
Proof.
  intros accessToken labelName st. unfold only_adds.
  eapply Forall_impl; [|apply getOrCreateLabel_calls].
  intros [e r flag] [H|H] H'; simpl in *; congruence.
Qed.

Lemma serve_all_only_adds :
  forall reqs, respects only_adds (serve_all provider ANTHROPIC_API_KEY reqs).
Proof.
  intros reqs.
  apply serve_all_respects;
    try (intros; apply only_adds_fetch; discriminate).
  - intros st. constructor.
  - intros s1 c1 s2 c2 s3 H1 H2. apply Forall_app. split; assumption.
  - exact only_adds_modify.
  - exact only_adds_resolve.
Qed.

End AddOnly.

(** C7. [applyLabel] issues exactly one call, a modify request whose
    body is [{ addLabelIds: [labelId] }]: it adds the one label it was
    given and has no removal list, so neither INBOX nor UNREAD is listed for
    removal; and every modify call issued by any sequence of invocations of
    the edge function has that shape. *)
Theorem applyLabel_only_adds :
  forall W (provider : forall e, request -> W -> response (body_of e) * W),
    (forall accessToken messageId labelId (st : State W),
        let r := applyLabel provider accessToken messageId labelId st in
        exists flag,
          issued r = [mkCall ModifyMessage (modify_request accessToken messageId labelId) flag] /\
          body (modify_request accessToken messageId labelId)
          = Some (JObj [("addLabelIds", JArr [JStr labelId])]) /\
          additions (modify_request accessToken messageId labelId) = [JStr labelId] /\
          removals (modify_request accessToken messageId labelId) = [] /\
          Json.field "removeLabelIds" (body (modify_request accessToken messageId labelId)) = None /\
          labelCache (final r) = labelCache st)
    /\
    (forall ANTHROPIC_API_KEY reqs (st : State W),
        Forall adds_one_label (issued (serve_all provider ANTHROPIC_API_KEY reqs st))).
Proof.
  intros W provider. split.
  - intros accessToken messageId labelId st r. subst r.
    unfold applyLabel, bind.
    rewrite fetch_value, fetch_final, fetch_issued.
    destruct (provider ModifyMessage (modify_request accessToken messageId labelId) (world st))
      as [[u|error|message] w]; simpl; eexists; repeat split; reflexivity.
  - intros KEY reqs st. exact (serve_all_only_adds provider KEY reqs st).
Qed.

(* ================================================================== *)
(** * Accounting of one batch *)

Section Batch.

Variable W : Type.
Variable provider : forall e : endpoint, request -> W -> response (body_of e) * W.
Variable ANTHROPIC_API_KEY : option string.

(** One turn of the message loop: the [try] block runs once, and the
    loop goes on from wherever it stopped. *)
Lemma attempt_run :
  forall accessToken email v (st : State W),
    let attempt := processEmail provider ANTHROPIC_API_KEY accessToken email st in
    let turn :=
      try_catch
        (bind (processEmail provider ANTHROPIC_API_KEY accessToken email)
              (fun label => ret (mkLocals (results v ++ [(email, label)])
                                          (errors v) (skipped v))))
        (fun _ => ret (mkLocals (results v) (errors v + 1) (skipped v))) st in
    value turn
    = Return (match value attempt with
              | Return label =>
                  mkLocals (results v ++ [(email, label)]) (errors v) (skipped v)
              | Throw _ => mkLocals (results v) (errors v + 1) (skipped v)
              end) /\
    final turn = final attempt.
Proof.
  intros accessToken email v st attempt turn. subst turn attempt.
  unfold try_catch, bind.
  destruct (value (processEmail provider ANTHROPIC_API_KEY accessToken email st)); simpl; split; reflexivity.
Qed.

Lemma attempts_cover :
  forall accessToken emails (st : State W),
    map fst (attempts provider ANTHROPIC_API_KEY accessToken emails st) = emails.
Proof.
  intros accessToken emails.
  induction emails as [|email rest IH]; intros st; simpl.
  - reflexivity.
  - rewrite IH. reflexivity.
Qed.

Lemma attempts_split :
  forall os : list (Email.t * outcome string),
    length (returned os) + count_thrown os = length os.
Proof.
  unfold count_thrown.
  induction os as [|[email [label|message]] os IH]; simpl; lia.
Qed.

(** The loop's counters are a function of the per-message outcomes. *)
Lemma processAll_accounts :
  forall accessToken emails v (st : State W),
    let os := attempts provider ANTHROPIC_API_KEY accessToken emails st in
    value (processAll provider ANTHROPIC_API_KEY accessToken emails v st)
    = Return (mkLocals (results v ++ returned os)
                       (errors v + Z.of_nat (count_thrown os))
                       (skipped v)).
Proof.
  intros accessToken emails.
  induction emails as [|email rest IH]; intros v st os; subst os.
  - simpl. unfold count_thrown. simpl.
    rewrite app_nil_r, Z.add_0_r. destruct v; reflexivity.
  - destruct (attempt_run accessToken email v st) as [Hv Hf].
    cbv zeta in Hv, Hf.
    cbn [processAll attempts].
    rewrite (bind_Return _ _ _ Hv). cbn [value]. rewrite Hf.
    rewrite IH. f_equal.
    unfold count_thrown.
    destruct (value (processEmail provider ANTHROPIC_API_KEY accessToken email st)) as [label|message];
      cbn [results errors skipped returned filter threw snd length].
    + rewrite <- app_assoc. reflexivity.
    + f_equal. lia.
Qed.

(** The loop asks for the listed messages in order and stops after the
    first call that throws. *)
Lemma hydrations_prefix :
  forall accessToken messages (w : W),
    exists later,
      messages = map fst (hydrations provider accessToken messages w) ++ later.
Proof.
  intros accessToken messages.
  induction messages as [|msg rest IH]; intros w; cbn [hydrations].
  - exists []. reflexivity.
  - destruct (provider GetMessage (GET (detail_url msg) accessToken) w) as [resp w'].
    destruct (IH w') as [later E].
    destruct resp as [detail|text|message]; cbn [map fst app].
    + exists later. rewrite <- E. reflexivity.
    + exists later. rewrite <- E. reflexivity.
    + exists rest. reflexivity.
Qed.

Lemma hydrations_cover :
  forall accessToken messages (w : W),
    thrown (hydrations provider accessToken messages w) = None ->
    map fst (hydrations provider accessToken messages w) = messages.
Proof.
  intros accessToken messages.
  induction messages as [|msg rest IH]; intros w; cbn [hydrations].
  - reflexivity.
  - destruct (provider GetMessage (GET (detail_url msg) accessToken) w) as [resp w'].
    destruct resp as [detail|text|message]; cbn [map fst thrown]; intros H.
    + rewrite (IH w' H). reflexivity.
    + rewrite (IH w' H). reflexivity.
    + discriminate.
Qed.

Lemma hydrations_split :
  forall hs : list (string * response Detail),
    length (hydrated hs) + count_failed hs = length hs.
Proof.
  unfold count_failed.
  induction hs as [|[msg [detail|text|message]] hs IH]; simpl; lia.
Qed.

(** [emails] ends up holding the successfully hydrated messages, in
    order, and nothing is recorded about those answered not ok; a call that
    throws ends the loop, and [fetchEmails], with its exception. *)
Lemma hydrate_value :
  forall accessToken messages emails (st : State W),
    let hs := hydrations provider accessToken messages (world st) in
    value (hydrate provider accessToken messages emails st)
    = match thrown hs with
      | Some message => Throw message
      | None => Return (emails ++ hydrated hs)
      end.
Proof.
  intros accessToken messages.
  induction messages as [|msg rest IH]; intros emails st; cbn zeta;
    cbn [hydrate hydrations].
  - simpl. rewrite app_nil_r. reflexivity.
  - destruct (provider GetMessage (GET (detail_url msg) accessToken) (world st))
      as [resp w'] eqn:E.
    unfold bind. rewrite (fetch_eq provider _ _ st E). cbn [value final].
    destruct resp as [detail|text|message]; cbn [hydrated thrown].
    + specialize (IH (emails ++ [email_of_detail detail]) (mkState w' (labelCache st))).
      cbn zeta in IH. cbn [world] in IH. rewrite IH.
      destruct (thrown (hydrations provider accessToken rest w')); [reflexivity|].
      rewrite <- app_assoc. reflexivity.
    + specialize (IH emails (mkState w' (labelCache st))).
      cbn zeta in IH. cbn [world] in IH. rewrite IH. reflexivity.
    + reflexivity.
Qed.

Lemma fetchEmails_value :
  forall accessToken section pageToken (st : State W) listData w,
    provider ListMessages (GET (list_url section pageToken) accessToken) (world st)
    = (Ok listData, w) ->
    let hs := hydrations provider accessToken (or_nil (messages listData)) w in
    value (fetchEmails provider accessToken section pageToken st)
    = match thrown hs with
      | Some message => Throw message
      | None => Return (hydrated hs, Http.nextPageToken listData)
      end.
Proof.
  intros accessToken section pageToken st listData w H hs. subst hs.
  unfold fetchEmails.
  rewrite (bind_Return _ _ _ (fetch_value provider _ _ st)). cbn [value].
  rewrite fetch_final, H. cbn [fst snd].
  pose proof (hydrate_value accessToken (or_nil (messages listData)) []
                (mkState w (labelCache st))) as Hh.
  cbn zeta in Hh. cbn [world] in Hh.
  destruct (thrown (hydrations provider accessToken (or_nil (messages listData)) w)).
  - rewrite (bind_Throw _ _ _ Hh). reflexivity.
  - rewrite (bind_Return _ _ _ Hh). reflexivity.
Qed.

Lemma fetchEmails_hydrated :
  forall accessToken section pageToken (st : State W) listData w,
    provider ListMessages (GET (list_url section pageToken) accessToken) (world st)
    = (Ok listData, w) ->
    thrown (hydrations provider accessToken (or_nil (messages listData)) w) = None ->
    value (fetchEmails provider accessToken section pageToken st)
    = Return (hydrated (hydrations provider accessToken (or_nil (messages listData)) w),
              Http.nextPageToken listData).
Proof.
  intros accessToken section pageToken st listData w H Hn.
  rewrite (fetchEmails_value _ _ _ H).
  cbv zeta. rewrite Hn. reflexivity.
Qed.

(** Without an access token nothing is attempted, whether the body could
    not be read or carried none. *)
Lemma processBatch_without_token :
  forall req (st : State W),
    JsString.truthy (or_empty (ServeRequest.accessToken req)) = false ->
    processBatch provider ANTHROPIC_API_KEY req st
    = mkRun (Throw match ServeRequest.read req with
                   | ServeRequest.Parsed _ => "Access token is required"
                   | ServeRequest.Unreadable message => message
                   end) st [].
Proof.
  intros req st H. unfold processBatch.
  destruct (ServeRequest.read req) as [body|message] eqn:Hr; [|reflexivity].
  destruct (ServeRequest.accessToken req) as [accessToken|]; [|reflexivity].
  cbn [or_empty] in H. rewrite H. reflexivity.
Qed.

(** The payload of a batch whose first stage succeeded. *)
Lemma serve_payload :
  forall req accessToken (st : State W) emails nextPageToken,
    ServeRequest.method req <> "OPTIONS" ->
    ServeRequest.accessToken req = Some accessToken ->
    JsString.truthy accessToken = true ->
    let fetched := fetchEmails provider accessToken (section_of req)
                               (ServeRequest.pageToken req) st in
    value fetched = Return (emails, nextPageToken) ->
    let os := attempts provider ANTHROPIC_API_KEY accessToken emails (final fetched) in
    value (serve provider ANTHROPIC_API_KEY req st)
    = Return (Json 200 (Success
               (ProcessingResult.make
                  (Z.of_nat (length emails))
                  (Z.of_nat (length (returned os)))
                  0
                  (Z.of_nat (count_thrown os))
                  (returned os)
                  nextPageToken))).
Proof.
  intros req accessToken st emails nextPageToken Hm Ht Htruthy fetched Hf os.
  unfold serve. apply String.eqb_neq in Hm. rewrite Hm.
  assert (E : value (processBatch provider ANTHROPIC_API_KEY req st)
              = Return (ProcessingResult.make
                          (Z.of_nat (length emails))
                          (Z.of_nat (length (returned os)))
                          0
                          (Z.of_nat (count_thrown os))
                          (returned os)
                          nextPageToken)).
  { unfold processBatch. rewrite (read_parsed _ Ht), Ht, Htruthy. cbn [negb].
    fold (section_of req). fold fetched.
    rewrite (bind_Return _ _ _ Hf). cbn [value].
    rewrite (bind_Return _ _ _ (processAll_accounts _ _ _ _)). reflexivity. }
  unfold try_catch.
  rewrite (bind_Return _ _ _ E). reflexivity.
Qed.

(** A batch whose first stage failed answers with an error payload. *)
Lemma serve_rejects :
  forall req (st : State W) message,
    ServeRequest.method req <> "OPTIONS" ->
    value (processBatch provider ANTHROPIC_API_KEY req st) = Throw message ->
    value (serve provider ANTHROPIC_API_KEY req st) = Return (Json 400 (Failure message)).
Proof.
  intros req st message Hm E.
  unfold serve. apply String.eqb_neq in Hm. rewrite Hm.
  unfold try_catch. rewrite (bind_Throw _ _ _ E). reflexivity.
Qed.

End Batch.

Lemma returned_attempted :
  forall (os : list (Email.t * outcome string)) x,
    In x (returned os) -> In (fst x) (map fst os).
Proof.
  induction os as [|[email [label|message]] os IH]; simpl; intros x H.
  - contradiction.
  - destruct H as [H|H]; [left; subst x; reflexivity|right; apply IH; exact H].
  - right. apply IH. exact H.
Qed.

(** C3. In a batch whose first stage delivered N hydrated messages, of
    which K make the classify/resolve/apply block throw, every one of the
    N messages is attempted in order, and the success payload has
    [errors = K], [processed = N - K], [results.length = processed], with
    [results] holding exactly the messages that did not throw. *)
Theorem serve_counts_errors :
  forall W (provider : forall e, request -> W -> response (body_of e) * W)
         ANTHROPIC_API_KEY req accessToken (st : State W) emails nextPageToken,
    ServeRequest.method req <> "OPTIONS" ->
    ServeRequest.accessToken req = Some accessToken ->
    JsString.truthy accessToken = true ->
    let fetched := fetchEmails provider accessToken (section_of req)
                               (ServeRequest.pageToken req) st in
    value fetched = Return (emails, nextPageToken) ->
    let os := attempts provider ANTHROPIC_API_KEY accessToken emails (final fetched) in
    let N := Z.of_nat (length emails) in
    let K := Z.of_nat (count_thrown os) in
    map fst os = emails /\
    exists r,
      value (serve provider ANTHROPIC_API_KEY req st) = Return (Json 200 (Success r)) /\
      ProcessingResult.total r = N /\
      ProcessingResult.errors r = K /\
      ProcessingResult.processed r = (N - K)%Z /\
      Z.of_nat (length (ProcessingResult.results r)) = ProcessingResult.processed r /\
      ProcessingResult.results r = returned os.
Proof.
  intros W provider KEY req accessToken st emails nextPageToken Hm Ht Htruthy
         fetched Hf os N K.
  split; [apply attempts_cover|].
  eexists. split; [exact (serve_payload provider KEY req st Hm Ht Htruthy Hf)|].
  cbn [ProcessingResult.total ProcessingResult.errors ProcessingResult.processed
       ProcessingResult.results].
  fold os.
  assert (H : length (returned os) + count_thrown os = length emails).
  { rewrite attempts_split. rewrite <- (attempts_cover provider KEY accessToken emails (final fetched)).
    fold os. rewrite length_map. reflexivity. }
  subst N K. unfold os, fetched in *. repeat split; try reflexivity. lia.
Qed.

Lemma serve_counts_errors_witness :
  let st := Mock.fresh [NotOk "overloaded"; Mock.says " receipt "] in
  let req := Mock.request "inbox" in
  exists r,
    value (serve Mock.provider (Some "key") req st) = Return (Json 200 (Success r)) /\
    ProcessingResult.total r = 2%Z /\
    ProcessingResult.errors r = 1%Z /\
    ProcessingResult.processed r = 1%Z /\
    Z.of_nat (length (ProcessingResult.results r)) = 1%Z /\
    map (fun x => (Email.id (fst x), snd x)) (ProcessingResult.results r)
    = [("m3", "RECEIPT")].
Proof.
  intros st req.
  destruct (@serve_counts_errors Mock.World Mock.provider (Some "key") req "token" st
              [email_of_detail (Mock.detail "m1" "Your invoice");
               email_of_detail (Mock.detail "m3" "Hello")]
              (Some "A"))
    as (_ & r & Hv & Ht & He & Hp & Hl & Hr).
  - discriminate.
  - reflexivity.
  - reflexivity.
  - vm_compute. reflexivity.
  - exists r. split; [exact Hv|].
    split; [rewrite Ht; reflexivity|].
    split; [rewrite He; vm_compute; reflexivity|].
    split; [rewrite Hp; vm_compute; reflexivity|].
    split; [rewrite Hl, Hp; vm_compute; reflexivity|].
    rewrite Hr. vm_compute. reflexivity.
Defined.

(** X21. In a batch whose detail calls all come back, a listed message
    whose detail call is answered not ok is dropped without a trace:
    [total] counts only the messages that were hydrated, the error counter
    counts only hydrated messages whose processing threw, and [results]
    holds only hydrated messages. *)
Theorem not_ok_hydrations_are_dropped :
  forall W (provider : forall e, request -> W -> response (body_of e) * W)
         ANTHROPIC_API_KEY req accessToken (st : State W) listData w,
    ServeRequest.method req <> "OPTIONS" ->
    ServeRequest.accessToken req = Some accessToken ->
    JsString.truthy accessToken = true ->
    provider ListMessages
             (GET (list_url (section_of req) (ServeRequest.pageToken req)) accessToken)
             (world st)
    = (Ok listData, w) ->
    let listed := or_nil (messages listData) in
    let hs := hydrations provider accessToken listed w in
    thrown hs = None ->
    let fetched := fetchEmails provider accessToken (section_of req)
                               (ServeRequest.pageToken req) st in
    let os := attempts provider ANTHROPIC_API_KEY accessToken (hydrated hs) (final fetched) in
    map fst hs = listed /\
    value fetched = Return (hydrated hs, Http.nextPageToken listData) /\
    exists r,
      value (serve provider ANTHROPIC_API_KEY req st) = Return (Json 200 (Success r)) /\
      ProcessingResult.total r = Z.of_nat (length (hydrated hs)) /\
      ProcessingResult.total r = (Z.of_nat (length listed) - Z.of_nat (count_failed hs))%Z /\
      ProcessingResult.errors r = Z.of_nat (count_thrown os) /\
      (ProcessingResult.processed r + ProcessingResult.errors r)%Z = ProcessingResult.total r /\
      ProcessingResult.results r = returned os /\
      (forall x, In x (ProcessingResult.results r) -> In (fst x) (hydrated hs)).
Proof.
  intros W provider KEY req accessToken st listData w Hm Ht Htruthy Hl
         listed hs Hn fetched os.
  pose proof (fetchEmails_hydrated provider accessToken (section_of req)
                (ServeRequest.pageToken req) st Hl Hn) as Hf.
  fold listed in Hf. fold hs in Hf. fold fetched in Hf.
  split; [exact (hydrations_cover provider accessToken listed w Hn)|]. split; [exact Hf|].
  eexists. split; [exact (serve_payload provider KEY req st Hm Ht Htruthy Hf)|].
  cbn [ProcessingResult.total ProcessingResult.errors ProcessingResult.processed
       ProcessingResult.results].
  fold os.
  pose proof (hydrations_split hs) as H1.
  assert (H2 : length hs = length listed).
  { rewrite <- (hydrations_cover provider accessToken listed w Hn).
    fold hs. rewrite length_map. reflexivity. }
  pose proof (attempts_split os) as H3.
  pose proof (f_equal (@length _)
                (attempts_cover provider KEY accessToken (hydrated hs) (final fetched))) as H4.
  rewrite length_map in H4.
  unfold os, fetched, hs, listed in *.
  repeat split; try reflexivity; try lia.
  intros x Hx. apply returned_attempted in Hx.
  rewrite attempts_cover in Hx. exact Hx.
Qed.

Lemma not_ok_hydrations_are_dropped_witness :
  let st := Mock.fresh [Mock.says " receipt "; NotOk "overloaded"] in
  let req := Mock.request "all" in
  exists r,
    value (serve Mock.provider (Some "key") req st) = Return (Json 200 (Success r)) /\
    ProcessingResult.total r = 2%Z /\
    ProcessingResult.errors r = 1%Z /\
    ProcessingResult.processed r = 1%Z /\
    map (fun x => Email.id (fst x)) (ProcessingResult.results r) = ["m1"].
Proof.
  intros st req.
  destruct (@not_ok_hydrations_are_dropped Mock.World Mock.provider (Some "key") req
              "token" st (mkMessageList (Some ["m1"; "m2"; "m3"]) (Some "A"))
              (Mock.mkWorld [Mock.says " receipt "; NotOk "overloaded"] 0))
    as (_ & _ & r & Hv & Ht & _ & He & Hp & Hr & _).
  - discriminate.
  - reflexivity.
  - reflexivity.
  - reflexivity.
  - reflexivity.
  - exists r. split; [exact Hv|].
    assert (T : ProcessingResult.total r = 2%Z) by (rewrite Ht; vm_compute; reflexivity).
    assert (E : ProcessingResult.errors r = 1%Z) by (rewrite He; vm_compute; reflexivity).
    split; [exact T|]. split; [exact E|].
    split; [rewrite T, E in Hp; lia|].
    rewrite Hr. vm_compute. reflexivity.
Defined.

(** C10. Whatever the request, the state of the process and the
    behaviour of the provider, a success payload has [skipped = 0]. *)
Theorem serve_never_skips :
  forall W (provider : forall e, request -> W -> response (body_of e) * W)
         ANTHROPIC_API_KEY req (st : State W) status r,
    value (serve provider ANTHROPIC_API_KEY req st) = Return (Json status (Success r)) ->
    ProcessingResult.skipped r = 0%Z.
Proof.
  intros W provider KEY req st status r H.
  destruct (String.eqb_spec (ServeRequest.method req) "OPTIONS") as [Hm|Hm].
  { unfold serve in H. apply String.eqb_eq in Hm. rewrite Hm in H. discriminate. }
  assert (Rej : forall message,
             value (processBatch provider KEY req st) = Throw message -> False).
  { intros message E. rewrite (serve_rejects provider KEY req st Hm E) in H. discriminate. }
  destruct (ServeRequest.accessToken req) as [accessToken|] eqn:Ht.
  2:{ exfalso. eapply Rej.
      rewrite (processBatch_without_token provider KEY req st)
        by (rewrite Ht; reflexivity).
      reflexivity. }
  destruct (JsString.truthy accessToken) eqn:Htruthy.
  2:{ exfalso. eapply Rej.
      rewrite (processBatch_without_token provider KEY req st)
        by (rewrite Ht; exact Htruthy).
      reflexivity. }
  destruct (value (fetchEmails provider accessToken (section_of req)
                               (ServeRequest.pageToken req) st))
    as [[emails nextPageToken]|message] eqn:Hf.
  - rewrite (serve_payload provider KEY req st Hm Ht Htruthy Hf) in H.
    injection H as _ <-. reflexivity.
  - exfalso. apply (Rej message).
    unfold processBatch. rewrite (read_parsed _ Ht), Ht, Htruthy. cbn [negb].
    fold (section_of req). rewrite (bind_Throw _ _ _ Hf). reflexivity.
Qed.

Lemma serve_never_skips_witness :
  exists r,
    value (serve Mock.provider (Some "key") (Mock.request "inbox")
                 (Mock.fresh [Mock.says "newsletter"]))
    = Return (Json 200 (Success r)) /\
    ProcessingResult.skipped r = 0%Z.
Proof.
  eexists. split.
  - vm_compute. reflexivity.
  - eapply (@serve_never_skips Mock.World Mock.provider (Some "key")
              (Mock.request "inbox") (Mock.fresh [Mock.says "newsletter"]) 200).
    vm_compute. reflexivity.
Defined.

(* ================================================================== *)
(** * The run loop of the dashboard *)

Arguments Dashboard.or_zero : simpl never.

Lemma or_zero_id : forall x, Dashboard.or_zero x = x.
Proof.
  intros x. unfold Dashboard.or_zero.
  destruct (Z.eqb_spec x 0) as [E|_]; [symmetry; exact E|reflexivity].
Qed.

(** The buttons are enabled exactly when no handler is suspended. *)
Lemma step_keeps_processing :
  forall d e,
    Dashboard.processing d = negb (match Dashboard.pc d with
                                   | Dashboard.Idle => true
                                   | _ => false
                                   end) ->
    Dashboard.processing (Dashboard.step d e)
    = negb (match Dashboard.pc (Dashboard.step d e) with
            | Dashboard.Idle => true
            | _ => false
            end).
Proof.
  intros d e H.
  destruct d as [p pa res ts cb err cs stop pc inv ex]. simpl in H.
  destruct e as [section| |token|r|]; unfold Dashboard.step;
    cbn [Dashboard.pc Dashboard.processing].
  - destruct p; [destruct pc; exact H|reflexivity].
  - destruct p; destruct pc; exact H.
  - destruct pc; try exact H.
    destruct token as [t|]; [destruct (JsString.truthy t)|]; simpl;
      first [reflexivity | exact H].
  - destruct pc; try exact H.
    destruct (Dashboard.processOneBatch r) as [[[b|e]|]|m]; try reflexivity.
    unfold Dashboard.absorb_batch.
    cbn [Dashboard.stopRequestedRef Dashboard.processing Dashboard.pc].
    destruct (ProcessingResult.nextPageToken b) as [t|]; [|reflexivity].
    destruct (JsString.truthy t); [|reflexivity].
    cbn [negb]. destruct stop; [reflexivity|]. simpl. exact H.
  - destruct pc; exact H.
Qed.

Lemma idle_iff_not_processing :
  forall es,
    let d := Dashboard.run Dashboard.initial es in
    Dashboard.processing d = false <-> Dashboard.pc d = Dashboard.Idle.
Proof.
  intros es d.
  assert (G : Dashboard.processing d
              = negb (match Dashboard.pc d with
                      | Dashboard.Idle => true
                      | _ => false
                      end)).
  { subst d. unfold Dashboard.run.
    generalize Dashboard.initial
               (eq_refl : Dashboard.processing Dashboard.initial
                          = negb (match Dashboard.pc Dashboard.initial with
                                  | Dashboard.Idle => true
                                  | _ => false
                                  end)).
    induction es as [|e es IH]; intros d0 H0; simpl.
    - exact H0.
    - apply IH. apply step_keeps_processing. exact H0. }
  rewrite G. destruct (Dashboard.pc d); simpl; split; intros E; (reflexivity || discriminate).
Qed.

(** C8. With no stop request, a run whose batch calls return the
    cursors [A], [B] and then none (both cursors are non-empty strings, so
    that the loop sees them) issues exactly three batch calls, with no
    cursor, then [A], then [B], leaves the loop through the no-more-pages
    [break], and shows statistics equal to the component-wise sum of the
    three batch results over the concatenation of their result lists. *)
Theorem three_batches_complete :
  forall (d : Dashboard.t) section providerToken r1 r2 r3 A B,
    Dashboard.processing d = false ->
    JsString.truthy providerToken = true ->
    ProcessingResult.nextPageToken r1 = Some A -> JsString.truthy A = true ->
    ProcessingResult.nextPageToken r2 = Some B -> JsString.truthy B = true ->
    ProcessingResult.nextPageToken r3 = None ->
    let d' := Dashboard.run d
                [ Dashboard.ClickProcess section;
                  Dashboard.SessionResolved (Some providerToken);
                  Dashboard.batch_returns r1; Dashboard.DelayElapsed;
                  Dashboard.batch_returns r2; Dashboard.DelayElapsed;
                  Dashboard.batch_returns r3 ] in
    let total := (ProcessingResult.total r1 + ProcessingResult.total r2
                  + ProcessingResult.total r3)%Z in
    let processed := (ProcessingResult.processed r1 + ProcessingResult.processed r2
                      + ProcessingResult.processed r3)%Z in
    let skipped := (ProcessingResult.skipped r1 + ProcessingResult.skipped r2
                    + ProcessingResult.skipped r3)%Z in
    let errors := (ProcessingResult.errors r1 + ProcessingResult.errors r2
                   + ProcessingResult.errors r3)%Z in
    let results := ProcessingResult.results r1 ++ ProcessingResult.results r2
                   ++ ProcessingResult.results r3 in
    Dashboard.invocations d'
    = Dashboard.invocations d
      ++ [ Dashboard.mkInvokeBody providerToken section None;
           Dashboard.mkInvokeBody providerToken section (Some A);
           Dashboard.mkInvokeBody providerToken section (Some B) ] /\
    Dashboard.exited d' = Some Dashboard.Completed /\
    Dashboard.pc d' = Dashboard.Idle /\
    Dashboard.processing d' = false /\
    Dashboard.error d' = None /\
    Dashboard.totalStats d'
    = Some (Dashboard.mkStats total processed skipped errors 3) /\
    Dashboard.result d'
    = Some (ProcessingResult.make total processed skipped errors results None).
Proof.
  intros d section providerToken r1 r2 r3 A B Hp Htok H1 HA H2 HB H3
         d' total processed skipped errors results.
  subst d' total processed skipped errors results.
  destruct d as [p pa res ts cb err cs stop pc inv ex].
  destruct r1 as [t1 p1 s1 e1 l1 n1], r2 as [t2 p2 s2 e2 l2 n2], r3 as [t3 p3 s3 e3 l3 n3].
  simpl in Hp, H1, H2, H3. subst p n1 n2 n3.
  destruct providerToken as [|c0 providerToken]; [discriminate|].
  destruct A as [|a A]; [discriminate|].
  destruct B as [|b B]; [discriminate|].
  cbv -[Z.add app Dashboard.or_zero].
  rewrite !or_zero_id.
  repeat split.
  - rewrite <- !app_assoc. reflexivity.
  - rewrite <- !app_assoc. reflexivity.
Qed.

Lemma three_batches_complete_witness :
  let r1 := ProcessingResult.make 50 48 0 2 [] (Some "A") in
  let r2 := ProcessingResult.make 50 50 0 0 [] (Some "B") in
  let r3 := ProcessingResult.make 7 6 0 1 [] None in
  let d' := Dashboard.run Dashboard.initial
              [ Dashboard.ClickProcess "all";
                Dashboard.SessionResolved (Some "token");
                Dashboard.batch_returns r1; Dashboard.DelayElapsed;
                Dashboard.batch_returns r2; Dashboard.DelayElapsed;
                Dashboard.batch_returns r3 ] in
  Dashboard.invocations d'
  = [ Dashboard.mkInvokeBody "token" "all" None;
      Dashboard.mkInvokeBody "token" "all" (Some "A");
      Dashboard.mkInvokeBody "token" "all" (Some "B") ] /\
  Dashboard.exited d' = Some Dashboard.Completed /\
  Dashboard.totalStats d' = Some (Dashboard.mkStats 107 104 0 3 3).
Proof.
  intros r1 r2 r3 d'.
  destruct (@three_batches_complete Dashboard.initial "all" "token" r1 r2 r3 "A" "B"
              eq_refl eq_refl eq_refl eq_refl eq_refl eq_refl eq_refl)
    as (H1 & H2 & _ & _ & _ & H3 & _).
  split; [exact H1|]. split; [exact H2|exact H3].
Defined.

(** A stop requested while a batch is in flight is seen when that batch
    has completed: the batch is absorbed, the run leaves the loop through
    the stop [break], and no further batch is requested. *)
Lemma stop_in_flight_halts_after_the_batch :
  forall (d : Dashboard.t) section providerToken r1 A,
    Dashboard.processing d = false ->
    JsString.truthy providerToken = true ->
    ProcessingResult.nextPageToken r1 = Some A -> JsString.truthy A = true ->
    let d' := Dashboard.run d
                [ Dashboard.ClickProcess section;
                  Dashboard.SessionResolved (Some providerToken);
                  Dashboard.ClickStop;
                  Dashboard.batch_returns r1 ] in
    Dashboard.invocations d'
    = Dashboard.invocations d ++ [Dashboard.mkInvokeBody providerToken section None] /\
    Dashboard.exited d' = Some Dashboard.Stopped /\
    Dashboard.pc d' = Dashboard.Idle /\
    Dashboard.totalStats d'
    = Some (Dashboard.mkStats (ProcessingResult.total r1) (ProcessingResult.processed r1)
                              (ProcessingResult.skipped r1) (ProcessingResult.errors r1) 1) /\
    Dashboard.result d'
    = Some (ProcessingResult.make (ProcessingResult.total r1) (ProcessingResult.processed r1)
                                  (ProcessingResult.skipped r1) (ProcessingResult.errors r1)
                                  (ProcessingResult.results r1) None).
Proof.
  intros d section providerToken r1 A Hp Htok H1 HA d'. subst d'.
  destruct d as [p pa res ts cb err cs stop pc inv ex].
  destruct r1 as [t1 p1 s1 e1 l1 n1].
  simpl in Hp, H1. subst p n1.
  destruct providerToken as [|c0 providerToken]; [discriminate|].
  destruct A as [|a A]; [discriminate|].
  cbv -[Z.add app Dashboard.or_zero].
  rewrite !or_zero_id.
  repeat split.
Qed.

(** A stop requested while the loop sleeps between two batches is not
    looked at when the sleep ends: the next batch is requested all the
    same, and the request is only seen once that batch has completed. *)
Lemma stop_during_delay_is_seen_one_batch_late :
  forall (d : Dashboard.t) section providerToken r1 r2 A B,
    Dashboard.processing d = false ->
    JsString.truthy providerToken = true ->
    ProcessingResult.nextPageToken r1 = Some A -> JsString.truthy A = true ->
    ProcessingResult.nextPageToken r2 = Some B -> JsString.truthy B = true ->
    let asleep := Dashboard.run d
                    [ Dashboard.ClickProcess section;
                      Dashboard.SessionResolved (Some providerToken);
                      Dashboard.batch_returns r1;
                      Dashboard.ClickStop ] in
    let awake := Dashboard.step asleep Dashboard.DelayElapsed in
    let d' := Dashboard.step awake (Dashboard.batch_returns r2) in
    Dashboard.stopRequestedRef asleep = true /\
    Dashboard.exited asleep = None /\
    Dashboard.invocations awake
    = Dashboard.invocations d
      ++ [ Dashboard.mkInvokeBody providerToken section None;
           Dashboard.mkInvokeBody providerToken section (Some A) ] /\
    Dashboard.exited awake = None /\
    Dashboard.exited d' = Some Dashboard.Stopped /\
    Dashboard.invocations d' = Dashboard.invocations awake.
Proof.
  intros d section providerToken r1 r2 A B Hp Htok H1 HA H2 HB asleep awake d'.
  subst d' awake asleep.
  destruct d as [p pa res ts cb err cs stop pc inv ex].
  destruct r1 as [t1 p1 s1 e1 l1 n1], r2 as [t2 p2 s2 e2 l2 n2].
  simpl in Hp, H1, H2. subst p n1 n2.
  destruct providerToken as [|c0 providerToken]; [discriminate|].
  destruct A as [|a A]; [discriminate|].
  destruct B as [|b B]; [discriminate|].
  cbv -[Z.add app Dashboard.or_zero].
  repeat split.
  rewrite <- !app_assoc. reflexivity.
Qed.

(** C9, at the input where the code departs from it. Batch 1 has
    completed and returned the cursor [A]; the user clicks Stop during
    the one-second pause, before batch 2 is requested; when the pause ends
    batch 2 is requested with cursor [A] nevertheless, and the run has not
    left its loop. *)
Theorem stop_between_batches_still_requests_next_batch :
  let r1 := ProcessingResult.make 50 50 0 0 [] (Some "A") in
  let d' := Dashboard.run Dashboard.initial
              [ Dashboard.ClickProcess "inbox";
                Dashboard.SessionResolved (Some "token");
                Dashboard.batch_returns r1;
                Dashboard.ClickStop;
                Dashboard.DelayElapsed ] in
  Dashboard.stopRequestedRef d' = true /\
  Dashboard.invocations d'
  = [ Dashboard.mkInvokeBody "token" "inbox" None;
      Dashboard.mkInvokeBody "token" "inbox" (Some "A") ] /\
  Dashboard.pc d'
  = Dashboard.AwaitBatch "token" "inbox" [] (Dashboard.mkStats 50 50 0 0 2) /\
  Dashboard.processing d' = true /\
  Dashboard.exited d' = None.
Proof.
  vm_compute. repeat split.
Qed.

(* ================================================================== *)
(** * Further facts about the pipeline *)

Section Pipeline.

Variable W : Type.
Variable provider : forall e : endpoint, request -> W -> response (body_of e) * W.
Variable ANTHROPIC_API_KEY : option string.

Lemma issued_bind :
  forall A B (m : M W A) (k : A -> M W B) st,
    issued (bind m k st)
    = issued (m st) ++ match value (m st) with
                       | Return a => issued (k a (final (m st)))
                       | Throw _ => []
                       end.
Proof.
  intros A B m k st. unfold bind.
  destruct (value (m st)); simpl; [reflexivity|rewrite app_nil_r; reflexivity].
Qed.

(** The edge function answers every request: no exception escapes [serve]. *)
Lemma serve_always_answers :
  forall req (st : State W),
    exists resp, value (serve provider ANTHROPIC_API_KEY req st) = Return resp.
Proof.
  intros req st. unfold serve.
  destruct (ServeRequest.method req =? "OPTIONS").
  - eexists. reflexivity.
  - unfold try_catch.
    destruct (value (bind (processBatch provider ANTHROPIC_API_KEY req)
                          (fun r => ret (Json 200 (Success r))) st)) as [resp|message] eqn:E.
    + exists resp. exact E.
    + eexists. reflexivity.
Qed.

(** X11. Provided the provider's create-label answer carries the
    requested name, a label resolved once stays resolved, to the same
    identifier and without any call, after any number of further
    invocations served by the same process. *)
Lemma resolution_survives_invocations :
  forall accessToken accessToken' labelName (st : State W) labelId reqs,
    echoes_name provider ->
    let first := getOrCreateLabel provider accessToken labelName st in
    value first = Return labelId ->
    let later := final (serve_all provider ANTHROPIC_API_KEY reqs (final first)) in
    getOrCreateLabel provider accessToken' labelName later
    = mkRun (Return labelId) later [].
Proof.
  intros accessToken accessToken' labelName st labelId reqs echo first Hv later.
  destruct (resolved_always echo accessToken labelName st Hv)
    as (cached & l & Hc & Hf & Hid & _).
  destruct (serve_all_memoizes provider ANTHROPIC_API_KEY reqs (final first))
    as (_ & _ & Hgrow).
  destruct (Hgrow cached Hc) as [extra Hlater].
  rewrite <- Hid.
  apply (getOrCreateLabel_hit provider accessToken' labelName later Hlater).
  rewrite find_append, Hf. reflexivity.
Qed.

(** The label [classifyEmail] returns always has a name in [LABEL_MAP],
    so the lookup [LABEL_MAP[label]] of the message loop yields a string. *)
Lemma classified_label_has_name :
  forall data, exists labelName,
    JsObject.get LABEL_MAP (validated (classification_of data))
    = Some (JsObject.VString labelName).
Proof.
  intros data. destruct (validated_is_category data) as [l Hl].
  rewrite <- Hl. apply label_literal_has_name.
Qed.

Lemma classifyEmail_calls :
  forall email (st : State W),
    Forall (fun c => target c = CreateCompletion)
           (issued (classifyEmail provider ANTHROPIC_API_KEY email st)).
Proof.
  intros email st. unfold classifyEmail.
  destruct ANTHROPIC_API_KEY as [apiKey|]; [|constructor].
  destruct (JsString.truthy apiKey); cbn [negb]; [|constructor].
  rewrite issued_bind, fetch_issued, fetch_value.
  destruct (fst (provider CreateCompletion (completion_request apiKey email) (world st)));
    repeat constructor.
Qed.

(** X12. The label a message gets is the one the resolver returned for
    the category the classifier returned: a modify call issued while one
    message is processed adds that identifier to that message, and is only
    issued once both classification and resolution have returned. *)
Lemma processEmail_applies_resolved_label :
  forall accessToken email (st : State W) c,
    In c (issued (processEmail provider ANTHROPIC_API_KEY accessToken email st)) ->
    target c = ModifyMessage ->
    exists label labelName labelId,
      value (classifyEmail provider ANTHROPIC_API_KEY email st) = Return label /\
      JsObject.own LABEL_MAP label = Some labelName /\
      value (getOrCreateLabel provider accessToken labelName
               (final (classifyEmail provider ANTHROPIC_API_KEY email st)))
      = Return labelId /\
      sent c = modify_request accessToken (Email.id email) labelId.
Proof.
  intros accessToken email st c Hin Ht.
  unfold processEmail in Hin. rewrite issued_bind in Hin.
  apply in_app_or in Hin. destruct Hin as [Hin|Hin].
  { pose proof (classifyEmail_calls email st) as F.
    rewrite Forall_forall in F. apply F in Hin. congruence. }
  destruct (value (classifyEmail provider ANTHROPIC_API_KEY email st))
    as [label|message] eqn:Hclass; [|contradiction].
  set (st1 := final (classifyEmail provider ANTHROPIC_API_KEY email st)) in *.
  rewrite issued_bind in Hin. unfold label_name, JsObject.get in Hin.
  destruct (JsObject.own LABEL_MAP label) as [labelName|] eqn:Hname.
  2:{ destruct (JsObject.mem label JsObject.Object_prototype); simpl in Hin; contradiction. }
  cbn [ret value final issued app] in Hin.
  rewrite issued_bind in Hin.
  apply in_app_or in Hin. destruct Hin as [Hin|Hin].
  { pose proof (getOrCreateLabel_calls provider accessToken labelName st1) as F.
    rewrite Forall_forall in F. apply F in Hin. destruct Hin; congruence. }
  destruct (value (getOrCreateLabel provider accessToken labelName st1))
    as [labelId|message] eqn:Hresolve; [|contradiction].
  exists label, labelName, labelId.
  split; [reflexivity|]. split; [exact Hname|]. split; [exact Hresolve|].
  rewrite issued_bind in Hin. unfold applyLabel in Hin.
  rewrite issued_bind, fetch_issued in Hin.
  cbn [app] in Hin. destruct Hin as [Hin|Hin]; [subst c; reflexivity|].
  apply in_app_or in Hin. destruct Hin as [Hin|Hin].
  - rewrite fetch_value in Hin.
    destruct (fst (provider ModifyMessage
                            (modify_request accessToken (Email.id email) labelId) _));
      contradiction.
  - match type of Hin with
    | In _ (match ?v with _ => _ end) => destruct v; contradiction
    end.
Qed.

End Pipeline.

(* ================================================================== *)
(** * The list URL and the calls of [fetchEmails] *)

Lemma all_chars_app :
  forall p s s', all_chars p (s ++ s')%string = all_chars p s && all_chars p s'.
Proof.
  induction s as [|c s IH]; intros s'; simpl.
  - reflexivity.
  - rewrite IH, andb_assoc. reflexivity.
Qed.

Lemma encode_char_safe : forall c, all_chars url_safe (encode_char c) = true.
Proof.
  intros [[] [] [] [] [] [] [] []]; vm_compute; reflexivity.
Qed.

Lemma all_chars_excludes :
  forall p c s,
    all_chars p s = true -> p c = false ->
    occurrences (String c EmptyString) s = 0.
Proof.
  induction s as [|a s IH]; intros Hs Hc.
  - reflexivity.
  - simpl in Hs. apply andb_true_iff in Hs. destruct Hs as [Ha Hs].
    cbn [occurrences prefix]. rewrite (IH Hs Hc).
    destruct (Ascii.ascii_dec c a) as [E|E].
    + subst a. congruence.
    + destruct s; reflexivity.
Qed.

(** Whatever the query, its encoded form is made of unreserved
    characters and percent signs only, so it contains none of the
    characters that structure a URL. *)
Lemma encodeURIComponent_is_url_safe :
  forall s,
    all_chars url_safe (encodeURIComponent s) = true /\
    forall c, url_safe c = false ->
              includes (String c EmptyString) (encodeURIComponent s) = false.
Proof.
  intros s.
  assert (H : all_chars url_safe (encodeURIComponent s) = true).
  { induction s as [|c s IH]; simpl.
    - reflexivity.
    - rewrite all_chars_app, encode_char_safe, IH. reflexivity. }
  split; [exact H|].
  intros c Hc. unfold includes. rewrite (all_chars_excludes url_safe c _ H Hc).
  reflexivity.
Qed.

Section FetchEmails.

Variable W : Type.
Variable provider : forall e : endpoint, request -> W -> response (body_of e) * W.

Lemma hydrate_issued :
  forall accessToken messages emails (st : State W),
    let r := hydrate provider accessToken messages emails st in
    issued r
    = map (fun h => mkCall GetMessage (GET (detail_url (fst h)) accessToken) (ok (snd h)))
          (hydrations provider accessToken messages (world st)) /\
    labelCache (final r) = labelCache st.
Proof.
  intros accessToken messages.
  induction messages as [|msg rest IH]; intros emails st; cbn [hydrate hydrations].
  - split; reflexivity.
  - destruct (provider GetMessage (GET (detail_url msg) accessToken) (world st))
      as [resp w'] eqn:E.
    cbv zeta. unfold bind. rewrite (fetch_eq provider _ _ st E). cbn [value final issued].
    destruct resp as [detail|text|message];
      [ | | split; reflexivity ];
      match goal with
      | |- context [hydrate provider accessToken rest ?es ?s] =>
          destruct (IH es s) as [Hi Hc]
      end;
      cbv zeta in Hi, Hc; cbn [final issued]; rewrite Hi, Hc; split; reflexivity.
Qed.

(** A call that throws is the last one of the loop. *)
Lemma hydrations_last :
  forall accessToken messages (w : W) message,
    thrown (hydrations provider accessToken messages w) = Some message ->
    exists before msg,
      hydrations provider accessToken messages w = before ++ [(msg, Fails message)] /\
      thrown before = None.
Proof.
  intros accessToken messages.
  induction messages as [|msg rest IH]; intros w message; cbn [hydrations].
  - discriminate.
  - destruct (provider GetMessage (GET (detail_url msg) accessToken) w) as [resp w'].
    destruct resp as [detail|text|message']; cbn [thrown]; intros H.
    + destruct (IH w' message H) as (before & m & E & N).
      exists ((msg, Ok detail) :: before), m. rewrite E. split; [reflexivity|exact N].
    + destruct (IH w' message H) as (before & m & E & N).
      exists ((msg, NotOk text) :: before), m. rewrite E. split; [reflexivity|exact N].
    + injection H as <-. exists [], msg. split; reflexivity.
Qed.

(** The calls of [fetchEmails]: the list call, then those of its loop. *)
Lemma fetchEmails_issued :
  forall accessToken section pageToken (st : State W) listData w,
    provider ListMessages (GET (list_url section pageToken) accessToken) (world st)
    = (Ok listData, w) ->
    let r := fetchEmails provider accessToken section pageToken st in
    issued r
    = mkCall ListMessages (GET (list_url section pageToken) accessToken) true
      :: map (fun h => mkCall GetMessage (GET (detail_url (fst h)) accessToken) (ok (snd h)))
             (hydrations provider accessToken (or_nil (messages listData)) w) /\
    labelCache (final r) = labelCache st.
Proof.
  intros accessToken section pageToken st listData w H r.
  set (listed := or_nil (messages listData)).
  assert (E : issued r
              = mkCall ListMessages (GET (list_url section pageToken) accessToken) true
                :: issued (hydrate provider accessToken listed [] (mkState w (labelCache st)))
              /\ final r
                 = final (hydrate provider accessToken listed [] (mkState w (labelCache st)))).
  { subst r. unfold fetchEmails, bind.
    rewrite (fetch_eq provider _ _ st H). cbn [value final issued]. fold listed.
    destruct (value (hydrate provider accessToken listed [] (mkState w (labelCache st))));
      cbn [value final issued app ok ret]; rewrite ?app_nil_r; split; reflexivity. }
  destruct E as [Ei Ef].
  destruct (hydrate_issued accessToken listed [] (mkState w (labelCache st)))
    as [Hi Hc].
  cbv zeta in Hi, Hc. cbn [world labelCache] in Hi, Hc.
  rewrite Ei, Ef, Hi, Hc. split; reflexivity.
Qed.

End FetchEmails.

(** X1. When the list call succeeds, [fetchEmails] issues that call and
    then one detail call per listed message, in the listed order, going on
    after a call that is answered not ok and stopping after a call that
    throws. If no detail call throws, every listed message gets its call
    and [fetchEmails] returns the hydrated messages with the provider's
    next-page token unchanged; if one throws, it is the last call issued
    and [fetchEmails] throws with its message. [labelCache] is left alone
    either way. *)
Theorem fetchEmails_calls :
  forall W (provider : forall e, request -> W -> response (body_of e) * W)
         accessToken section pageToken (st : State W) listData w,
    provider ListMessages (GET (list_url section pageToken) accessToken) (world st)
    = (Ok listData, w) ->
    let r := fetchEmails provider accessToken section pageToken st in
    let listed := or_nil (messages listData) in
    let hs := hydrations provider accessToken listed w in
    issued r
    = mkCall ListMessages (GET (list_url section pageToken) accessToken) true
      :: map (fun h => mkCall GetMessage (GET (detail_url (fst h)) accessToken) (ok (snd h)))
             hs /\
    map (fun c => url (sent c)) (calls_to GetMessage (issued r))
    = map detail_url (map fst hs) /\
    (exists later, listed = map fst hs ++ later) /\
    labelCache (final r) = labelCache st /\
    match thrown hs with
    | None =>
        map fst hs = listed /\
        length (issued r) = S (length listed) /\
        value r = Return (hydrated hs, Http.nextPageToken listData)
    | Some message =>
        value r = Throw message /\
        exists before msg, hs = before ++ [(msg, Fails message)] /\ thrown before = None
    end.
Proof.
  intros W provider accessToken section pageToken st listData w H r listed hs.
  pose proof (fetchEmails_value provider accessToken section pageToken st H) as V.
  cbv zeta in V. fold listed in V. fold hs in V. fold r in V.
  destruct (fetchEmails_issued provider accessToken section pageToken st H) as [Hi Hc].
  cbv zeta in Hi, Hc. fold listed in Hi. fold hs in Hi. fold r in Hi, Hc.
  rewrite Hi, Hc.
  split; [reflexivity|]. split; [|split; [|split; [reflexivity|]]].
  - cbn [calls_to filter target].
    assert (F : forall hs : list (string * response Detail),
               map (fun c => url (sent c))
                   (calls_to GetMessage
                      (map (fun h => mkCall GetMessage (GET (detail_url (fst h)) accessToken)
                                            (ok (snd h))) hs))
               = map detail_url (map fst hs)).
    { induction hs0 as [|h hs0 IH]; [reflexivity|].
      cbn [map calls_to filter target sent]. unfold calls_to in IH.
      cbn [GET url]. f_equal. exact IH. }
    unfold calls_to in F |- *. rewrite F. reflexivity.
  - exact (hydrations_prefix provider accessToken listed w).
  - destruct (thrown hs) as [message|] eqn:T.
    + split; [exact V|]. exact (hydrations_last provider accessToken listed w T).
    + pose proof (hydrations_cover provider accessToken listed w T) as Hcover.
      fold hs in Hcover.
      split; [exact Hcover|]. split; [|exact V].
      cbn [length]. rewrite length_map.
      rewrite <- (length_map fst hs), Hcover. reflexivity.
Qed.

Lemma fetchEmails_calls_witness :
  let r := fetchEmails Mock.provider "token" "inbox" None (Mock.fresh []) in
  map (fun c => (target c, succeeded c)) (issued r)
  = [(ListMessages, true); (GetMessage, true); (GetMessage, false); (GetMessage, true)] /\
  map (fun c => url (sent c)) (calls_to GetMessage (issued r))
  = [detail_url "m1"; detail_url "m2"; detail_url "m3"] /\
  length (issued r) = 4.
Proof.
  intros r.
  destruct (@fetchEmails_calls Mock.World Mock.provider "token" "inbox" None (Mock.fresh [])
              (mkMessageList (Some ["m1"; "m2"; "m3"]) (Some "A")) (Mock.mkWorld [] 0)
              eq_refl)
    as (H1 & H2 & _ & _ & H5).
  assert (T : thrown (hydrations Mock.provider "token" ["m1"; "m2"; "m3"]
                                 (Mock.mkWorld [] 0)) = None) by reflexivity.
  cbn [or_nil messages] in H5. rewrite T in H5.
  destruct H5 as (_ & H3 & _).
  unfold r.
  split; [rewrite H1; vm_compute; reflexivity|].
  split; [exact H2|exact H3].
Defined.

(* ================================================================== *)
(** * How [serve] answers *)

Section ServeAnswers.

Variable W : Type.
Variable provider : forall e : endpoint, request -> W -> response (body_of e) * W.
Variable ANTHROPIC_API_KEY : option string.

(** What stands behind a success payload. *)
Lemma serve_success_inv :
  forall req (st : State W) status r,
    value (serve provider ANTHROPIC_API_KEY req st) = Return (Json status (Success r)) ->
    exists accessToken emails nextPageToken,
      ServeRequest.method req <> "OPTIONS" /\
      ServeRequest.accessToken req = Some accessToken /\
      JsString.truthy accessToken = true /\
      value (fetchEmails provider accessToken (section_of req)
                         (ServeRequest.pageToken req) st)
      = Return (emails, nextPageToken) /\
      status = 200 /\
      r = ProcessingResult.make
            (Z.of_nat (length emails))
            (Z.of_nat (length (returned
               (attempts provider ANTHROPIC_API_KEY accessToken emails
                  (final (fetchEmails provider accessToken (section_of req)
                                      (ServeRequest.pageToken req) st))))))
            0
            (Z.of_nat (count_thrown
               (attempts provider ANTHROPIC_API_KEY accessToken emails
                  (final (fetchEmails provider accessToken (section_of req)
                                      (ServeRequest.pageToken req) st)))))
            (returned
               (attempts provider ANTHROPIC_API_KEY accessToken emails
                  (final (fetchEmails provider accessToken (section_of req)
                                      (ServeRequest.pageToken req) st))))
            nextPageToken.
Proof.
  intros req st status r H.
  destruct (String.eqb_spec (ServeRequest.method req) "OPTIONS") as [Hm|Hm].
  { unfold serve in H. apply String.eqb_eq in Hm. rewrite Hm in H. discriminate. }
  assert (Rej : forall message,
             value (processBatch provider ANTHROPIC_API_KEY req st) = Throw message -> False).
  { intros message E.
    rewrite (serve_rejects provider ANTHROPIC_API_KEY req st Hm E) in H. discriminate. }
  destruct (ServeRequest.accessToken req) as [accessToken|] eqn:Ht.
  2:{ exfalso. eapply Rej.
      rewrite (processBatch_without_token provider ANTHROPIC_API_KEY req st)
        by (rewrite Ht; reflexivity).
      reflexivity. }
  destruct (JsString.truthy accessToken) eqn:Htruthy.
  2:{ exfalso. eapply Rej.
      rewrite (processBatch_without_token provider ANTHROPIC_API_KEY req st)
        by (rewrite Ht; exact Htruthy).
      reflexivity. }
  destruct (value (fetchEmails provider accessToken (section_of req)
                               (ServeRequest.pageToken req) st))
    as [[emails nextPageToken]|message] eqn:Hf.
  - rewrite (serve_payload provider ANTHROPIC_API_KEY req st Hm Ht Htruthy Hf) in H.
    injection H as <- <-.
    exists accessToken, emails, nextPageToken. repeat split; auto.
  - exfalso. apply (Rej message).
    unfold processBatch. rewrite (read_parsed _ Ht), Ht, Htruthy. cbn [negb].
    fold (section_of req). rewrite (bind_Throw _ _ _ Hf). reflexivity.
Qed.

Lemma classifyEmail_category :
  forall email (st : State W) label,
    value (classifyEmail provider ANTHROPIC_API_KEY email st) = Return label ->
    known_category label.
Proof.
  intros email st label H. unfold classifyEmail in H.
  destruct ANTHROPIC_API_KEY as [apiKey|]; [|discriminate].
  destruct (JsString.truthy apiKey); cbn [negb] in H; [|discriminate].
  unfold bind in H. rewrite fetch_value in H.
  destruct (fst (provider CreateCompletion (completion_request apiKey email) (world st)))
    as [data|text|message]; simpl in H; [|discriminate|discriminate].
  injection H as <-. apply validated_is_category.
Qed.

Lemma processEmail_category :
  forall accessToken email (st : State W) label,
    value (processEmail provider ANTHROPIC_API_KEY accessToken email st) = Return label ->
    known_category label.
Proof.
  intros accessToken email st label H. unfold processEmail in H.
  unfold bind at 1 in H.
  destruct (value (classifyEmail provider ANTHROPIC_API_KEY email st)) as [l|m] eqn:E;
    [|discriminate].
  apply classifyEmail_category in E.
  cbn [value] in H.
  repeat match type of H with
  | value (bind ?m ?k ?s) = _ =>
      unfold bind at 1 in H;
      let v := fresh "v" in
      destruct (value (m s)) as [v|v]; [cbn [value] in H|discriminate]
  end.
  simpl in H. injection H as <-. exact E.
Qed.

Lemma returned_categories :
  forall accessToken emails (st : State W),
    Forall (fun x => known_category (snd x))
           (returned (attempts provider ANTHROPIC_API_KEY accessToken emails st)).
Proof.
  intros accessToken emails.
  induction emails as [|email rest IH]; intros st; cbn [attempts returned].
  - constructor.
  - destruct (value (processEmail provider ANTHROPIC_API_KEY accessToken email st))
      as [label|message] eqn:E.
    + constructor; [|apply IH]. exact (processEmail_category _ _ _ E).
    + apply IH.
Qed.

End ServeAnswers.

(** X2. Whatever the classification service replies, a label that
    [classifyEmail] returns is one of the ten categories, and so is the
    label of every entry of a success payload's [results]; each such label
    has a display name in [LABEL_MAP]. *)
Theorem results_carry_categories :
  forall W (provider : forall e, request -> W -> response (body_of e) * W)
         ANTHROPIC_API_KEY,
    (forall email (st : State W) label,
        value (classifyEmail provider ANTHROPIC_API_KEY email st) = Return label ->
        known_category label /\
        exists labelName, JsObject.own LABEL_MAP label = Some labelName) /\
    (forall req (st : State W) status r,
        value (serve provider ANTHROPIC_API_KEY req st) = Return (Json status (Success r)) ->
        Forall (fun x => known_category (snd x)) (ProcessingResult.results r)).
Proof.
  intros W provider KEY. split.
  - intros email st label H.
    pose proof (classifyEmail_category provider KEY email st H) as K.
    split; [exact K|]. destruct K as [l <-]. destruct (own_known l) as [n [Hn _]].
    exists n. exact Hn.
  - intros req st status r H.
    destruct (serve_success_inv provider KEY req st H)
      as (tok & emails & next & _ & _ & _ & _ & _ & ->).
    cbn [ProcessingResult.results]. apply returned_categories.
Qed.

Lemma results_carry_categories_witness :
  known_category "FYI" /\
  exists r,
    value (serve Mock.provider (Some "key") (Mock.request "inbox")
                 (Mock.fresh [Mock.says "constructor"; Mock.says "__proto__"]))
    = Return (Json 200 (Success r)) /\
    Forall (fun x => known_category (snd x)) (ProcessingResult.results r) /\
    map snd (ProcessingResult.results r) = ["FYI"; "FYI"].
Proof.
  split.
  - apply (proj1 (proj1 (@results_carry_categories Mock.World Mock.provider (Some "key"))
                        (email_of_detail (Mock.detail "m1" "Your invoice"))
                        (Mock.fresh [Mock.says "constructor"]) "FYI" eq_refl)).
  - eexists. split; [vm_compute; reflexivity|]. split.
    + eapply (proj2 (@results_carry_categories Mock.World Mock.provider (Some "key"))
                    (Mock.request "inbox")
                    (Mock.fresh [Mock.says "constructor"; Mock.says "__proto__"]) 200).
      vm_compute. reflexivity.
    + reflexivity.
Defined.

(** X3. A request from which no access token can be taken is answered
    with status 400, no call is issued and the process state is left as it
    was. When the body was read and carries no access token, or an empty
    one, the error is [Access token is required]; when reading the body
    threw (no body, not JSON, [null]), the error is that exception's
    message. *)
Theorem serve_requires_access_token :
  forall W (provider : forall e, request -> W -> response (body_of e) * W)
         ANTHROPIC_API_KEY req (st : State W),
    ServeRequest.method req <> "OPTIONS" ->
    JsString.truthy (or_empty (ServeRequest.accessToken req)) = false ->
    serve provider ANTHROPIC_API_KEY req st
    = mkRun (Return (Json 400 (Failure
               match ServeRequest.read req with
               | ServeRequest.Parsed _ => "Access token is required"
               | ServeRequest.Unreadable message => message
               end))) st [].
Proof.
  intros W provider KEY req st Hm Ht.
  unfold serve. apply String.eqb_neq in Hm. rewrite Hm.
  unfold try_catch.
  assert (E := processBatch_without_token provider KEY req st Ht).
  rewrite (bind_Throw _ _ st (f_equal (@value W ProcessingResult.t) E)).
  rewrite E. reflexivity.
Qed.

Lemma serve_requires_access_token_witness :
  serve Mock.provider (Some "key") (ServeRequest.make "POST" (Some "") None (Some "inbox"))
        (Mock.fresh [])
  = mkRun (Return (Json 400 (Failure "Access token is required"))) (Mock.fresh []) []
  /\
  serve Mock.provider (Some "key")
        (ServeRequest.mk "POST" (ServeRequest.Unreadable "Unexpected end of JSON input"))
        (Mock.fresh [])
  = mkRun (Return (Json 400 (Failure "Unexpected end of JSON input"))) (Mock.fresh []) [].
Proof.
  split.
  - apply (@serve_requires_access_token Mock.World Mock.provider (Some "key")
             (ServeRequest.make "POST" (Some "") None (Some "inbox")) (Mock.fresh [])).
    + discriminate.
    + reflexivity.
  - apply (@serve_requires_access_token Mock.World Mock.provider (Some "key")
             (ServeRequest.mk "POST" (ServeRequest.Unreadable "Unexpected end of JSON input"))
             (Mock.fresh [])).
    + discriminate.
    + reflexivity.
Defined.

(** X4. When the list call is not ok, the batch is answered with status
    400 and [Failed to fetch emails: <text>]; that list call is the only
    call issued, so no message is hydrated, classified or labelled, and
    [labelCache] is left alone. *)
Theorem serve_reports_list_failure :
  forall W (provider : forall e, request -> W -> response (body_of e) * W)
         ANTHROPIC_API_KEY req accessToken (st : State W) text w,
    ServeRequest.method req <> "OPTIONS" ->
    ServeRequest.accessToken req = Some accessToken ->
    JsString.truthy accessToken = true ->
    provider ListMessages
             (GET (list_url (section_of req) (ServeRequest.pageToken req)) accessToken)
             (world st)
    = (NotOk text, w) ->
    serve provider ANTHROPIC_API_KEY req st
    = mkRun (Return (Json 400 (Failure ("Failed to fetch emails: " ++ text)%string)))
            (mkState w (labelCache st))
            [mkCall ListMessages
                    (GET (list_url (section_of req) (ServeRequest.pageToken req)) accessToken)
                    false].
Proof.
  intros W provider KEY req accessToken st text w Hm Ht Htruthy Hl.
  unfold serve. apply String.eqb_neq in Hm. rewrite Hm.
  unfold try_catch, processBatch. rewrite (read_parsed _ Ht), Ht, Htruthy. cbn [negb].
  fold (section_of req).
  unfold bind, fetchEmails, bind. rewrite (fetch_eq provider _ _ st Hl).
  reflexivity.
Qed.

Lemma serve_reports_list_failure_witness :
  serve Offline.provider (Some "key") (Mock.request "all") Offline.fresh
  = mkRun (Return (Json 400 (Failure "Failed to fetch emails: Service Unavailable")))
          Offline.fresh
          [mkCall ListMessages (GET (list_url "all" None) "token") false].
Proof.
  apply (@serve_reports_list_failure unit Offline.provider (Some "key")
           (Mock.request "all") "token" Offline.fresh "Service Unavailable" tt).
  - discriminate.
  - reflexivity.
  - reflexivity.
  - reflexivity.
Defined.

Section MissingKey.

Variable W : Type.
Variable provider : forall e : endpoint, request -> W -> response (body_of e) * W.
Variable ANTHROPIC_API_KEY : option string.
Hypothesis no_key : JsString.truthy (or_empty ANTHROPIC_API_KEY) = false.

Lemma processEmail_without_key :
  forall accessToken email (st : State W),
    processEmail provider ANTHROPIC_API_KEY accessToken email st
    = mkRun (Throw "ANTHROPIC_API_KEY not configured") st [].
Proof.
  intros accessToken email st. unfold processEmail, bind, classifyEmail.
  destruct ANTHROPIC_API_KEY as [apiKey|]; simpl in no_key.
  - rewrite no_key. reflexivity.
  - reflexivity.
Qed.

Lemma processAll_without_key :
  forall accessToken emails v (st : State W),
    processAll provider ANTHROPIC_API_KEY accessToken emails v st
    = mkRun (Return (mkLocals (results v) (errors v + Z.of_nat (length emails)) (skipped v)))
            st [].
Proof.
  intros accessToken emails.
  induction emails as [|email rest IH]; intros v st; cbn [processAll].
  - simpl. rewrite Z.add_0_r. destruct v; reflexivity.
  - match goal with
    | |- bind ?turn ?k st = _ =>
        assert (T : turn st
                    = mkRun (Return (mkLocals (results v) (errors v + 1) (skipped v))) st [])
    end.
    { unfold try_catch, bind. rewrite processEmail_without_key. reflexivity. }
    rewrite (bind_Return _ _ st (f_equal (@value W Locals) T)). rewrite T.
    cbn [value final issued].
    rewrite IH. cbn [value final issued results errors skipped app].
    f_equal. f_equal. f_equal. cbn [length]. lia.
Qed.

End MissingKey.

(** X5. When the classification API key is not configured (absent or
    empty), a batch whose first stage succeeds still answers with status
    200: every hydrated message is counted as an error, [results] is empty,
    and no call is issued beyond those of the first stage: nothing is sent
    to the classification service and no label is listed, created or
    applied. *)
Theorem serve_without_api_key :
  forall W (provider : forall e, request -> W -> response (body_of e) * W)
         ANTHROPIC_API_KEY req accessToken (st : State W) emails nextPageToken,
    JsString.truthy (or_empty ANTHROPIC_API_KEY) = false ->
    ServeRequest.method req <> "OPTIONS" ->
    ServeRequest.accessToken req = Some accessToken ->
    JsString.truthy accessToken = true ->
    let fetched := fetchEmails provider accessToken (section_of req)
                               (ServeRequest.pageToken req) st in
    value fetched = Return (emails, nextPageToken) ->
    serve provider ANTHROPIC_API_KEY req st
    = mkRun (Return (Json 200 (Success
               (ProcessingResult.make (Z.of_nat (length emails)) 0 0
                                      (Z.of_nat (length emails)) [] nextPageToken))))
            (final fetched) (issued fetched).
Proof.
  intros W provider KEY req accessToken st emails nextPageToken Hk Hm Ht Htruthy fetched Hf.
  unfold fetched in *. clear fetched.
  assert (B : processBatch provider KEY req st
              = mkRun (Return (ProcessingResult.make (Z.of_nat (length emails)) 0 0
                                 (Z.of_nat (length emails)) [] nextPageToken))
                      (final (fetchEmails provider accessToken (section_of req)
                                          (ServeRequest.pageToken req) st))
                      (issued (fetchEmails provider accessToken (section_of req)
                                           (ServeRequest.pageToken req) st))).
  { unfold processBatch. rewrite (read_parsed _ Ht), Ht, Htruthy. cbn [negb].
    fold (section_of req). rewrite (bind_Return _ _ _ Hf).
    unfold bind. rewrite (processAll_without_key provider KEY Hk).
    cbn [value final issued ret results errors skipped length app].
    rewrite !app_nil_r. reflexivity. }
  unfold serve. apply String.eqb_neq in Hm. rewrite Hm.
  unfold try_catch, bind. rewrite B.
  cbn [value final issued ret app]. rewrite app_nil_r. reflexivity.
Qed.

Lemma serve_without_api_key_witness :
  exists st cs,
    serve Mock.provider None (Mock.request "inbox") (Mock.fresh [Mock.says "fyi"])
    = mkRun (Return (Json 200 (Success (ProcessingResult.make 2 0 0 2 [] (Some "A")))))
            st cs /\
    calls_to CreateCompletion cs = [] /\
    calls_to ListLabels cs = [] /\
    calls_to ModifyMessage cs = [].
Proof.
  eexists. eexists. split.
  - apply (@serve_without_api_key Mock.World Mock.provider None (Mock.request "inbox")
             "token" (Mock.fresh [Mock.says "fyi"])
             [email_of_detail (Mock.detail "m1" "Your invoice");
              email_of_detail (Mock.detail "m3" "Hello")]
             (Some "A")).
    + reflexivity.
    + discriminate.
    + reflexivity.
    + reflexivity.
    + vm_compute. reflexivity.
  - vm_compute. repeat split.
Defined.

Lemma fetchEmails_other_section :
  forall W (provider : forall e, request -> W -> response (body_of e) * W)
         accessToken section pageToken (st : State W),
    section <> "inbox" ->
    fetchEmails provider accessToken section pageToken st
    = fetchEmails provider accessToken "all" pageToken st.
Proof.
  intros W provider accessToken section pageToken st H.
  unfold fetchEmails, list_url. rewrite (baseQuery_other_section H). reflexivity.
Qed.

(** X6. The scope is "inbox" or everything else: a request that names no
    section, and a request that names any section other than "inbox", are
    served exactly like a request for "all" (same calls, same answer, same
    final state). *)
Theorem serve_defaults_to_all_mail :
  forall W (provider : forall e, request -> W -> response (body_of e) * W)
         ANTHROPIC_API_KEY req (st : State W),
    serve provider ANTHROPIC_API_KEY (with_section req None) st
    = serve provider ANTHROPIC_API_KEY (with_section req (Some "all")) st /\
    forall section,
      section <> "inbox" ->
      serve provider ANTHROPIC_API_KEY (with_section req (Some section)) st
      = serve provider ANTHROPIC_API_KEY (with_section req (Some "all")) st.
Proof.
  intros W provider KEY [method [[accessToken pageToken s]|message]] st;
    (split; [reflexivity|]); intros section H; [|reflexivity].
  unfold serve, processBatch, with_section,
    ServeRequest.accessToken, ServeRequest.pageToken, ServeRequest.section.
  cbn [ServeRequest.method ServeRequest.read ServeRequest.body_accessToken
       ServeRequest.body_pageToken ServeRequest.body_section].
  destruct (method =? "OPTIONS"); [reflexivity|].
  destruct accessToken as [accessToken|]; [|reflexivity].
  destruct (negb (JsString.truthy accessToken)); [reflexivity|].
  unfold try_catch, bind.
  rewrite (fetchEmails_other_section provider accessToken pageToken st H).
  reflexivity.
Qed.

Lemma serve_defaults_to_all_mail_witness :
  serve Mock.provider (Some "key") (with_section (Mock.request "inbox") (Some "starred"))
        (Mock.fresh [Mock.says "fyi"])
  = serve Mock.provider (Some "key") (with_section (Mock.request "inbox") (Some "all"))
          (Mock.fresh [Mock.says "fyi"]).
Proof.
  apply (proj2 (@serve_defaults_to_all_mail Mock.World Mock.provider (Some "key")
                  (Mock.request "inbox") (Mock.fresh [Mock.says "fyi"])) "starred").
  discriminate.
Defined.

(* ================================================================== *)
(** * The counters of a batch and the calls that were issued *)

Lemma calls_to_none :
  forall e cs, Forall (fun c => target c <> e) cs -> calls_to e cs = [].
Proof.
  intros e cs H. induction H as [|c cs Hc _ IH]; [reflexivity|].
  unfold calls_to in *. cbn [filter]. rewrite IH.
  destruct (target c), e; try reflexivity; contradiction Hc; reflexivity.
Qed.

Lemma succeeded_calls_app :
  forall e cs cs',
    succeeded_calls e (cs ++ cs') = succeeded_calls e cs + succeeded_calls e cs'.
Proof.
  intros e cs cs'. unfold succeeded_calls.
  rewrite calls_to_app, filter_app, length_app. reflexivity.
Qed.

Section CallCounts.

Variable W : Type.
Variable provider : forall e : endpoint, request -> W -> response (body_of e) * W.
Variable ANTHROPIC_API_KEY : option string.

Lemma label_name_of_category :
  forall label (st : State W),
    known_category label ->
    exists labelName, label_name label st = mkRun (Return labelName) st [].
Proof.
  intros label st [l <-]. destruct (label_literal_has_name l) as [n Hn].
  exists n. unfold label_name. rewrite Hn. reflexivity.
Qed.

Lemma applyLabel_run :
  forall accessToken messageId labelId (st : State W),
    let request := modify_request accessToken messageId labelId in
    let answer := provider ModifyMessage request (world st) in
    applyLabel provider accessToken messageId labelId st
    = match fst answer with
      | Ok _ => mkRun (Return tt) (mkState (snd answer) (labelCache st))
                      [mkCall ModifyMessage request true]
      | NotOk error =>
          mkRun (Throw ("Failed to modify message: " ++ error)%string)
                (mkState (snd answer) (labelCache st))
                [mkCall ModifyMessage request false]
      | Fails message =>
          mkRun (Throw message)
                (mkState (snd answer) (labelCache st))
                [mkCall ModifyMessage request false]
      end.
Proof.
  intros accessToken messageId labelId st request answer. subst answer request.
  unfold applyLabel, bind, fetch.
  destruct (provider ModifyMessage (modify_request accessToken messageId labelId) (world st))
    as [[u|error|message] w]; reflexivity.
Qed.

(** An attempt returns exactly when its modify call came back ok, and it
    issues no other modify call. *)
Lemma processEmail_modify_count :
  forall accessToken email (st : State W),
    let r := processEmail provider ANTHROPIC_API_KEY accessToken email st in
    succeeded_calls ModifyMessage (issued r) = (if threw (value r) then 0 else 1) /\
    calls_to GetMessage (issued r) = [].
Proof.
  intros accessToken email st r. subst r.
  assert (Hc1 : forall cs, Forall (fun c => target c = CreateCompletion) cs ->
                           succeeded_calls ModifyMessage cs = 0 /\ calls_to GetMessage cs = []).
  { intros cs H. unfold succeeded_calls.
    rewrite (@calls_to_none ModifyMessage), (@calls_to_none GetMessage);
      [split; reflexivity| |];
      (eapply Forall_impl; [|exact H]); intros c Hc; rewrite Hc; discriminate. }
  assert (Hc2 : forall cs, Forall (fun c => target c = ListLabels \/ target c = CreateLabel) cs ->
                           succeeded_calls ModifyMessage cs = 0 /\ calls_to GetMessage cs = []).
  { intros cs H. unfold succeeded_calls.
    rewrite (@calls_to_none ModifyMessage), (@calls_to_none GetMessage);
      [split; reflexivity| |];
      (eapply Forall_impl; [|exact H]); intros c [Hc|Hc]; rewrite Hc; discriminate. }
  destruct (Hc1 _ (classifyEmail_calls provider ANTHROPIC_API_KEY email st)) as [A1 A2].
  unfold processEmail.
  destruct (value (classifyEmail provider ANTHROPIC_API_KEY email st))
    as [label|message] eqn:E1.
  2:{ rewrite (bind_Throw _ _ _ E1). cbn [value issued threw]. split; assumption. }
  rewrite (bind_Return _ _ _ E1). cbn [value issued].
  set (st1 := final (classifyEmail provider ANTHROPIC_API_KEY email st)).
  destruct (label_name_of_category st1 (classifyEmail_category provider _ _ _ E1))
    as [labelName En].
  rewrite (bind_Return _ _ st1 (f_equal (@value W string) En)). rewrite En.
  cbn [value final issued app].
  destruct (Hc2 _ (getOrCreateLabel_calls provider accessToken labelName st1)) as [B1 B2].
  destruct (value (getOrCreateLabel provider accessToken labelName st1))
    as [labelId|message] eqn:E3.
  2:{ rewrite (bind_Throw _ _ _ E3). cbn [value issued threw].
      rewrite succeeded_calls_app, calls_to_app, A1, A2, B1, B2. split; reflexivity. }
  rewrite (bind_Return _ _ _ E3). cbn [value issued].
  pose proof (applyLabel_run accessToken (Email.id email) labelId
                (final (getOrCreateLabel provider accessToken labelName st1))) as E4.
  cbv zeta in E4.
  destruct (fst (provider ModifyMessage (modify_request accessToken (Email.id email) labelId) _)).
  - rewrite (bind_Return _ _ _ (f_equal (@value W unit) E4)). rewrite E4.
    cbn [value final issued threw ret app].
    rewrite !succeeded_calls_app, !calls_to_app, A1, A2, B1, B2. split; reflexivity.
  - rewrite (bind_Throw _ _ _ (f_equal (@value W unit) E4)). rewrite E4.
    cbn [value final issued threw ret app].
    rewrite !succeeded_calls_app, !calls_to_app, A1, A2, B1, B2. split; reflexivity.
  - rewrite (bind_Throw _ _ _ (f_equal (@value W unit) E4)). rewrite E4.
    cbn [value final issued threw ret app].
    rewrite !succeeded_calls_app, !calls_to_app, A1, A2, B1, B2. split; reflexivity.
Qed.

Lemma attempt_issued :
  forall accessToken email v (st : State W),
    issued
      (try_catch
         (bind (processEmail provider ANTHROPIC_API_KEY accessToken email)
               (fun label => ret (mkLocals (results v ++ [(email, label)])
                                           (errors v) (skipped v))))
         (fun _ => ret (mkLocals (results v) (errors v + 1) (skipped v))) st)
    = issued (processEmail provider ANTHROPIC_API_KEY accessToken email st).
Proof.
  intros accessToken email v st. unfold try_catch, bind.
  destruct (value (processEmail provider ANTHROPIC_API_KEY accessToken email st));
    simpl; rewrite ?app_nil_r; reflexivity.
Qed.

Lemma processAll_call_counts :
  forall accessToken emails v (st : State W),
    let r := processAll provider ANTHROPIC_API_KEY accessToken emails v st in
    succeeded_calls ModifyMessage (issued r)
    = length (returned (attempts provider ANTHROPIC_API_KEY accessToken emails st)) /\
    calls_to GetMessage (issued r) = [].
Proof.
  intros accessToken emails.
  induction emails as [|email rest IH]; intros v st; cbn [processAll attempts].
  - split; reflexivity.
  - destruct (attempt_run provider ANTHROPIC_API_KEY accessToken email v st) as [Hv Hf].
    cbv zeta in Hv, Hf.
    cbv zeta. rewrite (bind_Return _ _ _ Hv). cbn [issued].
    rewrite attempt_issued, Hf.
    match goal with
    | |- context [processAll provider ANTHROPIC_API_KEY accessToken rest ?v' ?s] =>
        destruct (IH v' s) as [I1 I2]
    end.
    cbv zeta in I1, I2.
    destruct (processEmail_modify_count accessToken email st) as [P1 P2].
    cbv zeta in P1, P2.
    rewrite succeeded_calls_app, calls_to_app, I1, I2, P1, P2.
    destruct (value (processEmail provider ANTHROPIC_API_KEY accessToken email st));
      cbn [threw returned length]; split; reflexivity.
Qed.

Lemma fetchEmails_Return_inv :
  forall accessToken section pageToken (st : State W) emails nextPageToken,
    value (fetchEmails provider accessToken section pageToken st)
    = Return (emails, nextPageToken) ->
    exists listData w,
      provider ListMessages (GET (list_url section pageToken) accessToken) (world st)
      = (Ok listData, w) /\
      thrown (hydrations provider accessToken (or_nil (messages listData)) w) = None /\
      emails = hydrated (hydrations provider accessToken (or_nil (messages listData)) w).
Proof.
  intros accessToken section pageToken st emails nextPageToken H.
  destruct (provider ListMessages (GET (list_url section pageToken) accessToken) (world st))
    as [[listData|text|message] w] eqn:E.
  - exists listData, w. split; [reflexivity|].
    rewrite (fetchEmails_value provider accessToken section pageToken st E) in H.
    cbv zeta in H.
    destruct (thrown (hydrations provider accessToken (or_nil (messages listData)) w));
      [discriminate|].
    injection H as <- _. split; reflexivity.
  - unfold fetchEmails, bind in H. rewrite (fetch_eq provider _ _ st E) in H.
    discriminate.
  - unfold fetchEmails, bind in H. rewrite (fetch_eq provider _ _ st E) in H.
    discriminate.
Qed.

Lemma hydration_call_counts :
  forall accessToken (hs : list (string * response Detail)),
    let cs := map (fun h => mkCall GetMessage (GET (detail_url (fst h)) accessToken)
                                   (ok (snd h))) hs in
    succeeded_calls GetMessage cs = length (hydrated hs) /\
    calls_to ModifyMessage cs = [].
Proof.
  intros accessToken hs. cbv zeta. unfold succeeded_calls, calls_to.
  induction hs as [|[msg [detail|text|message]] hs [IH1 IH2]];
    cbn [map filter target succeeded ok fst snd hydrated length];
    try rewrite IH1; try rewrite IH2; split; reflexivity.
Qed.

End CallCounts.

(** C5. A detail call that throws is not skipped: its exception leaves
    the hydration loop and [fetchEmails], which has no [try] around it, and
    reaches the outer [catch] of [serve]. The batch is answered with status
    400 and the exception's message; the listed messages after it are never
    asked for, and the messages hydrated before it are neither classified
    nor labelled. *)
Theorem hydration_exception_fails_the_batch :
  forall W (provider : forall e, request -> W -> response (body_of e) * W)
         ANTHROPIC_API_KEY req accessToken (st : State W) listData w message,
    ServeRequest.method req <> "OPTIONS" ->
    ServeRequest.accessToken req = Some accessToken ->
    JsString.truthy accessToken = true ->
    provider ListMessages
             (GET (list_url (section_of req) (ServeRequest.pageToken req)) accessToken)
             (world st)
    = (Ok listData, w) ->
    let hs := hydrations provider accessToken (or_nil (messages listData)) w in
    thrown hs = Some message ->
    let run := serve provider ANTHROPIC_API_KEY req st in
    value run = Return (Json 400 (Failure message)) /\
    issued run
    = mkCall ListMessages
             (GET (list_url (section_of req) (ServeRequest.pageToken req)) accessToken) true
      :: map (fun h => mkCall GetMessage (GET (detail_url (fst h)) accessToken) (ok (snd h)))
             hs /\
    (exists before msg, hs = before ++ [(msg, Fails message)] /\ thrown before = None) /\
    calls_to CreateCompletion (issued run) = [] /\
    calls_to CreateLabel (issued run) = [] /\
    calls_to ModifyMessage (issued run) = [] /\
    labelCache (final run) = labelCache st.
Proof.
  intros W provider KEY req accessToken st listData w message Hm Ht Htruthy Hl hs Hn run.
  set (fetched := fetchEmails provider accessToken (section_of req)
                              (ServeRequest.pageToken req) st).
  assert (Hf : value fetched = Throw message).
  { unfold fetched. rewrite (fetchEmails_value provider _ _ _ st Hl).
    cbv zeta. fold hs. rewrite Hn. reflexivity. }
  destruct (fetchEmails_issued provider accessToken (section_of req)
              (ServeRequest.pageToken req) st Hl) as [Hi Hc].
  cbv zeta in Hi, Hc. fold hs in Hi. fold fetched in Hi, Hc.
  assert (E : run = mkRun (Return (Json 400 (Failure message))) (final fetched)
                          (issued fetched)).
  { unfold run, serve. apply String.eqb_neq in Hm. rewrite Hm.
    assert (B : processBatch provider KEY req st
                = mkRun (Throw message) (final fetched) (issued fetched)).
    { unfold processBatch. rewrite (read_parsed _ Ht), Ht, Htruthy. cbn [negb].
      fold (section_of req). fold fetched.
      rewrite (bind_Throw _ _ _ Hf). reflexivity. }
    unfold try_catch.
    rewrite (bind_Throw _ _ st (f_equal (@value W ProcessingResult.t) B)). rewrite B.
    cbn [value final issued ret]. rewrite app_nil_r. reflexivity. }
  rewrite E. cbn [value final issued]. rewrite Hi, Hc.
  assert (T : Forall (fun c => target c = ListMessages \/ target c = GetMessage)
                     (mkCall ListMessages
                        (GET (list_url (section_of req) (ServeRequest.pageToken req))
                             accessToken) true
                      :: map (fun h => mkCall GetMessage (GET (detail_url (fst h)) accessToken)
                                              (ok (snd h))) hs)).
  { constructor; [left; reflexivity|].
    apply Forall_forall. intros c Hin. apply in_map_iff in Hin.
    destruct Hin as (h & <- & _). right. reflexivity. }
  split; [reflexivity|]. split; [reflexivity|].
  split; [exact (hydrations_last provider accessToken _ w Hn)|].
  repeat split;
    apply calls_to_none; (eapply Forall_impl; [|exact T]);
    intros c [Hc'|Hc']; rewrite Hc'; discriminate.
Qed.

Lemma hydration_exception_fails_the_batch_witness :
  let run := serve Flaky.provider (Some "key") (Mock.request "inbox")
                   (Mock.fresh [Mock.says "receipt"; Mock.says "fyi"]) in
  value run = Return (Json 400 (Failure "connection reset")) /\
  map (fun c => (target c, url (sent c), succeeded c)) (issued run)
  = [(ListMessages, list_url "inbox" None, true);
     (GetMessage, detail_url "m1", true);
     (GetMessage, detail_url "m2", false)] /\
  calls_to ModifyMessage (issued run) = [].
Proof.
  intros run.
  destruct (@hydration_exception_fails_the_batch Mock.World Flaky.provider (Some "key")
              (Mock.request "inbox") "token"
              (Mock.fresh [Mock.says "receipt"; Mock.says "fyi"])
              (mkMessageList (Some ["m1"; "m2"; "m3"]) (Some "A"))
              (Mock.mkWorld [Mock.says "receipt"; Mock.says "fyi"] 0)
              "connection reset")
    as (H1 & H2 & _ & _ & _ & H6 & _).
  - discriminate.
  - reflexivity.
  - reflexivity.
  - reflexivity.
  - reflexivity.
  - unfold run. split; [exact H1|]. split; [rewrite H2; reflexivity|exact H6].
Defined.

(** X7. The counters of a success payload can be read off the calls the
    batch issued: [total] is the number of detail calls that came back ok,
    [processed] is the number of modify calls that came back ok (one per
    entry of [results], never two for one message), and [errors] is the
    difference. *)
Theorem serve_counters_match_calls :
  forall W (provider : forall e, request -> W -> response (body_of e) * W)
         ANTHROPIC_API_KEY req (st : State W) status r,
    let run := serve provider ANTHROPIC_API_KEY req st in
    value run = Return (Json status (Success r)) ->
    ProcessingResult.total r = Z.of_nat (succeeded_calls GetMessage (issued run)) /\
    ProcessingResult.processed r = Z.of_nat (succeeded_calls ModifyMessage (issued run)) /\
    ProcessingResult.errors r
    = (ProcessingResult.total r - ProcessingResult.processed r)%Z /\
    Z.of_nat (length (ProcessingResult.results r)) = ProcessingResult.processed r.
Proof.
  intros W provider KEY req st status r run H. subst run.
  destruct (serve_success_inv provider KEY req st H)
    as (tok & emails & next & Hm & Ht & Htruthy & Hf & _ & ->).
  set (fetched := fetchEmails provider tok (section_of req) (ServeRequest.pageToken req) st) in *.
  assert (I : issued (serve provider KEY req st)
              = issued fetched ++ issued (processAll provider KEY tok emails
                                            (mkLocals [] 0 0) (final fetched))).
  { unfold serve. apply String.eqb_neq in Hm. rewrite Hm.
    assert (B : issued (processBatch provider KEY req st)
                = issued fetched ++ issued (processAll provider KEY tok emails
                                              (mkLocals [] 0 0) (final fetched))
                /\ exists p, value (processBatch provider KEY req st) = Return p).
    { unfold processBatch. rewrite (read_parsed _ Ht), Ht, Htruthy. cbn [negb].
      fold (section_of req). fold fetched.
      rewrite (bind_Return _ _ _ Hf). cbn [issued value].
      rewrite (bind_Return _ _ _ (processAll_accounts provider KEY tok emails _ _)).
      cbn [issued value ret]. rewrite app_nil_r. split; [reflexivity|eexists; reflexivity]. }
    destruct B as [B [p Hp]].
    unfold try_catch. rewrite (bind_Return _ _ _ Hp). cbn [value issued ret].
    rewrite app_nil_r. exact B. }
  destruct (fetchEmails_Return_inv provider tok (section_of req)
              (ServeRequest.pageToken req) st Hf) as (listData & w & Hl & _ & He).
  destruct (fetchEmails_issued provider tok (section_of req) (ServeRequest.pageToken req)
              st Hl) as (Hi & _).
  cbv zeta in Hi.
  fold fetched in Hi.
  destruct (hydration_call_counts tok
              (hydrations provider tok (or_nil (messages listData)) w)) as [G1 G2].
  cbv zeta in G1, G2.
  destruct (processAll_call_counts provider KEY tok emails (mkLocals [] 0 0) (final fetched))
    as [P1 P2].
  cbv zeta in P1, P2.
  pose proof (attempts_split (attempts provider KEY tok emails (final fetched))) as S1.
  pose proof (f_equal (@length _) (attempts_cover provider KEY tok emails (final fetched))) as S2.
  rewrite length_map in S2.
  cbn [ProcessingResult.total ProcessingResult.processed ProcessingResult.errors
       ProcessingResult.results].
  assert (P2' : succeeded_calls GetMessage
                  (issued (processAll provider KEY tok emails (mkLocals [] 0 0)
                                      (final fetched))) = 0)
    by (unfold succeeded_calls; rewrite P2; reflexivity).
  assert (G2' : succeeded_calls ModifyMessage
                  (map (fun h => mkCall GetMessage (GET (detail_url (fst h)) tok) (ok (snd h)))
                       (hydrations provider tok (or_nil (messages listData)) w)) = 0)
    by (unfold succeeded_calls; rewrite G2; reflexivity).
  rewrite I, !succeeded_calls_app, P1, P2', Hi.
  change (?c :: ?l) with ([c] ++ l).
  rewrite !succeeded_calls_app, G1, G2'.
  unfold succeeded_calls. cbn [calls_to filter target length].
  rewrite <- He.
  repeat split; lia.
Qed.

Lemma serve_counters_match_calls_witness :
  let run := serve Mock.provider (Some "key") (Mock.request "inbox")
                   (Mock.fresh [NotOk "overloaded"; Mock.says "marketing"]) in
  exists r,
    value run = Return (Json 200 (Success r)) /\
    ProcessingResult.total r = 2%Z /\
    succeeded_calls GetMessage (issued run) = 2 /\
    ProcessingResult.processed r = 1%Z /\
    succeeded_calls ModifyMessage (issued run) = 1.
Proof.
  intros run. eexists. split; [vm_compute; reflexivity|].
  destruct (@serve_counters_match_calls Mock.World Mock.provider (Some "key")
              (Mock.request "inbox")
              (Mock.fresh [NotOk "overloaded"; Mock.says "marketing"]) 200 _
              (eq_refl : value run = Return (Json 200 (Success _))))
    as (H1 & H2 & _).
  fold run in H1, H2.
  assert (G : succeeded_calls GetMessage (issued run) = 2) by (vm_compute; reflexivity).
  assert (M : succeeded_calls ModifyMessage (issued run) = 1) by (vm_compute; reflexivity).
  rewrite G in H1. rewrite M in H2.
  split; [exact H1|]. split; [exact G|]. split; [exact H2|exact M].
Defined.

(* ================================================================== *)
(** * The requests the edge function builds *)

Lemma own_In :
  forall o k v, JsObject.own o k = Some v -> In v (JsObject.values o).
Proof.
  induction o as [|[k' v'] o IH]; intros k v H; simpl in H.
  - discriminate.
  - unfold JsObject.values. cbn [map snd].
    destruct (k' =? k); [injection H as <-; left; reflexivity|].
    right. exact (IH k v H).
Qed.

Lemma issues_built_refl :
  forall W KEY accessToken (st : State W), issues_built KEY accessToken st [] st.
Proof. intros. constructor. Qed.

Lemma issues_built_trans :
  forall W KEY accessToken (s1 : State W) c1 (s2 : State W) c2 (s3 : State W),
    issues_built KEY accessToken s1 c1 s2 -> issues_built KEY accessToken s2 c2 s3 ->
    issues_built KEY accessToken s1 (c1 ++ c2) s3.
Proof.
  unfold issues_built. intros. apply Forall_app. split; assumption.
Qed.

Lemma respects_bind_ret :
  forall W (R : State W -> list call -> State W -> Prop) A B (a : A) (k : A -> M W B),
    respects R (k a) -> respects R (bind (ret a) k).
Proof.
  intros W R A B a k H st. unfold bind, ret. simpl. apply H.
Qed.

Lemma respects_bind_throw :
  forall W (R : State W -> list call -> State W -> Prop) A B message (k : A -> M W B),
    (forall st, R st [] st) -> respects R (bind (throw message) k).
Proof.
  intros W R A B message k H st. unfold bind, throw. simpl. apply H.
Qed.

Section Shapes.

Variable W : Type.
Variable provider : forall e : endpoint, request -> W -> response (body_of e) * W.

Lemma built_fetch :
  forall KEY accessToken e r,
    (forall flag, built_by KEY accessToken (mkCall e r flag)) ->
    respects (issues_built KEY accessToken) (fetch provider e r).
Proof.
  intros KEY accessToken e r H st. unfold issues_built. rewrite fetch_issued.
  constructor; [apply H|constructor].
Qed.

Ltac built_step :=
  match goal with
  | |- respects _ (bind _ _) =>
      apply respects_bind; [apply issues_built_trans| |intros ?]
  | |- respects _ (try_catch _ _) =>
      apply respects_try_catch; [apply issues_built_trans| |intros ?]
  | |- respects _ (ret _) => apply respects_ret; apply issues_built_refl
  | |- respects _ (throw _) => apply respects_throw; apply issues_built_refl
  | |- respects _ (fetch _ _ _) => apply built_fetch; intros ?; constructor
  | |- respects _ (@read_labelCache _) => unfold respects, issues_built; intros ?; constructor
  | |- respects _ (write_labelCache _) => unfold respects, issues_built; intros ?; constructor
  | |- respects _ (match ?x with _ => _ end) => destruct x
  end.

Lemma hydrate_built :
  forall KEY accessToken messages emails,
    respects (issues_built KEY accessToken) (hydrate provider accessToken messages emails).
Proof.
  intros KEY accessToken messages.
  induction messages as [|msg rest IH]; intros emails; cbn [hydrate].
  - built_step.
  - repeat first [apply IH | built_step].
Qed.

Lemma fetchEmails_built :
  forall KEY accessToken section pageToken,
    respects (issues_built KEY accessToken)
             (fetchEmails provider accessToken section pageToken).
Proof.
  intros. unfold fetchEmails. repeat first [apply hydrate_built | built_step].
Qed.

Lemma classifyEmail_built :
  forall KEY accessToken email,
    respects (issues_built KEY accessToken) (classifyEmail provider KEY email).
Proof.
  intros KEY accessToken email. unfold classifyEmail.
  destruct KEY as [apiKey|]; [|built_step].
  destruct (negb (JsString.truthy apiKey)); [built_step|].
  apply respects_bind; [apply issues_built_trans| |intros ?].
  - apply built_fetch. intros flag. constructor. reflexivity.
  - repeat built_step.
Qed.

Lemma getOrCreateLabel_built :
  forall KEY accessToken labelName,
    In labelName getOurLabelNames ->
    respects (issues_built KEY accessToken)
             (getOrCreateLabel provider accessToken labelName).
Proof.
  intros KEY accessToken labelName Hn. unfold getOrCreateLabel, getAllLabels.
  repeat first [built_step | exact Hn].
Qed.

Lemma applyLabel_built :
  forall KEY accessToken messageId labelId,
    respects (issues_built KEY accessToken)
             (applyLabel provider accessToken messageId labelId).
Proof.
  intros. unfold applyLabel. repeat built_step.
Qed.

Lemma processEmail_built :
  forall KEY accessToken email,
    respects (issues_built KEY accessToken)
             (processEmail provider KEY accessToken email).
Proof.
  intros KEY accessToken email. unfold processEmail.
  apply respects_bind; [apply issues_built_trans|apply classifyEmail_built|intros label].
  unfold label_name, JsObject.get.
  destruct (JsObject.own LABEL_MAP label) as [labelName|] eqn:E.
  - apply respects_bind_ret.
    apply respects_bind; [apply issues_built_trans| |intros labelId].
    + apply getOrCreateLabel_built. exact (own_In _ _ E).
    + repeat first [apply applyLabel_built | built_step].
  - destruct (JsObject.mem label JsObject.Object_prototype);
      apply respects_bind_throw; apply issues_built_refl.
Qed.

Lemma processAll_built :
  forall KEY accessToken emails v,
    respects (issues_built KEY accessToken)
             (processAll provider KEY accessToken emails v).
Proof.
  intros KEY accessToken emails.
  induction emails as [|email rest IH]; intros v; cbn [processAll].
  - built_step.
  - repeat first [apply processEmail_built | apply IH | built_step].
Qed.

Lemma serve_built :
  forall KEY req,
    respects (issues_built KEY (or_empty (ServeRequest.accessToken req)))
             (serve provider KEY req).
Proof.
  intros KEY req. unfold serve, processBatch.
  destruct (ServeRequest.method req =? "OPTIONS"); [built_step|].
  destruct (ServeRequest.accessToken req) as [accessToken|]; cbn [or_empty];
    [|repeat built_step].
  destruct (negb (JsString.truthy accessToken)); [repeat built_step|].
  repeat first [apply fetchEmails_built | apply processAll_built | built_step].
Qed.

End Shapes.

Lemma built_by_carries :
  forall KEY accessToken c,
    built_by KEY accessToken c ->
    carries_credentials KEY accessToken c /\ creates_category_label accessToken c.
Proof.
  intros KEY accessToken c H.
  destruct H as [section pageToken flag|id flag|apiKey email flag Hk|flag
                 |labelName flag Hn|messageId labelId flag];
    (split; [|try (intros Ht; discriminate Ht)]);
    unfold carries_credentials; cbn [target sent].
  - unfold list_url.
    destruct pageToken as [t|]; [destruct (JsString.truthy t)|];
      (split; [reflexivity|split; [left; reflexivity|reflexivity]]).
  - split; [reflexivity|split; [left; reflexivity|reflexivity]].
  - split; [reflexivity|]. split; [|reflexivity].
    exists apiKey. split; [exact Hk|right; left; reflexivity].
  - split; [reflexivity|split; [left; reflexivity|reflexivity]].
  - split; [reflexivity|split; [left; reflexivity|reflexivity]].
  - intros _. exists labelName. split; [exact Hn|reflexivity].
  - split; [reflexivity|split; [left; reflexivity|reflexivity]].
Qed.

(** X8. In one invocation of the edge function every call to the mail
    provider goes to [gmail.googleapis.com] with the caller's access token
    as bearer and without the API key, every call to the classification
    service goes to [api.anthropic.com] with the configured API key and
    without the access token header, and every create-label call asks for
    one of the ten category names. *)
Theorem serve_keeps_credentials_apart :
  forall W (provider : forall e, request -> W -> response (body_of e) * W)
         ANTHROPIC_API_KEY req (st : State W),
    let accessToken := or_empty (ServeRequest.accessToken req) in
    Forall (fun c => carries_credentials ANTHROPIC_API_KEY accessToken c /\
                     creates_category_label accessToken c)
           (issued (serve provider ANTHROPIC_API_KEY req st)).
Proof.
  intros W provider KEY req st accessToken.
  eapply Forall_impl; [|exact (serve_built provider KEY req st)].
  intros c H. apply built_by_carries. exact H.
Qed.

(* ================================================================== *)
(** * More on the label resolver *)

Lemma In_mem : forall k ks, In k ks -> JsObject.mem k ks = true.
Proof.
  induction ks as [|k' ks IH]; simpl; intros H.
  - contradiction.
  - destruct H as [H|H].
    + subst k'. rewrite String.eqb_refl. reflexivity.
    + rewrite (IH H). apply orb_true_r.
Qed.

Lemma find_some_In :
  forall A (f : A -> bool) l x, find f l = Some x -> In x l /\ f x = true.
Proof.
  induction l as [|a l IH]; simpl; intros x H.
  - discriminate.
  - destruct (f a) eqn:E.
    + injection H as <-. split; [left; reflexivity|exact E].
    + destruct (IH x H) as [H1 H2]. split; [right; exact H1|exact H2].
Qed.

(** X9. A failed resolution is not remembered. If [getOrCreateLabel]
    throws, either the label list could not be fetched (the list call was
    answered not ok, reported as [Failed to fetch labels], or it threw, and
    its exception goes on), the cache is still empty and the next resolution
    asks for the list again; or the create call failed (answered not ok,
    reported as [Failed to create label: <text>], or it threw), the cache
    holds the label list without an entry for the name, and the next
    resolution of that name issues a create call again. *)
Theorem getOrCreateLabel_failure_is_not_cached :
  forall W (provider : forall e, request -> W -> response (body_of e) * W)
         accessToken labelName (st : State W) message,
    let r := getOrCreateLabel provider accessToken labelName st in
    value r = Throw message ->
    ((message = "Failed to fetch labels" \/
      fst (provider ListLabels (GET labels_url accessToken) (world st)) = Fails message) /\
     labelCache st = None /\ labelCache (final r) = None /\
     issued r = [mkCall ListLabels (GET labels_url accessToken) false] /\
     forall accessToken',
       calls_to ListLabels
         (issued (getOrCreateLabel provider accessToken' labelName (final r))) <> [])
    \/
    (exists cached,
        ((exists text, message = ("Failed to create label: " ++ text)%string) \/
         (exists w, fst (provider CreateLabel (create_label_request accessToken labelName) w)
                    = Fails message)) /\
        labelCache (final r) = Some cached /\
        find (same_name labelName) cached = None /\
        calls_to CreateLabel (issued r)
        = [mkCall CreateLabel (create_label_request accessToken labelName) false] /\
        forall accessToken',
          calls_to CreateLabel
            (issued (getOrCreateLabel provider accessToken' labelName (final r))) <> []).
Proof.
  intros W provider accessToken labelName st message r Hv. subst r.
  assert (P : forall (s : State W) cached,
             labelCache s = Some cached ->
             value (getOrCreateLabel provider accessToken labelName s) = Throw message ->
             ((exists text, message = ("Failed to create label: " ++ text)%string) \/
              (exists w, fst (provider CreateLabel
                                (create_label_request accessToken labelName) w)
                         = Fails message)) /\
             labelCache (final (getOrCreateLabel provider accessToken labelName s))
             = Some cached /\
             find (same_name labelName) cached = None /\
             issued (getOrCreateLabel provider accessToken labelName s)
             = [mkCall CreateLabel (create_label_request accessToken labelName) false]).
  { intros s cached Hc H.
    destruct (find (same_name labelName) cached) as [l|] eqn:Hf.
    - rewrite (getOrCreateLabel_hit provider accessToken labelName s Hc Hf) in H.
      discriminate.
    - pose proof (getOrCreateLabel_miss provider accessToken labelName s Hc Hf) as E.
      cbv zeta in E. rewrite E in *. clear E.
      destruct (provider CreateLabel (create_label_request accessToken labelName) (world s))
        as [[newLabel|error|thrown_message] w] eqn:Ep; simpl in H; [discriminate| |].
      + injection H as <-. split; [left; exists error; reflexivity|]. repeat split.
      + injection H as <-. split; [right; exists (world s); rewrite Ep; reflexivity|].
        repeat split. }
  assert (Again : forall (s : State W) cached accessToken',
             labelCache s = Some cached ->
             find (same_name labelName) cached = None ->
             calls_to CreateLabel
               (issued (getOrCreateLabel provider accessToken' labelName s)) <> []).
  { intros s cached accessToken' Hc Hf.
    pose proof (getOrCreateLabel_miss provider accessToken' labelName s Hc Hf) as E.
    cbv zeta in E. rewrite E.
    destruct (provider CreateLabel (create_label_request accessToken' labelName) (world s))
      as [[newLabel|error|thrown_message] w]; simpl; discriminate. }
  assert (Relist : forall w accessToken',
             calls_to ListLabels
               (issued (getOrCreateLabel provider accessToken' labelName (mkState w None)))
             <> []).
  { intros w accessToken'.
    pose proof (getOrCreateLabel_uncached provider accessToken' labelName
                  (mkState w None) eq_refl) as E.
    cbv zeta in E.
    pose proof (getAllLabels_uncached provider accessToken' (mkState w None) eq_refl) as L.
    cbv zeta in L. rewrite E, L. clear E L.
    destruct (provider ListLabels (GET labels_url accessToken') (world (mkState w None)))
      as [[data'|text'|message'] w']; simpl; discriminate. }
  destruct (labelCache st) as [cached|] eqn:Hc.
  - right. destruct (P st cached Hc Hv) as (H1 & H2 & H3 & H4).
    exists cached. repeat split; auto.
    + rewrite H4. reflexivity.
    + intros accessToken'. exact (Again _ cached accessToken' H2 H3).
  - pose proof (getOrCreateLabel_uncached provider accessToken labelName st Hc) as E.
    cbv zeta in E.
    pose proof (getAllLabels_uncached provider accessToken st Hc) as L.
    cbv zeta in L.
    destruct (provider ListLabels (GET labels_url accessToken) (world st))
      as [[data|text|thrown_message] w] eqn:Ep; simpl fst in L; simpl snd in L;
      cbv iota in L;
      rewrite L in E; cbn [value final issued app] in E; rewrite E in *; clear E L;
      cbn [value final issued] in Hv.
    + right.
      destruct (P (mkState w (Some (or_nil (labels data)))) _ eq_refl Hv)
        as (H1 & H2 & H3 & H4).
      exists (or_nil (labels data)).
      cbn [value final issued labelCache world].
      repeat split; auto.
      * change (?c :: ?l) with ([c] ++ l). rewrite calls_to_app, H4. reflexivity.
      * intros accessToken'. exact (Again _ _ accessToken' H2 H3).
    + left. injection Hv as <-. cbn [final issued labelCache].
      split; [left; reflexivity|]. repeat split. apply Relist.
    + left. injection Hv as <-. cbn [final issued labelCache fst].
      split; [right; reflexivity|]. repeat split. apply Relist.
Qed.

Lemma getOrCreateLabel_failure_is_not_cached_witness :
  let r := getOrCreateLabel Offline.provider "token" "Receipt" Offline.fresh in
  value r = Throw "Failed to fetch labels" /\
  labelCache (final r) = None /\
  calls_to ListLabels (issued (getOrCreateLabel Offline.provider "token" "Receipt" (final r)))
  <> [].
Proof.
  intros r. split; [reflexivity|].
  destruct (@getOrCreateLabel_failure_is_not_cached unit Offline.provider "token" "Receipt"
              Offline.fresh "Failed to fetch labels" eq_refl)
    as [(_ & _ & H2 & _ & H4)|(cached & _ & H1 & _)].
  - split; [exact H2|apply H4].
  - discriminate H1.
Defined.

(** X10. With the label list memoized, [getOurLabelIds] issues no call
    and returns the identifiers of exactly the cached labels whose name is
    one of the ten category names up to letter case, in cache order; and
    provided the provider's create-label answer carries the requested name,
    the identifier [getOrCreateLabel] returns for a category name is among
    those [getOurLabelIds] returns afterwards. *)
Theorem getOurLabelIds_covers_resolved :
  forall W (provider : forall e, request -> W -> response (body_of e) * W),
    (forall accessToken (st : State W) cached,
        labelCache st = Some cached ->
        getOurLabelIds provider accessToken st
        = mkRun (Return (map Label.id (filter is_ours cached))) st []) /\
    (forall accessToken accessToken' labelName (st : State W) labelId,
        echoes_name provider ->
        In labelName getOurLabelNames ->
        let first := getOrCreateLabel provider accessToken labelName st in
        value first = Return labelId ->
        exists ids,
          getOurLabelIds provider accessToken' (final first)
          = mkRun (Return ids) (final first) [] /\
          In labelId ids).
Proof.
  intros W provider.
  assert (A : forall accessToken (st : State W) cached,
             labelCache st = Some cached ->
             getOurLabelIds provider accessToken st
             = mkRun (Return (map Label.id (filter is_ours cached))) st []).
  { intros accessToken st cached Hc. unfold getOurLabelIds.
    rewrite (bind_Return _ _ _ (a := cached));
      rewrite (getAllLabels_cached provider accessToken st Hc); [|reflexivity].
    reflexivity. }
  split; [exact A|].
  intros accessToken accessToken' labelName st labelId echo Hn first Hv.
  destruct (resolved_always echo accessToken labelName st Hv)
    as (cached & l & Hc & Hf & Hid & _).
  fold first in Hc.
  exists (map Label.id (filter is_ours cached)). split; [exact (A _ _ _ Hc)|].
  destruct (find_some_In _ _ Hf) as [Hin Hs].
  rewrite <- Hid. apply in_map. apply filter_In. split; [exact Hin|].
  unfold is_ours. apply In_mem.
  unfold same_name in Hs. apply String.eqb_eq in Hs. rewrite Hs.
  unfold ourLabelNames. apply in_map. exact Hn.
Qed.

Lemma getOurLabelIds_covers_resolved_witness :
  let first := getOrCreateLabel Mock.provider "token" "Receipt" (Mock.fresh []) in
  value first = Return "Label_0" /\
  exists ids,
    getOurLabelIds Mock.provider "token" (final first)
    = mkRun (Return ids) (final first) [] /\
    In "Label_0" ids.
Proof.
  intros first. split; [reflexivity|].
  apply (proj2 (@getOurLabelIds_covers_resolved Mock.World Mock.provider)
               "token" "token" "Receipt" (Mock.fresh []) "Label_0" mock_echoes_name).
  - vm_compute. tauto.
  - reflexivity.
Defined.

Lemma resolution_survives_invocations_witness :
  let first := getOrCreateLabel Mock.provider "token" "Receipt"
                                (Mock.fresh [Mock.says "fyi"; Mock.says "receipt"]) in
  let later := final (serve_all Mock.provider (Some "key")
                                [Mock.request "inbox"; Mock.request "all"] (final first)) in
  value first = Return "Label_0" /\
  getOrCreateLabel Mock.provider "another token" "Receipt" later
  = mkRun (Return "Label_0") later [].
Proof.
  intros first later. split; [reflexivity|].
  exact (@resolution_survives_invocations Mock.World Mock.provider (Some "key")
           "token" "another token" "Receipt"
           (Mock.fresh [Mock.says "fyi"; Mock.says "receipt"]) "Label_0"
           [Mock.request "inbox"; Mock.request "all"] mock_echoes_name eq_refl).
Defined.

Lemma processEmail_applies_resolved_label_witness :
  let email := email_of_detail (Mock.detail "m1" "Your invoice") in
  let st := Mock.fresh [Mock.says "receipt"] in
  let c := mkCall ModifyMessage (modify_request "token" "m1" "Label_0") true in
  In c (issued (processEmail Mock.provider (Some "key") "token" email st)) /\
  exists label labelName labelId,
    value (classifyEmail Mock.provider (Some "key") email st) = Return label /\
    JsObject.own LABEL_MAP label = Some labelName /\
    value (getOrCreateLabel Mock.provider "token" labelName
             (final (classifyEmail Mock.provider (Some "key") email st)))
    = Return labelId /\
    sent c = modify_request "token" (Email.id email) labelId.
Proof.
  intros email st c.
  assert (H : In c (issued (processEmail Mock.provider (Some "key") "token" email st))).
  { vm_compute. right. right. right. left. reflexivity. }
  split; [exact H|].
  exact (@processEmail_applies_resolved_label Mock.World Mock.provider (Some "key")
           "token" email st c H eq_refl).
Defined.

(* ================================================================== *)
(** * Runs of any length *)

Lemma run_app :
  forall d es es', Dashboard.run d (es ++ es') = Dashboard.run (Dashboard.run d es) es'.
Proof.
  intros d es es'. unfold Dashboard.run. apply fold_left_app.
Qed.

Lemma cursor_of_Some :
  forall r t,
    cursor_of r = Some t ->
    exists c t', t = String c t' /\ ProcessingResult.nextPageToken r = Some t.
Proof.
  intros r t H. unfold cursor_of in H.
  destruct (ProcessingResult.nextPageToken r) as [[|c t']|]; cbv in H; try discriminate.
  injection H as <-. exists c, t'. split; reflexivity.
Qed.

Lemma has_cursor_cursor :
  forall r, has_cursor r = true -> exists t, cursor_of r = Some t.
Proof.
  intros r H. unfold has_cursor in H.
  destruct (cursor_of r) as [t|]; [exists t; reflexivity|discriminate].
Qed.

(** The first two steps of a run: the click and the session. *)
Lemma run_begins :
  forall (d : Dashboard.t) section providerToken,
    Dashboard.processing d = false ->
    JsString.truthy providerToken = true ->
    let d1 := Dashboard.run d [Dashboard.ClickProcess section;
                               Dashboard.SessionResolved (Some providerToken)] in
    Dashboard.pc d1
    = Dashboard.AwaitBatch providerToken section [] (Dashboard.mkStats 0 0 0 0 1) /\
    Dashboard.stopRequestedRef d1 = false /\
    Dashboard.invocations d1
    = Dashboard.invocations d ++ [Dashboard.mkInvokeBody providerToken section None] /\
    Dashboard.error d1 = None /\
    Dashboard.result d1 = None /\
    Dashboard.processing d1 = true.
Proof.
  intros d section providerToken Hp Htok d1. subst d1.
  destruct d as [p pa res ts cb err cs stop pc inv ex]. simpl in Hp. subst p.
  destruct providerToken as [|c0 providerToken]; [discriminate|].
  cbv -[Z.add app]. repeat split.
Qed.

(** One full turn of the loop: a batch that returns a cursor, then the pause. *)
Lemma turn_with_cursor :
  forall (d : Dashboard.t) providerToken section allResults stats r t,
    Dashboard.pc d = Dashboard.AwaitBatch providerToken section allResults stats ->
    Dashboard.stopRequestedRef d = false ->
    cursor_of r = Some t ->
    let d2 := Dashboard.step (Dashboard.step d (Dashboard.batch_returns r))
                             Dashboard.DelayElapsed in
    let stats' := Dashboard.mkStats
                    (Dashboard.total stats + ProcessingResult.total r)
                    (Dashboard.processed stats + ProcessingResult.processed r)
                    (Dashboard.skipped stats + ProcessingResult.skipped r)
                    (Dashboard.errors stats + ProcessingResult.errors r) in
    Dashboard.pc d2
    = Dashboard.AwaitBatch providerToken section
        (allResults ++ ProcessingResult.results r) (stats' (Dashboard.batches stats + 1)%Z) /\
    Dashboard.stopRequestedRef d2 = false /\
    Dashboard.invocations d2
    = Dashboard.invocations d ++ [Dashboard.mkInvokeBody providerToken section (Some t)] /\
    Dashboard.error d2 = Dashboard.error d /\
    Dashboard.processing d2 = Dashboard.processing d /\
    Dashboard.totalStats d2 = Some (stats' (Dashboard.batches stats)) /\
    Dashboard.result d2
    = Some (ProcessingResult.make
              (Dashboard.total stats + ProcessingResult.total r)
              (Dashboard.processed stats + ProcessingResult.processed r)
              (Dashboard.skipped stats + ProcessingResult.skipped r)
              (Dashboard.errors stats + ProcessingResult.errors r)
              (allResults ++ ProcessingResult.results r) None).
Proof.
  intros d providerToken section allResults stats r t Hpc Hstop Hc d2 stats'.
  subst d2 stats'.
  destruct (cursor_of_Some r Hc) as (c & t' & -> & Hn).
  destruct d as [p pa res ts cb err cs stop pc inv ex].
  destruct r as [t1 p1 s1 e1 l1 n1].
  simpl in Hpc, Hstop, Hn. subst pc stop n1.
  destruct stats as [T P S E B].
  cbv -[Z.add app Dashboard.or_zero].
  rewrite !or_zero_id. repeat split.
Qed.

(** The last turn: a batch that returns no cursor ends the run. *)
Lemma turn_without_cursor :
  forall (d : Dashboard.t) providerToken section allResults stats r,
    Dashboard.pc d = Dashboard.AwaitBatch providerToken section allResults stats ->
    has_cursor r = false ->
    let d' := Dashboard.step d (Dashboard.batch_returns r) in
    Dashboard.exited d' = Some Dashboard.Completed /\
    Dashboard.pc d' = Dashboard.Idle /\
    Dashboard.processing d' = false /\
    Dashboard.invocations d' = Dashboard.invocations d /\
    Dashboard.error d' = Dashboard.error d /\
    Dashboard.totalStats d'
    = Some (Dashboard.mkStats
              (Dashboard.total stats + ProcessingResult.total r)
              (Dashboard.processed stats + ProcessingResult.processed r)
              (Dashboard.skipped stats + ProcessingResult.skipped r)
              (Dashboard.errors stats + ProcessingResult.errors r)
              (Dashboard.batches stats)) /\
    Dashboard.result d'
    = Some (ProcessingResult.make
              (Dashboard.total stats + ProcessingResult.total r)
              (Dashboard.processed stats + ProcessingResult.processed r)
              (Dashboard.skipped stats + ProcessingResult.skipped r)
              (Dashboard.errors stats + ProcessingResult.errors r)
              (allResults ++ ProcessingResult.results r) None).
Proof.
  intros d providerToken section allResults stats r Hpc Hc d'. subst d'.
  destruct d as [p pa res ts cb err cs stop pc inv ex].
  destruct r as [t1 p1 s1 e1 l1 n1].
  simpl in Hpc. subst pc.
  destruct stats as [T P S E B].
  unfold has_cursor, cursor_of in Hc. cbn [ProcessingResult.nextPageToken] in Hc.
  destruct n1 as [[|c t']|]; try (cbv in Hc; discriminate Hc);
    cbv -[Z.add app Dashboard.or_zero]; rewrite !or_zero_id; repeat split.
Qed.

(** Any number of turns with a cursor leaves the loop waiting for the
    next batch, with everything so far added up. *)
Lemma turns_accumulate :
  forall rs (d : Dashboard.t) providerToken section allResults stats,
    Dashboard.pc d = Dashboard.AwaitBatch providerToken section allResults stats ->
    Dashboard.stopRequestedRef d = false ->
    forallb has_cursor rs = true ->
    let d' := Dashboard.run d
                (flat_map (fun r => [Dashboard.batch_returns r; Dashboard.DelayElapsed]) rs) in
    let T := (Dashboard.total stats + Zsum (map ProcessingResult.total rs))%Z in
    let P := (Dashboard.processed stats + Zsum (map ProcessingResult.processed rs))%Z in
    let S := (Dashboard.skipped stats + Zsum (map ProcessingResult.skipped rs))%Z in
    let E := (Dashboard.errors stats + Zsum (map ProcessingResult.errors rs))%Z in
    let all := allResults ++ concat (map ProcessingResult.results rs) in
    Dashboard.pc d'
    = Dashboard.AwaitBatch providerToken section all
        (Dashboard.mkStats T P S E (Dashboard.batches stats + Z.of_nat (length rs))) /\
    Dashboard.stopRequestedRef d' = false /\
    Dashboard.invocations d'
    = Dashboard.invocations d
      ++ map (Dashboard.mkInvokeBody providerToken section) (map cursor_of rs) /\
    Dashboard.error d' = Dashboard.error d /\
    Dashboard.processing d' = Dashboard.processing d /\
    Dashboard.result d'
    = match rs with
      | [] => Dashboard.result d
      | _ => Some (ProcessingResult.make T P S E all None)
      end.
Proof.
  induction rs as [|r rs IH]; intros d providerToken section allResults stats Hpc Hstop Hrs.
  - cbv zeta. cbn [flat_map map Zsum concat length]. unfold Dashboard.run.
    cbn [fold_left]. rewrite !Z.add_0_r, !app_nil_r.
    destruct stats; repeat split; assumption.
  - cbn [forallb] in Hrs. apply andb_true_iff in Hrs. destruct Hrs as [Hr Hrs].
    destruct (has_cursor_cursor r Hr) as [t Ht].
    destruct (turn_with_cursor d r Hpc Hstop Ht) as (A1 & A2 & A3 & A4 & A5 & _ & A7).
    cbv zeta in A1, A2, A3, A4, A5, A7.
    cbn [flat_map app]. unfold Dashboard.run. cbn [fold_left].
    fold (Dashboard.run
            (Dashboard.step (Dashboard.step d (Dashboard.batch_returns r))
                            Dashboard.DelayElapsed)
            (flat_map (fun r => [Dashboard.batch_returns r; Dashboard.DelayElapsed]) rs)).
    destruct (IH _ _ _ _ _ A1 A2 Hrs) as (B1 & B2 & B3 & B4 & B5 & B6).
    cbv zeta in B1, B2, B3, B4, B5, B6.
    cbn [Dashboard.total Dashboard.processed Dashboard.skipped Dashboard.errors
         Dashboard.batches] in B1, B6.
    cbv zeta. cbn [map Zsum concat length].
    rewrite B1, B2, B3, B4, B5, A3, A4, A5.
    split; [|split; [|split; [|split; [|split]]]]; try reflexivity.
    + rewrite <- !app_assoc. f_equal. f_equal; lia.
    + rewrite <- app_assoc. rewrite Ht. reflexivity.
    + rewrite B6. destruct rs as [|r' rs'].
      * rewrite A7. cbn [map Zsum concat].
        rewrite !Z.add_0_r, !app_nil_r. reflexivity.
      * rewrite <- !app_assoc. f_equal. f_equal; lia.
Qed.

Lemma Zsum_snoc :
  forall A (f : A -> Z) xs x, Zsum (map f (xs ++ [x])) = (Zsum (map f xs) + f x)%Z.
Proof.
  induction xs as [|a xs IH]; intros x; cbn [app map Zsum]; [lia|].
  rewrite IH. lia.
Qed.

(** X13. With no stop request, a run over any number of pages, each
    batch but the last returning a non-empty cursor, issues one batch call
    per page, the first without cursor and each later one with the cursor
    the previous batch returned; it ends through the no-more-pages [break]
    with statistics that are the sums over all batches, the batch count
    equal to the number of pages, and the concatenation of all results. *)
Theorem run_completes_after_last_page :
  forall (d : Dashboard.t) section providerToken rs last,
    Dashboard.processing d = false ->
    JsString.truthy providerToken = true ->
    forallb has_cursor rs = true ->
    has_cursor last = false ->
    let d' := Dashboard.run d
                ([Dashboard.ClickProcess section;
                  Dashboard.SessionResolved (Some providerToken)]
                 ++ batches_then_last rs last) in
    let all := rs ++ [last] in
    let T := Zsum (map ProcessingResult.total all) in
    let P := Zsum (map ProcessingResult.processed all) in
    let S := Zsum (map ProcessingResult.skipped all) in
    let E := Zsum (map ProcessingResult.errors all) in
    Dashboard.invocations d'
    = Dashboard.invocations d
      ++ map (Dashboard.mkInvokeBody providerToken section) (None :: map cursor_of rs) /\
    Dashboard.exited d' = Some Dashboard.Completed /\
    Dashboard.processing d' = false /\
    Dashboard.error d' = None /\
    Dashboard.totalStats d'
    = Some (Dashboard.mkStats T P S E (Z.of_nat (length all))) /\
    Dashboard.result d'
    = Some (ProcessingResult.make T P S E (concat (map ProcessingResult.results all)) None).
Proof.
  intros d section providerToken rs last Hp Htok Hrs Hlast d' all T P S E.
  subst d' T P S E all.
  unfold batches_then_last. rewrite !run_app.
  destruct (@run_begins d section providerToken Hp Htok) as (A1 & A2 & A3 & A4 & _).
  cbv zeta in A1, A2, A3, A4.
  set (d1 := Dashboard.run d [Dashboard.ClickProcess section;
                             Dashboard.SessionResolved (Some providerToken)]) in *.
  destruct (@turns_accumulate rs d1 _ _ _ _ A1 A2 Hrs) as (B1 & _ & B3 & B4 & _).
  cbv zeta in B1, B3, B4.
  cbn [Dashboard.total Dashboard.processed Dashboard.skipped Dashboard.errors
       Dashboard.batches] in B1.
  set (d2 := Dashboard.run d1 _) in *.
  destruct (@turn_without_cursor d2 _ _ _ _ last B1 Hlast)
    as (C1 & _ & C3 & C4 & C5 & C6 & C7).
  cbv zeta in C1, C3, C4, C5, C6, C7.
  cbn [Dashboard.total Dashboard.processed Dashboard.skipped Dashboard.errors
       Dashboard.batches] in C6, C7.
  change (Dashboard.run d2 [Dashboard.batch_returns last])
    with (Dashboard.step d2 (Dashboard.batch_returns last)).
  rewrite C1, C3, C4, C5, C6, C7, B3, B4, A3, A4.
  repeat split.
  - rewrite <- app_assoc. reflexivity.
  - rewrite !Zsum_snoc, length_app. cbn [length]. f_equal. f_equal; lia.
  - rewrite !Zsum_snoc, map_app, concat_app. cbn [map concat app]. rewrite app_nil_r.
    reflexivity.
Qed.

Lemma run_completes_after_last_page_witness :
  let page n t := ProcessingResult.make n n 0 0 [] t in
  let rs := [page 50%Z (Some "A"); page 50%Z (Some "B"); page 50%Z (Some "C")] in
  let last := page 4%Z (Some "") in
  let d' := Dashboard.run Dashboard.initial
              ([Dashboard.ClickProcess "inbox"; Dashboard.SessionResolved (Some "token")]
               ++ batches_then_last rs last) in
  map Dashboard.pageToken (Dashboard.invocations d')
  = [None; Some "A"; Some "B"; Some "C"] /\
  Dashboard.exited d' = Some Dashboard.Completed /\
  Dashboard.totalStats d' = Some (Dashboard.mkStats 154 154 0 0 4).
Proof.
  intros page rs last d'.
  destruct (@run_completes_after_last_page Dashboard.initial "inbox" "token" rs last
              eq_refl eq_refl eq_refl eq_refl)
    as (H1 & H2 & _ & _ & H5 & _).
  fold d' in H1, H2, H5.
  split; [rewrite H1; reflexivity|]. split; [exact H2|exact H5].
Defined.

(** X14. When a batch call fails (the function invocation reports an
    error, or the payload carries a non-empty [error]) after any number of
    successful batches, the run ends in the [catch] with that message, the
    statistics and results accumulated from the earlier batches stay on
    display, and no further batch call is issued. *)
Theorem batch_failure_keeps_earlier_results :
  forall (d : Dashboard.t) section providerToken rs bad message,
    Dashboard.processing d = false ->
    JsString.truthy providerToken = true ->
    forallb has_cursor rs = true ->
    Dashboard.processOneBatch bad = Throw message ->
    let d' := Dashboard.run d
                ([Dashboard.ClickProcess section;
                  Dashboard.SessionResolved (Some providerToken)]
                 ++ flat_map (fun r => [Dashboard.batch_returns r; Dashboard.DelayElapsed]) rs
                 ++ [Dashboard.InvokeResolved bad]) in
    Dashboard.exited d' = Some Dashboard.Failed /\
    Dashboard.error d' = Some message /\
    Dashboard.processing d' = false /\
    Dashboard.pc d' = Dashboard.Idle /\
    Dashboard.invocations d'
    = Dashboard.invocations d
      ++ map (Dashboard.mkInvokeBody providerToken section) (None :: map cursor_of rs) /\
    Dashboard.result d'
    = match rs with
      | [] => None
      | _ => Some (ProcessingResult.make
                     (Zsum (map ProcessingResult.total rs))
                     (Zsum (map ProcessingResult.processed rs))
                     (Zsum (map ProcessingResult.skipped rs))
                     (Zsum (map ProcessingResult.errors rs))
                     (concat (map ProcessingResult.results rs)) None)
      end.
Proof.
  intros d section providerToken rs bad message Hp Htok Hrs Hbad d'. subst d'.
  rewrite !run_app.
  destruct (@run_begins d section providerToken Hp Htok) as (A1 & A2 & A3 & _ & A5 & _).
  cbv zeta in A1, A2, A3, A5.
  set (d1 := Dashboard.run d [Dashboard.ClickProcess section;
                             Dashboard.SessionResolved (Some providerToken)]) in *.
  destruct (@turns_accumulate rs d1 _ _ _ _ A1 A2 Hrs) as (B1 & _ & B3 & _ & _ & B6).
  cbv zeta in B1, B3, B6.
  cbn [Dashboard.total Dashboard.processed Dashboard.skipped Dashboard.errors
       Dashboard.batches] in B1, B6.
  set (d2 := Dashboard.run d1 _) in *.
  change (Dashboard.run d2 [Dashboard.InvokeResolved bad])
    with (Dashboard.step d2 (Dashboard.InvokeResolved bad)).
  assert (S : Dashboard.step d2 (Dashboard.InvokeResolved bad) = Dashboard.fail message d2).
  { unfold Dashboard.step. rewrite B1, Hbad. reflexivity. }
  rewrite S. unfold Dashboard.fail, Dashboard.finish.
  cbn [Dashboard.exited Dashboard.error Dashboard.processing Dashboard.pc
       Dashboard.invocations Dashboard.result].
  rewrite B3, B6, A3, A5.
  repeat split.
  rewrite <- app_assoc. reflexivity.
Qed.

Lemma batch_failure_keeps_earlier_results_witness :
  let r1 := ProcessingResult.make 50 47 0 3 [] (Some "A") in
  let bad := Dashboard.mkInvoked (Some (Dashboard.ErrorBody "Failed to fetch emails: quota"))
                                 None in
  let d' := Dashboard.run Dashboard.initial
              [Dashboard.ClickProcess "all"; Dashboard.SessionResolved (Some "token");
               Dashboard.batch_returns r1; Dashboard.DelayElapsed;
               Dashboard.InvokeResolved bad] in
  Dashboard.exited d' = Some Dashboard.Failed /\
  Dashboard.error d' = Some "Failed to fetch emails: quota" /\
  Dashboard.result d' = Some (ProcessingResult.make 50 47 0 3 [] None).
Proof.
  intros r1 bad d'.
  destruct (@batch_failure_keeps_earlier_results Dashboard.initial "all" "token" [r1] bad
              "Failed to fetch emails: quota" eq_refl eq_refl eq_refl eq_refl)
    as (H1 & H2 & _ & _ & _ & H6).
  split; [exact H1|]. split; [exact H2|exact H6].
Defined.

(** X15. Once Stop has been clicked during a run, at most one more batch
    call is issued, whatever happens next, as long as the user does not
    start a new run. *)
Theorem stop_allows_at_most_one_more_batch :
  forall (d : Dashboard.t) es,
    Dashboard.processing d = true ->
    forallb (fun e => negb (starts_run e)) es = true ->
    length (Dashboard.invocations (Dashboard.run (Dashboard.step d Dashboard.ClickStop) es))
    <= length (Dashboard.invocations d) + 1.
Proof.
  assert (G : forall es (d : Dashboard.t),
             Dashboard.stopRequestedRef d = true ->
             forallb (fun e => negb (starts_run e)) es = true ->
             length (Dashboard.invocations (Dashboard.run d es))
             <= length (Dashboard.invocations d) + calls_left d).
  { induction es as [|e es IH]; intros d Hs Hes.
    - unfold Dashboard.run. simpl. lia.
    - cbn [forallb] in Hes. apply andb_true_iff in Hes. destruct Hes as [He Hes].
      unfold Dashboard.run. cbn [fold_left]. fold (Dashboard.run (Dashboard.step d e) es).
      assert (K : Dashboard.stopRequestedRef (Dashboard.step d e) = true /\
                  length (Dashboard.invocations (Dashboard.step d e))
                  + calls_left (Dashboard.step d e)
                  <= length (Dashboard.invocations d) + calls_left d).
      { destruct d as [p pa res ts cb err cs stop pc inv ex]. simpl in Hs. subst stop.
        destruct e as [section| |token|r|]; [discriminate He| | | |];
          unfold Dashboard.step, calls_left;
          cbn [Dashboard.pc Dashboard.processing].
        - destruct p; simpl; split; [reflexivity|lia|reflexivity|lia].
        - destruct pc; try (simpl; split; [reflexivity|lia]).
          destruct token as [t|]; [destruct (JsString.truthy t)|];
            simpl; rewrite ?length_app; simpl; split; try reflexivity; lia.
        - destruct pc; try (simpl; split; [reflexivity|lia]).
          destruct (Dashboard.processOneBatch r) as [[[b|e]|]|m];
            try (simpl; split; [reflexivity|lia]).
          unfold Dashboard.absorb_batch.
          cbn [Dashboard.stopRequestedRef].
          destruct (ProcessingResult.nextPageToken b) as [t|];
            [destruct (JsString.truthy t)|]; simpl; split; try reflexivity; lia.
        - destruct pc; try (simpl; split; [reflexivity|lia]).
          simpl. rewrite length_app. simpl. split; [reflexivity|lia]. }
      destruct K as [K1 K2]. specialize (IH _ K1 Hes). lia. }
  intros d es Hp Hes.
  assert (S : Dashboard.stopRequestedRef (Dashboard.step d Dashboard.ClickStop) = true /\
              Dashboard.invocations (Dashboard.step d Dashboard.ClickStop)
              = Dashboard.invocations d /\
              calls_left (Dashboard.step d Dashboard.ClickStop) <= 1).
  { destruct d as [p pa res ts cb err cs stop pc inv ex]. simpl in Hp. subst p.
    unfold Dashboard.step, calls_left. simpl. repeat split. destruct pc; lia. }
  destruct S as (S1 & S2 & S3).
  specialize (G es _ S1 Hes). rewrite S2 in G. lia.
Qed.

Lemma stop_allows_at_most_one_more_batch_witness :
  let r n := ProcessingResult.make 50 50 0 0 [] (Some n) in
  let d := Dashboard.run Dashboard.initial
             [Dashboard.ClickProcess "inbox"; Dashboard.SessionResolved (Some "token");
              Dashboard.batch_returns (r "A")] in
  let es := [Dashboard.DelayElapsed; Dashboard.batch_returns (r "B");
             Dashboard.DelayElapsed; Dashboard.batch_returns (r "C");
             Dashboard.DelayElapsed] in
  length (Dashboard.invocations d) = 1 /\
  length (Dashboard.invocations (Dashboard.run (Dashboard.step d Dashboard.ClickStop) es))
  <= 2.
Proof.
  intros r d es. split; [reflexivity|].
  apply (@stop_allows_at_most_one_more_batch d es); reflexivity.
Defined.

(** X16. In every state the dashboard can reach, the summary cards and
    the running statistics agree: whenever a result is on display, so are
    statistics with the same total, processed, skipped and error counts. *)
Theorem summaries_always_agree :
  forall es, summaries_agree (Dashboard.run Dashboard.initial es).
Proof.
  assert (G : forall es d, summaries_agree d -> summaries_agree (Dashboard.run d es)).
  { induction es as [|e es IH]; intros d H.
    - exact H.
    - unfold Dashboard.run. cbn [fold_left]. apply IH.
      destruct d as [p pa res ts cb err cs stop pc inv ex].
      unfold summaries_agree in *. cbn [Dashboard.result Dashboard.totalStats] in H.
      destruct e as [section| |token|r|]; unfold Dashboard.step;
        cbn [Dashboard.pc Dashboard.processing].
      + destruct p; [exact H|exact I].
      + destruct p; exact H.
      + destruct pc; try exact H.
        destruct token as [t|]; [destruct (JsString.truthy t)|]; exact H.
      + destruct pc; try exact H.
        destruct (Dashboard.processOneBatch r) as [[[b|e]|]|m]; try exact H.
        unfold Dashboard.absorb_batch. cbn [Dashboard.stopRequestedRef].
        destruct (ProcessingResult.nextPageToken b) as [t|];
          [destruct (JsString.truthy t); [destruct stop|]|];
          simpl; repeat split.
      + destruct pc; exact H. }
  intros es. apply G. exact I.
Qed.

(* ------------------------------------------------------------------ *)
(** ** The summary by label *)

Lemma own_tally_assign :
  forall acc label v k,
    own_tally (assign label v acc) k
    = if label =? k then Some v else own_tally acc k.
Proof.
  induction acc as [|[k' n] rest IH]; intros label v k; cbn [assign own_tally].
  - reflexivity.
  - destruct (String.eqb_spec k' label) as [->|Hne]; cbn [own_tally].
    + destruct (String.eqb_spec label k); reflexivity.
    + rewrite IH. destruct (String.eqb_spec k' k) as [->|Hk]; [|reflexivity].
      destruct (String.eqb_spec label k) as [->|_]; [congruence|reflexivity].
Qed.

Lemma own_tally_keys :
  forall acc k, In k (map fst acc) <-> own_tally acc k <> None.
Proof.
  induction acc as [|[k' n] rest IH]; intros k; cbn [map fst own_tally In].
  - split; [intros []|congruence].
  - destruct (String.eqb_spec k' k) as [->|Hk].
    + split; [discriminate|auto].
    + rewrite <- IH. split; [intros [?|?]; [congruence|assumption]|auto].
Qed.

Lemma assign_keys :
  forall acc label v,
    map fst (assign label v acc)
    = match own_tally acc label with
      | Some _ => map fst acc
      | None => map fst acc ++ [label]
      end.
Proof.
  induction acc as [|[k' n] rest IH]; intros label v; cbn [assign own_tally map fst].
  - reflexivity.
  - destruct (String.eqb_spec k' label) as [->|Hne]; cbn [map fst].
    + reflexivity.
    + rewrite IH. destruct (own_tally rest label); reflexivity.
Qed.

Lemma assign_total :
  forall acc label v,
    Zsum (map tally_value (map snd (assign label v acc)))
    = (Zsum (map tally_value (map snd acc))
       - match own_tally acc label with Some old => tally_value old | None => 0 end
       + tally_value v)%Z.
Proof.
  induction acc as [|[k' n] rest IH]; intros label v;
    cbn [assign own_tally map snd Zsum].
  - lia.
  - destruct (String.eqb_spec k' label) as [->|Hne]; cbn [map snd Zsum].
    + lia.
    + rewrite IH. lia.
Qed.

Lemma carrying_snoc :
  forall k xs (x : Email.t * string),
    carrying k (xs ++ [x]) = carrying k xs + (if snd x =? k then 1 else 0).
Proof.
  intros k xs x. unfold carrying. rewrite filter_app, length_app.
  cbn [filter]. destruct (snd x =? k); reflexivity.
Qed.

Lemma category_is_not_inherited :
  forall label,
    known_category label ->
    JsObject.mem label JsObject.Object_prototype = false /\
    (label =? "__proto__") = false.
Proof.
  intros label [l <-]. destruct l; split; reflexivity.
Qed.

(** X17. For results whose labels are categories, the summary by label
    shows each label that occurs exactly once, with the number of results
    that carry it, shows no other label, and its counts add up to the
    number of results. *)
Theorem labelCounts_tallies_results :
  forall r,
    Forall (fun x => known_category (snd x)) (ProcessingResult.results r) ->
    exists counts,
      labelCounts (Some r) = Some counts /\
      NoDup (map fst counts) /\
      (forall label,
          own_tally counts label
          = match carrying label (ProcessingResult.results r) with
            | O => None
            | n => Some (Count (Z.of_nat n))
            end) /\
      Zsum (map tally_value (map snd counts))
      = Z.of_nat (length (ProcessingResult.results r)).
Proof.
  intros r H. unfold labelCounts, option_map. eexists. split; [reflexivity|].
  induction (ProcessingResult.results r) as [|x xs IH] using rev_ind.
  - cbn [fold_left map]. split; [constructor|]. split; [intros; reflexivity|reflexivity].
  - apply Forall_app in H. destruct H as [Hxs Hx].
    apply Forall_inv in Hx.
    destruct (category_is_not_inherited Hx) as [Hin Hproto].
    destruct (IH Hxs) as (N & C & T). clear IH.
    rewrite fold_left_app. cbn [fold_left].
    set (acc := fold_left _ xs []) in *.
    unfold bump. rewrite Hproto.
    assert (V : next_tally acc (snd x)
                = Count (Z.of_nat (carrying (snd x) xs) + 1)).
    { unfold next_tally. rewrite C, Hin.
      destruct (carrying (snd x) xs) as [|n]; [reflexivity|].
      rewrite or_zero_id. reflexivity. }
    rewrite V. split; [|split].
    + rewrite assign_keys. destruct (own_tally acc (snd x)) eqn:E; [exact N|].
      apply NoDup_app; [exact N|repeat constructor; intros []|].
      intros k Hk [<-|[]]. apply own_tally_keys in Hk. congruence.
    + intros label. rewrite own_tally_assign, carrying_snoc.
      destruct (String.eqb_spec (snd x) label) as [->|Hne].
      * replace (carrying label xs + 1) with (S (carrying label xs)) by lia.
        f_equal. f_equal. lia.
      * rewrite Nat.add_0_r. apply C.
    + rewrite assign_total, C, T, length_app. cbn [length tally_value].
      destruct (carrying (snd x) xs); cbn [tally_value]; lia.
Qed.

Lemma labelCounts_tallies_results_witness :
  let e n := Email.make n n "subject" "sender" "snippet" "date" ["INBOX"] in
  let r := ProcessingResult.make 3 3 0 0
             [(e "m1", "FYI"); (e "m2", "NEWSLETTER"); (e "m3", "FYI")] None in
  exists counts,
    labelCounts (Some r) = Some counts /\
    map fst counts = ["FYI"; "NEWSLETTER"] /\
    own_tally counts "FYI" = Some (Count 2).
Proof.
  intros e r.
  assert (H : Forall (fun x => known_category (snd x)) (ProcessingResult.results r)).
  { repeat constructor; [exists FYI|exists NEWSLETTER|exists FYI]; reflexivity. }
  destruct (@labelCounts_tallies_results r H) as (counts & L & _ & C & _).
  exists counts. split; [exact L|].
  split; [injection L as <-; reflexivity|exact (C "FYI")].
Defined.

(* ------------------------------------------------------------------ *)
(** ** What the dashboard sends *)

(** X18. Every batch call the dashboard issues, in any run and whatever
    the user clicks, carries a non-empty access token, and a cursor only if
    it is a non-empty one: the dashboard never triggers the edge function's
    [Access token is required] answer. *)
Theorem dashboard_calls_are_sendable :
  forall es,
    forallb sendable (Dashboard.invocations (Dashboard.run Dashboard.initial es)) = true.
Proof.
  assert (G : forall es d,
             forallb sendable (Dashboard.invocations d) = true ->
             holds_sendable (Dashboard.pc d) = true ->
             forallb sendable (Dashboard.invocations (Dashboard.run d es)) = true).
  { induction es as [|e es IH]; intros d Hi Hp.
    - exact Hi.
    - unfold Dashboard.run. cbn [fold_left].
      assert (K : forallb sendable (Dashboard.invocations (Dashboard.step d e)) = true /\
                  holds_sendable (Dashboard.pc (Dashboard.step d e)) = true).
      { destruct d as [p pa res ts cb err cs stop pc inv ex].
        cbn [Dashboard.invocations Dashboard.pc] in Hi, Hp.
        destruct e as [section| |token|r|]; unfold Dashboard.step;
          cbn [Dashboard.pc Dashboard.processing].
        - destruct p; split; assumption || reflexivity.
        - destruct p; split; assumption.
        - destruct pc; try (split; assumption).
          destruct token as [t|]; [destruct (JsString.truthy t) eqn:Et|];
            try (split; [exact Hi|reflexivity]).
          unfold Dashboard.request_batch. cbn [Dashboard.invocations Dashboard.pc].
          rewrite forallb_app, Hi. unfold sendable, holds_sendable. cbn.
          rewrite Et. split; reflexivity.
        - destruct pc; try (split; assumption).
          destruct (Dashboard.processOneBatch r) as [[[b|e]|]|m];
            try (split; [exact Hi|reflexivity]).
          unfold Dashboard.absorb_batch. cbn [Dashboard.stopRequestedRef].
          destruct (ProcessingResult.nextPageToken b) as [t|];
            [destruct (JsString.truthy t) eqn:Et; [destruct stop|]|];
            try (split; [exact Hi|reflexivity]).
          cbn [negb Dashboard.invocations Dashboard.pc holds_sendable] in *.
          rewrite Hp, Et. split; [exact Hi|reflexivity].
        - destruct pc; try (split; assumption).
          unfold Dashboard.request_batch. cbn [Dashboard.invocations Dashboard.pc].
          cbn [holds_sendable] in Hp. apply andb_true_iff in Hp. destruct Hp as [H1 H2].
          rewrite forallb_app, Hi. unfold sendable, holds_sendable. cbn.
          rewrite H1, H2. split; reflexivity. }
      destruct K as [K1 K2]. exact (IH _ K1 K2). }
  intros es. apply G; reflexivity.
Qed.

(* ------------------------------------------------------------------ *)
(** ** Failures of the classification service *)

(** X19. When the classification service turns a request down, the
    message is given up at once with [Claude API error: <text>]: the
    classification call is the only call issued for it, so no label is
    listed, created or applied, and [labelCache] is left alone. *)
Theorem classifier_rejection_skips_labelling :
  forall W (provider : forall e, request -> W -> response (body_of e) * W)
         apiKey accessToken email (st : State W) text w,
    JsString.truthy apiKey = true ->
    provider CreateCompletion (completion_request apiKey email) (world st)
    = (NotOk text, w) ->
    processEmail provider (Some apiKey) accessToken email st
    = mkRun (Throw ("Claude API error: " ++ text)%string)
            (mkState w (labelCache st))
            [mkCall CreateCompletion (completion_request apiKey email) false].
Proof.
  intros W provider apiKey accessToken email st text w Hkey Hresp.
  assert (E : classifyEmail provider (Some apiKey) email st
              = mkRun (Throw ("Claude API error: " ++ text)%string)
                      (mkState w (labelCache st))
                      [mkCall CreateCompletion (completion_request apiKey email) false]).
  { unfold classifyEmail. rewrite Hkey. cbn [negb].
    unfold bind. erewrite fetch_eq by exact Hresp.
    cbn [value final issued throw]. unfold throw. cbn [value final issued].
    rewrite app_nil_r. reflexivity. }
  unfold processEmail.
  rewrite (bind_Throw _ _ st (f_equal (@value W string) E)).
  rewrite E. reflexivity.
Qed.

Lemma classifier_rejection_skips_labelling_witness :
  let email := email_of_detail (Mock.detail "m1" "Your invoice") in
  processEmail Mock.provider (Some "key") "token" email (Mock.fresh [])
  = mkRun (Throw "Claude API error: overloaded") (Mock.fresh [])
          [mkCall CreateCompletion (completion_request "key" email) false].
Proof.
  intros email.
  exact (@classifier_rejection_skips_labelling Mock.World Mock.provider "key" "token"
           email (Mock.fresh []) "overloaded" (Mock.mkWorld [] 0) eq_refl eq_refl).
Defined.

(* ------------------------------------------------------------------ *)
(** ** The status of an answer *)

(** X20. The status of a batch depends on its first stage only: the
    answer is 200 with a success payload exactly when the request carries a
    non-empty access token, the list call is answered ok and no detail call
    throws, and 400 with an error payload otherwise. A detail call that is
    answered not ok, and any failure while classifying or labelling a
    message, leave the status at 200. *)
Theorem serve_status_follows_first_stage :
  forall W (provider : forall e, request -> W -> response (body_of e) * W)
         ANTHROPIC_API_KEY req (st : State W),
    ServeRequest.method req <> "OPTIONS" ->
    let run := serve provider ANTHROPIC_API_KEY req st in
    (first_stage_succeeds provider req st ->
     exists r, value run = Return (Json 200 (Success r))) /\
    (~ first_stage_succeeds provider req st ->
     exists message, value run = Return (Json 400 (Failure message))) /\
    ((exists status r, value run = Return (Json status (Success r))) ->
     first_stage_succeeds provider req st).
Proof.
  intros W provider KEY req st Hm run.
  assert (Yes : first_stage_succeeds provider req st ->
                exists r, value run = Return (Json 200 (Success r))).
  { intros (accessToken & listData & w & Ht & Htruthy & Hl & Hn).
    pose proof (fetchEmails_hydrated provider accessToken (section_of req)
                  (ServeRequest.pageToken req) st Hl Hn) as F.
    eexists. exact (serve_payload provider KEY req st Hm Ht Htruthy F). }
  assert (Back : forall status r,
             value run = Return (Json status (Success r)) ->
             first_stage_succeeds provider req st).
  { intros status r S.
    destruct (serve_success_inv provider KEY req st S)
      as (tok & emails & next & _ & Ht & Htruthy & Hf & _).
    destruct (fetchEmails_Return_inv provider _ _ _ _ Hf)
      as (listData & w & Hl & Hn & _).
    exists tok, listData, w. repeat split; assumption. }
  split; [exact Yes|]. split.
  - intros No.
    destruct (value (processBatch provider KEY req st)) as [r|message] eqn:E.
    + exfalso. apply No. apply (Back 200 r).
      unfold run, serve. apply String.eqb_neq in Hm. rewrite Hm.
      unfold try_catch. rewrite (bind_Return _ _ st E). reflexivity.
    + exists message. exact (serve_rejects provider KEY req st Hm E).
  - intros (status & r & S). exact (Back status r S).
Qed.

Lemma serve_status_follows_first_stage_witness :
  (exists r, value (serve Mock.provider (Some "key") (Mock.request "inbox")
                      (Mock.fresh [NotOk "overloaded"]))
             = Return (Json 200 (Success r))) /\
  (exists message, value (serve Flaky.provider (Some "key") (Mock.request "inbox")
                            (Mock.fresh [Mock.says "fyi"]))
                   = Return (Json 400 (Failure message))).
Proof.
  split.
  - apply (@serve_status_follows_first_stage Mock.World Mock.provider (Some "key")
             (Mock.request "inbox") (Mock.fresh [NotOk "overloaded"])).
    + discriminate.
    + exists "token", (mkMessageList (Some ["m1"; "m2"; "m3"]) (Some "A")),
             (Mock.mkWorld [NotOk "overloaded"] 0).
      repeat split.
  - apply (@serve_status_follows_first_stage Mock.World Flaky.provider (Some "key")
             (Mock.request "inbox") (Mock.fresh [Mock.says "fyi"])).
    + discriminate.
    + intros (accessToken & listData & w & Ht & _ & Hl & Hn).
      injection Ht as <-. injection Hl as <- <-. discriminate Hn.
Defined.
